(** * Task pipelines of transformers.js ([src/pipelines.js])

    A shallow embedding of the decoding code of the pipelines and of the
    [pipeline] factory, followed by the properties proved about it.

    Conventions of the embedding.
    - A JS number is an exact rational ([Q]): rounding, overflow and signed
      zeros are left out.  Where the code can divide by zero (mean pooling)
      the number type [Js.num] adds the infinities and [NaN].
    - Counts such as [topk] are natural numbers.
    - [softmax] (of [utils/maths.js]), the tokenizer, the model and the
      processor are collaborators that live outside [pipelines.js]; they are
      section variables of the pipeline that uses them.
    - An exception is a value of [Js.completion]; a [while] loop takes fuel. *)

From Stdlib Require Import List ZArith QArith Qround String Ascii Bool Arith Lia Lqa.
From Stdlib Require Import Permutation Sorted.
Import ListNotations.

Set Implicit Arguments.

(* ================================================================== *)
(** * Part I: the embedding *)
(* ================================================================== *)

(** ** JavaScript values and built-ins used by the pipelines *)
Module Js.

(** What a pipeline call resolves to: [undefined], one result object, or an
    array of values. *)
#[warnings="-register-all"] Inductive jsval (A : Type) : Type :=
| JUndefined
| JObj (o : A)
| JArr (l : list (jsval A)).
Arguments JUndefined {A}.
Arguments JObj {A} o.
Arguments JArr {A} l.

(** An argument that is either one item or an array of items. *)
Inductive js_arg (A : Type) : Type :=
| Single (a : A)
| Many (l : list A).
Arguments Single {A} a.
Arguments Many {A} l.

(** [Array.isArray(x)] *)
Definition isArray {A} (x : js_arg A) : bool :=
  match x with Many _ => true | Single _ => false end.

(** [if (!Array.isArray(x)) x = [x]] *)
Definition to_list {A} (x : js_arg A) : list A :=
  match x with Single a => [a] | Many l => l end.

(** [arr[0]]: [undefined] on the empty array. *)
Definition first {A} (l : list (jsval A)) : jsval A :=
  match l with [] => JUndefined | v :: _ => v end.

(** How a call completes: normally, by a thrown [Error] or [TypeError], or
    not at all within the fuel given to its loop. *)
Inductive completion (A : Type) : Type :=
| Return (a : A)
| ThrowError (msg : string)
| ThrowTypeError (msg : string)
| OutOfFuel.
Arguments Return {A} a.
Arguments ThrowError {A} msg.
Arguments ThrowTypeError {A} msg.
Arguments OutOfFuel {A}.

(** [Array.prototype.sort(cmp)]: a stable sort; [x] goes before the first
    [y] with [cmp x y <= 0]. *)
Fixpoint insert_by {A} (cmp : A -> A -> Q) (x : A) (l : list A) : list A :=
  match l with
  | [] => [x]
  | y :: ys => if Qle_bool (cmp x y) 0 then x :: y :: ys
               else y :: insert_by cmp x ys
  end.

Definition sort {A} (cmp : A -> A -> Q) (l : list A) : list A :=
  fold_right (insert_by cmp) [] l.

(** [arr.map((x, i) => [x, i])] *)
Definition with_index {A} (l : list A) : list (A * nat) :=
  combine l (seq 0 (List.length l)).

(** [arr.slice(start, end)] for non-negative integer bounds. *)
Definition slice {A} (l : list A) (b e : nat) : list A :=
  firstn (e - b) (skipn b l).

(** The properties every object literal inherits from [Object.prototype]
    (functions, and for [__proto__] the prototype object itself). *)
Definition Object_prototype : list string :=
  [ "constructor"; "__defineGetter__"; "__defineSetter__"; "hasOwnProperty";
    "__lookupGetter__"; "__lookupSetter__"; "isPrototypeOf";
    "propertyIsEnumerable"; "toString"; "valueOf"; "__proto__";
    "toLocaleString" ]%string.

(** The result of [obj[key]] on a plain object with the given own entries. *)
Inductive prop (A : Type) : Type :=
| Own (a : A)
| Inherited (name : string)
| Undefined.
Arguments Own {A} a.
Arguments Inherited {A} name.
Arguments Undefined {A}.

(** Own property: of two entries with one key the later one wins
    ([Object.fromEntries]). *)
Fixpoint own {A} (entries : list (string * A)) (key : string) : option A :=
  match entries with
  | [] => None
  | (k, v) :: rest =>
      match own rest key with
      | Some v' => Some v'
      | None => if String.eqb k key then Some v else None
      end
  end.

Definition get {A} (entries : list (string * A)) (key : string) : prop A :=
  match own entries key with
  | Some v => Own v
  | None => if existsb (String.eqb key) Object_prototype
            then Inherited key else Undefined
  end.

(** [Object.keys(obj)] *)
Definition keys {A} (entries : list (string * A)) : list string :=
  map fst entries.

(** [String(arr)]: the elements joined by a comma. *)
Fixpoint join (l : list string) : string :=
  match l with
  | [] => ""
  | [s] => s
  | s :: rest => s ++ "," ++ join rest
  end%string.

(** JS numbers where a division by zero can occur. *)
Inductive num : Type :=
| Fin (q : Q)
| PosInf
| NegInf
| NaN.

Definition inf_of_sign (positive : bool) : num :=
  if positive then PosInf else NegInf.

Definition num_add (a b : num) : num :=
  match a, b with
  | NaN, _ | _, NaN => NaN
  | Fin x, Fin y => Fin (x + y)
  | PosInf, NegInf | NegInf, PosInf => NaN
  | PosInf, _ | _, PosInf => PosInf
  | NegInf, _ | _, NegInf => NegInf
  end.

(** sign of a number, [None] for zero *)
Definition sign (a : num) : option bool :=
  match a with
  | Fin x => if Qeq_bool x 0 then None else Some (Qle_bool 0 x)
  | PosInf => Some true
  | NegInf => Some false
  | NaN => None
  end.

Definition num_mul (a b : num) : num :=
  match a, b with
  | NaN, _ | _, NaN => NaN
  | Fin x, Fin y => Fin (x * y)
  | _, _ =>
      match sign a, sign b with
      | Some s, Some t => inf_of_sign (Bool.eqb s t)
      | _, _ => NaN
      end
  end.

Definition num_div (a b : num) : num :=
  match a, b with
  | NaN, _ | _, NaN => NaN
  | Fin x, Fin y =>
      if Qeq_bool y 0
      then match sign (Fin x) with
           | None => NaN
           | Some s => inf_of_sign s
           end
      else Fin (x / y)
  | Fin _, _ => Fin 0
  | _, Fin y => match sign a with
                | Some s => inf_of_sign (Bool.eqb s (Qle_bool 0 y))
                | None => NaN
                end
  | _, _ => NaN
  end.

End Js.

(** ** [utils/maths.js] *)
Module Maths.

(** Modelled from the spec: [getTopItems] of [utils/maths.js], which is not
    part of [pipelines.js].  "select the topk highest-scoring (label,score)
    pairs, ties broken by first-seen index (stable sort)"; an item is the
    pair of its index and its score.  The specification gives [top_k = 0]
    no meaning of its own, so the properties of the decoders are stated
    for [top_k >= 1]. *)
Definition getTopItems (items : list Q) (top_k : nat) : list (nat * Q) :=
  firstn top_k
    (Js.sort (fun a b => snd b - snd a)
       (combine (seq 0 (List.length items)) items)).

(** Sum of a list of scores. *)
Definition total (l : list Q) : Q := fold_right Qplus 0 l.

End Maths.

(** ** Text and image classification *)
Module Classification.
Import Js.

(** One [{label, score}] object; [label] is [undefined] when [id2label]
    has no entry for the index. *)
Record label_score : Type := { label : option string; score : Q }.

Section Decode.
Variable softmax : list Q -> list Q.
Variable id2label : nat -> option string.

  (** The body of [for (let batch of outputs.logits)], shared word for word
      by the text and the image pipeline. *)
Definition vals (topk : nat) (batch : list Q) : list label_score :=
    map (fun x => {| label := id2label (fst x); score := snd x |})
      (Maths.getTopItems (softmax batch) topk).

Definition push_item (topk : nat) (toReturn : list (jsval label_score))
      (batch : list Q) : list (jsval label_score) :=
    if topk =? 1 then toReturn ++ map JObj (vals topk batch)
    else toReturn ++ [JArr (map JObj (vals topk batch))].

Definition decode (topk : nat) (logits : list (list Q))
    : list (jsval label_score) :=
    fold_left (push_item topk) logits [].
End Decode.

End Classification.

Module TextClassificationPipeline.
Import Js Classification.

Section Pipeline.
Variable text : Type.
Variable softmax : list Q -> list Q.
Variable id2label : nat -> option string.
  (** [Pipeline._call]: tokenizer, then model; the rows of
      [outputs.logits]. *)
Variable super_call : js_arg text -> list (list Q).

Definition _call (texts : js_arg text) (topk : nat) : jsval label_score :=
    let outputs := super_call texts in
    let toReturn := decode softmax id2label topk outputs in
    if isArray texts || (topk =? 1) then JArr toReturn else first toReturn.
End Pipeline.

End TextClassificationPipeline.

Module ImageClassificationPipeline.
Import Js Classification.

Section Pipeline.
Variable image : Type.
Variable softmax : list Q -> list Q.
Variable id2label : nat -> option string.
  (** [prepareImages], the processor, then the model; the rows of
      [output.logits]. *)
Variable run : list image -> list (list Q).

Definition _call (images : js_arg image) (topk : nat) : jsval label_score :=
    let isBatched := isArray images in
    let output := run (to_list images) in
    let toReturn := decode softmax id2label topk output in
    if isBatched || (topk =? 1) then JArr toReturn else first toReturn.
End Pipeline.

End ImageClassificationPipeline.

(** ** Extractive question answering *)
Module QuestionAnsweringPipeline.
Import Js.

(** One row of the batch: the token ids of question and context, and the
    model's start and end logits for them. *)
Record item : Type :=
  { input_ids : list Z; start_logits : list Q; end_logits : list Q }.

(** One [{answer, score}] object. *)
Record answer_score : Type := { answer : string; score : Q }.

(** [ids.indexOf(x)]: the first position of [x], or [-1]. *)
Fixpoint indexOf_from (i : Z) (ids : list Z) (x : Z) : Z :=
  match ids with
  | [] => (-1)%Z
  | y :: rest => if (y =? x)%Z then i else indexOf_from (i + 1)%Z rest x
  end.

Definition indexOf (ids : list Z) (x : Z) : Z := indexOf_from 0%Z ids x.

(** [product(a, b)]: [a.flatMap(d => b.map(e => [d, e]))] *)
Definition product {A B} (a : list A) (b : list B) : list (A * B) :=
  flat_map (fun d => map (fun e => (d, e)) b) a.

(** A candidate span [[start, end, score]]. *)
Definition span : Type := (nat * nat * Q)%type.
Definition span_start (s : span) : nat := fst (fst s).
Definition span_end (s : span) : nat := snd (fst s).
Definition span_score (s : span) : Q := snd s.

Section Pipeline.
Variable softmax : list Q -> list Q.
(** [tokenizer.decode(ids, {skip_special_tokens})] *)
Variable decode : list Z -> bool -> string.
Variable sep_token_id : Z.
(** The tokenizer on (question, text_pair: context), then the model. *)
Variable run : js_arg string -> js_arg string -> list item.

(** [Array.from(softmax(logits)).map((x, i) => [x, i])
      .filter(x => x[1] > sepIndex)] *)
Definition candidates (logits : list Q) (sepIndex : Z) : list (Q * nat) :=
  filter (fun x => (sepIndex <? Z.of_nat (snd x))%Z)
    (with_index (softmax logits)).

Definition options (it : item) : list span :=
  let sepIndex := indexOf (input_ids it) sep_token_id in
  let s1 := candidates (start_logits it) sepIndex in
  let e1 := candidates (end_logits it) sepIndex in
  sort (fun a b => span_score b - span_score a)
    (map (fun x => (snd (fst x), snd (snd x), fst (fst x) * fst (snd x)))
       (filter (fun x => snd (fst x) <=? snd (snd x)) (product s1 e1))).

(** The spans kept for one item: [options[k]] for
    [k < Math.min(options.length, topk)]. *)
Definition spans (topk : nat) (it : item) : list span :=
  firstn topk (options it).

Definition to_answer (it : item) (s : span) : answer_score :=
  {| answer := decode (slice (input_ids it) (span_start s) (span_end s + 1))
                 true;
     score := span_score s |}.

Definition item_answers (topk : nat) (it : item) : list answer_score :=
  map (to_answer it) (spans topk it).

Definition _call (question context : js_arg string) (topk : nat)
  : jsval answer_score :=
  let toReturn :=
    flat_map (fun it => map JObj (item_answers topk it))
      (run question context) in
  if topk =? 1 then first toReturn else JArr toReturn.
End Pipeline.

End QuestionAnsweringPipeline.

(** ** Zero-shot classification with an NLI model *)
Module ZeroShotClassificationPipeline.
Import Js.

(** [c.toLowerCase()] on an ASCII letter. *)
Definition lower_ascii (c : ascii) : ascii :=
  let n := nat_of_ascii c in
  if (65 <=? n) && (n <=? 90) then ascii_of_nat (n + 32) else c.

Fixpoint toLowerCase (s : string) : string :=
  match s with
  | EmptyString => EmptyString
  | String c rest => String (lower_ascii c) (toLowerCase rest)
  end.

(** [GetSubstitution] for a string pattern, which has no capture groups:
    in the replacement text [$$] is a dollar sign, [$&] the matched text,
    [$`] the text before the match and [$'] the text after it; every other
    [$] stands for itself. *)
Fixpoint GetSubstitution (matched before after replacement : string) : string :=
  match replacement with
  | EmptyString => EmptyString
  | String c tail =>
      if Ascii.eqb c "$" then
        match tail with
        | EmptyString => String c EmptyString
        | String d rest =>
            if Ascii.eqb d "$"
            then String d (GetSubstitution matched before after rest)
            else if Ascii.eqb d "&"
            then matched ++ GetSubstitution matched before after rest
            else if Ascii.eqb d "`"
            then before ++ GetSubstitution matched before after rest
            else if Ascii.eqb d "'"
            then after ++ GetSubstitution matched before after rest
            else String c (GetSubstitution matched before after tail)
        end
      else String c (GetSubstitution matched before after tail)
  end%string.

(** [template.replace('{}', x)] from the point where [before] has been read:
    the first occurrence is replaced by the substitution of [x]. *)
Fixpoint replace_from (before template x : string) : string :=
  match template with
  | EmptyString => EmptyString
  | String c rest =>
      match c, rest with
      | "{"%char, String "}"%char rest' =>
          (GetSubstitution "{}" before rest' x ++ rest')%string
      | _, _ => String c (replace_from (before ++ String c EmptyString) rest x)
      end
  end.

(** [template.replace('{}', x)] *)
Definition replace_braces (template x : string) : string :=
  replace_from "" template x.

(** The fields the constructor adds to the pipeline. *)
Record t : Type :=
  { label2id : list (string * Z);
    entailment_id : Z;
    contradiction_id : Z }.

Definition warn_entailment : string :=
  "Could not find 'entailment' in label2id mapping. Using 2 as entailment_id.".
Definition warn_contradiction : string :=
  "Could not find 'contradiction' in label2id mapping. Using 0 as contradiction_id.".

(** [constructor]: the pipeline and the lines written by [console.warn].
    [config_label2id] is [model.config.label2id]. *)
Definition constructor (config_label2id : list (string * Z))
  : t * list string :=
  let l2i := map (fun kv => (toLowerCase (fst kv), snd kv)) config_label2id in
  let '(e, w1) :=
    match get l2i "entailment" with
    | Own v => (v, [])
    | _ => (2%Z, [warn_entailment])
    end in
  let '(c, w2) :=
    match get l2i "contradiction" with
    | Own v => (v, [])
    | _ => (0%Z, [warn_contradiction])
    end in
  ({| label2id := l2i; entailment_id := e; contradiction_id := c |},
   w1 ++ w2).

(** One result object. *)
Record prediction : Type :=
  { sequence : string; labels : list (option string); scores : list Q }.

Section Pipeline.
Variable softmax : list Q -> list Q.
(** The tokenizer on (premise, text_pair: hypothesis), then the model:
    [outputs.logits.data[id]]. *)
Variable logit : string -> string -> Z -> Q.
Variable self : t.

Definition scores_of (softmaxEach : bool) (premise : string)
    (hypotheses : list string) : list Q :=
  if softmaxEach
  then map (fun h => nth 1 (softmax [logit premise h (contradiction_id self);
                                      logit premise h (entailment_id self)]) 0)
         hypotheses
  else softmax (map (fun h => logit premise h (entailment_id self)) hypotheses).

Definition classify (softmaxEach : bool) (candidate_labels hypotheses : list string)
    (premise : string) : prediction :=
  let scores := scores_of softmaxEach premise hypotheses in
  let scores_sorted := sort (fun a b => fst b - fst a) (with_index scores) in
  {| sequence := premise;
     labels := map (fun x => nth_error candidate_labels (snd x)) scores_sorted;
     scores := map fst scores_sorted |}.

Definition _call (texts : js_arg string) (candidate_labels : js_arg string)
    (hypothesis_template : string) (multi_label : bool) : jsval prediction :=
  let isBatched := isArray texts in
  let texts := to_list texts in
  let candidate_labels := to_list candidate_labels in
  let hypotheses := map (replace_braces hypothesis_template) candidate_labels in
  let softmaxEach := multi_label || (List.length candidate_labels =? 1) in
  let toReturn :=
    map (fun premise =>
           JObj (classify softmaxEach candidate_labels hypotheses premise))
      texts in
  if isBatched then JArr toReturn else first toReturn.
End Pipeline.

End ZeroShotClassificationPipeline.

(** ** Feature extraction: mean pooling *)
Module FeatureExtractionPipeline.
Import Js.

(** [last_hidden_state]: [dims = [batchSize, seqLength, embedDim]] and the
    flat row-major [data]. *)
Record Tensor : Type := { dims : nat * nat * nat; data : list Q }.

(** A typed-array read used as an operand: [undefined] (out of range)
    becomes [NaN] in the arithmetic. *)
Definition read (d : list Q) (i : nat) : num :=
  match nth_error d i with Some q => Fin q | None => NaN end.

(** [Number(attention_mask.data[i])] on a BigInt64Array. *)
Definition read_mask (m : list Z) (i : nat) : num :=
  match nth_error m i with Some z => Fin (inject_Z z) | None => NaN end.

(** The loop over [j] for fixed [i] and [k]: the pair [(sum, count)]. *)
Definition pool_sums (h : Tensor) (attention_mask : list Z) (i k : nat)
  : num * num :=
  let '(_, seqLength, embedDim) := dims h in
  let offset := (i * embedDim * seqLength)%nat in
  let attnMaskOffset := (i * seqLength)%nat in
  let offset2 := (offset + k)%nat in
  fold_left
    (fun (acc : num * num) (j : nat) =>
       let attn := read_mask attention_mask (attnMaskOffset + j) in
       (num_add (fst acc) (num_mul (read (data h) (offset2 + j * embedDim)) attn),
        num_add (snd acc) attn))
    (seq 0 seqLength) (Fin 0, Fin 0).

(** [avg = sum / count] *)
Definition pool_cell (h : Tensor) (attention_mask : list Z) (i k : nat) : num :=
  let sc := pool_sums h attention_mask i k in
  num_div (fst sc) (snd sc).

(** [_mean_pooling]: the data of the returned [batchSize x embedDim]
    tensor, written at [outIndex = 0, 1, ...] in loop order. *)
Definition _mean_pooling (h : Tensor) (attention_mask : list Z) : list num :=
  let '(batchSize, _, embedDim) := dims h in
  flat_map
    (fun i => map (fun k => pool_cell h attention_mask i k) (seq 0 embedDim))
    (seq 0 batchSize).

(** [Math.sqrt] lifted to [num]; [sqrt] is the root of a non-negative
    finite number. *)
Definition num_sqrt (sqrt : Q -> Q) (a : num) : num :=
  match a with
  | Fin q => if Qle_bool 0 q then Fin (sqrt q) else NaN
  | PosInf => PosInf
  | _ => NaN
  end.

(** [Math.sqrt(batch.data.reduce((a, b) => a + b * b, 0))] *)
Definition norm_of (sqrt : Q -> Q) (row : list num) : num :=
  num_sqrt sqrt (fold_left (fun a b => num_add a (num_mul b b)) row (Fin 0)).

(** The loop [batch.data[i] /= norm] over one row. *)
Definition normalize_row (sqrt : Q -> Q) (row : list num) : list num :=
  let norm := norm_of sqrt row in
  map (fun b => num_div b norm) row.

(** [_normalize]: every row of the [batchSize x embedDim] tensor. *)
Definition _normalize (sqrt : Q -> Q) (tensor : list (list num))
  : list (list num) :=
  map (normalize_row sqrt) tensor.

(** The rows of a flat [batchSize x embedDim] tensor. *)
Fixpoint rows (batchSize embedDim : nat) (d : list num) : list (list num) :=
  match batchSize with
  | O => []
  | S b => firstn embedDim d :: rows b embedDim (skipn embedDim d)
  end.

(** [_call]: mean pooling, then normalization; [super_call] is
    [Pipeline._call] giving [outputs.last_hidden_state] and
    [inputs.attention_mask]. *)
Definition _call {text : Type} (sqrt : Q -> Q)
    (super_call : text -> Tensor * list Z) (texts : text)
  : list (list num) :=
  let '(last_hidden_state, attention_mask) := super_call texts in
  let '(batchSize, _, embedDim) := dims last_hidden_state in
  _normalize sqrt
    (rows batchSize embedDim (_mean_pooling last_hidden_state attention_mask)).

End FeatureExtractionPipeline.

(** ** Automatic speech recognition: chunking *)
Module AutomaticSpeechRecognitionPipeline.
Import Js.

(** Times and sample positions are exact rationals.  The code computes
    [window], [stride], [jump] and the running [offset] in doubles: where
    [chunk_length_s / 6] or one of the products is not a double, its window
    starts are the rounded ones, and on a long clip the number of chunks
    can differ by one from the exact count.  What the properties say about
    a returned list of chunks is therefore stated relative to that list
    (its first and last chunk, the flags and overlaps of each chunk), not
    as a formula for the position or the number of the windows. *)

(** The options read from [kwargs]; [stride_length_s = None] is
    [kwargs.stride_length_s ?? null] being [null]. *)
Record kwargs : Type :=
  { return_timestamps : bool;
    chunk_length_s : Q;
    stride_length_s : option Q;
    force_full_sequences : bool }.

(** [ToIntegerOrInfinity]: truncation toward zero. *)
Definition ToIntegerOrInfinity (q : Q) : Z := Z.quot (Qnum q) (Zpos (Qden q)).

(** A relative index of [subarray], clamped to [0 .. len]. *)
Definition relative_index (len i : Z) : Z :=
  if (i <? 0)%Z then Z.max (len + i) 0 else Z.min i len.

(** [TypedArray.prototype.subarray(begin, end)] *)
Definition subarray {A} (l : list A) (b e : Q) : list A :=
  let len := Z.of_nat (List.length l) in
  let bi := relative_index len (ToIntegerOrInfinity b) in
  let ei := relative_index len (ToIntegerOrInfinity e) in
  firstn (Z.to_nat (Z.max (ei - bi) 0)) (skipn (Z.to_nat bi) l).

Definition length_of {A} (l : list A) : Q := inject_Z (Z.of_nat (List.length l)).

Definition stride_error : string :=
  "`chunk_length_s` must be larger than `stride_length_s`.".

Section Pipeline.
Variables audio_input sample features tokens transcript : Type.
(** [processor.feature_extractor.config.sampling_rate] *)
Variable sampling_rate : Q.
(** [_preprocess]: [read_audio] for a URL, the samples themselves otherwise. *)
Variable preprocess : audio_input -> list sample.
(** [(await this.processor(x)).input_features] *)
Variable processor : list sample -> features.
(** [(await this.model.generate(f, kwargs))[0].flat()] *)
Variable generate : features -> kwargs -> tokens.

(** A chunk as pushed by the chunking code: [stride] is in samples. *)
Record chunk : Type :=
  { stride : Q * Q * Q; input_features : features; is_last : bool }.

(** A chunk after the generation loop: tokens added, [stride] in seconds. *)
Record generated_chunk : Type :=
  { g_stride : Q * Q * Q; g_input_features : features; g_is_last : bool;
    g_tokens : tokens }.

(** [tokenizer._decode_asr(chunks, {...})] merged into [{text, ...optional}] *)
Variable decode_asr : list generated_chunk -> kwargs -> transcript.

(** One iteration of [while (offset < aud.length)]: the chunk pushed. *)
Definition chunk_at (aud : list sample) (window stride jump offset : Q) : chunk :=
  let subarr := subarray aud offset (offset + window) in
  let isFirst := Qeq_bool offset 0 in
  let isLast := Qle_bool (length_of aud) (offset + jump) in
  {| stride := (length_of subarr,
                if isFirst then 0 else stride,
                if isLast then 0 else stride);
     input_features := processor subarr;
     is_last := isLast |}.

Fixpoint chunk_loop (fuel : nat) (aud : list sample)
    (window stride jump offset : Q) (chunks : list chunk)
  : completion (list chunk) :=
  match fuel with
  | O => OutOfFuel
  | S fuel' =>
      if negb (Qle_bool (length_of aud) offset)
      then chunk_loop fuel' aud window stride jump (offset + jump)
             (chunks ++ [chunk_at aud window stride jump offset])
      else Return chunks
  end.

(** The [if (stride_length_s === null) ... else if (chunk_length_s <=
    stride_length_s) throw ...] step: the value of [stride_length_s]
    afterwards. *)
Definition check_stride (chunk_len : Q) (stride_len : option Q) : completion Q :=
  match stride_len with
  | None => Return (chunk_len / 6)
  | Some s => if Qle_bool chunk_len s then ThrowError stride_error else Return s
  end.

(** The chunks of one audio item, and [stride_length_s] as the item leaves
    it for the next one. *)
Definition item_chunks (fuel : nat) (aud : list sample) (chunk_len : Q)
    (stride_len : option Q) : completion (option Q * list chunk) :=
  if negb (Qle_bool chunk_len 0)
  then
    match check_stride chunk_len stride_len with
    | Return s =>
        let window := sampling_rate * chunk_len in
        let stride := sampling_rate * s in
        let jump := window - 2 * stride in
        match chunk_loop fuel aud window stride jump 0 [] with
        | Return chunks => Return (Some s, chunks)
        | ThrowError m => ThrowError m
        | ThrowTypeError m => ThrowTypeError m
        | OutOfFuel => OutOfFuel
        end
    | ThrowError m => ThrowError m
    | ThrowTypeError m => ThrowTypeError m
    | OutOfFuel => OutOfFuel
    end
  else
    Return (stride_len,
            [ {| stride := (length_of aud, 0, 0);
                 input_features := processor aud;
                 is_last := true |} ]).

(** [for (let chunk of chunks)]: generate, then rewrite the stride in
    seconds.  The optional [chunk_callback] only observes the chunk and is
    left out. *)
Definition to_seconds (s : Q * Q * Q) : Q * Q * Q :=
  let '(a, b, c) := s in (a / sampling_rate, b / sampling_rate, c / sampling_rate).

Definition generate_chunk (kw : kwargs) (c : chunk) : generated_chunk :=
  let data := generate (input_features c) kw in
  {| g_stride := to_seconds (stride c);
     g_input_features := input_features c;
     g_is_last := is_last c;
     g_tokens := data |}.

(** [for (let aud of audio)] *)
Fixpoint items_loop (fuel : nat) (kw : kwargs) (stride_len : option Q)
    (audio : list audio_input) (toReturn : list (jsval transcript))
  : completion (list (jsval transcript)) :=
  match audio with
  | [] => Return toReturn
  | aud :: rest =>
      match item_chunks fuel (preprocess aud) (chunk_length_s kw) stride_len with
      | Return (stride_len', chunks) =>
          let generated := map (generate_chunk kw) chunks in
          items_loop fuel kw stride_len' rest
            (toReturn ++ [JObj (decode_asr generated kw)])
      | ThrowError m => ThrowError m
      | ThrowTypeError m => ThrowTypeError m
      | OutOfFuel => OutOfFuel
      end
  end.

Definition _call (fuel : nat) (audio : js_arg audio_input) (kw : kwargs)
  : completion (jsval transcript) :=
  let single := negb (isArray audio) in
  match items_loop fuel kw (stride_length_s kw) (to_list audio) [] with
  | Return toReturn => Return (if single then first toReturn else JArr toReturn)
  | ThrowError m => ThrowError m
  | ThrowTypeError m => ThrowTypeError m
  | OutOfFuel => OutOfFuel
  end.
End Pipeline.

End AutomaticSpeechRecognitionPipeline.

(** ** Image segmentation *)
Module ImageSegmentationPipeline.
Import Js.

(** One entry of [processed.segments_info]. *)
Record segment_info : Type := { id : Z; label_id : nat; score : Q }.

(** What the post-processing returns for one image: the segmentation map
    ([data] and [dims]) and the segments found. *)
Record processed_t : Type :=
  { segmentation_data : list Z;
    segmentation_dims : nat * nat;
    segments_info : list segment_info }.

(** [new CustomImage(data, width, height, channels)] *)
Record CustomImage : Type :=
  { image_data : list Z; width : nat; height : nat; channels : nat }.

Record annotation : Type :=
  { a_score : Q; a_label : option string; a_mask : CustomImage }.

(** The options of [_call] after their defaults. *)
Record call_options : Type :=
  { threshold : Q;
    mask_threshold : Q;
    overlap_mask_area_threshold : Q;
    label_ids_to_fuse : option (list nat);
    target_sizes : option (list (nat * nat));
    subtask : option string }.

(** [this.subtasks_mapping], set by the constructor. *)
Definition subtasks_mapping : list (string * string) :=
  [ ("panoptic", "post_process_panoptic_segmentation");
    ("instance", "post_process_instance_segmentation");
    ("semantic", "post_process_semantic_segmentation") ]%string.

Definition batch_error : string :=
  "Image segmentation pipeline currently only supports a batch size of 1.".
Definition semantic_error : string :=
  "semantic segmentation not yet supported.".
Definition subtask_error (subtask : option string) : string :=
  ("Subtask " ++ match subtask with Some s => s | None => "null" end
     ++ " not supported.")%string.
Definition not_a_function : string := "fn is not a function".
Definition undefined_processed : string :=
  "Cannot read properties of undefined (reading 'segmentation')".

Section Pipeline.
Variables image output : Type.
(** [[x.height, x.width]] *)
Variable image_size : image -> nat * nat.
(** [prepareImages], the processor, then the model. *)
Variable run : list image -> output.

(** A post-processing method of the feature extractor. *)
Definition post_process_fn : Type :=
  output -> Q -> Q -> Q -> option (list nat) -> list (nat * nat)
  -> list processed_t.

(** [this.processor.feature_extractor]: the method of that name, if it has
    one ([func in feature_extractor]). *)
Variable feature_extractor : string -> option post_process_fn.
Variable id2label : nat -> option string.

(** The value held by the local [fn]. *)
Inductive fn_value : Type :=
| FnNull
| FnProperty (p : prop string)
| FnBound (f : post_process_fn).

(** The [for ... of Object.entries(this.subtasks_mapping)] probe: the first
    entry whose method the feature extractor has. *)
Fixpoint probe (entries : list (string * string)) : fn_value * option string :=
  match entries with
  | [] => (FnNull, None)
  | (task, func) :: rest =>
      match feature_extractor func with
      | Some f => (FnBound f, Some task)
      | None => probe rest
      end
  end.

(** [fn] and [subtask] after the selection step. *)
Definition select_fn (subtask : option string) : fn_value * option string :=
  match subtask with
  | Some s => (FnProperty (get subtasks_mapping s), Some s)
  | None => probe subtasks_mapping
  end.

(** The mask of one segment: 255 where the map holds the segment's id, 0
    elsewhere. *)
Definition mask_data (segmentation : list Z) (segment_id : Z) : list Z :=
  map (fun v => if (v =? segment_id)%Z then 255%Z else 0%Z) segmentation.

Definition annotate (processed : processed_t) (segment : segment_info)
  : annotation :=
  {| a_score := score segment;
     a_label := id2label (label_id segment);
     a_mask := {| image_data := mask_data (segmentation_data processed) (id segment);
                  width := snd (segmentation_dims processed);
                  height := fst (segmentation_dims processed);
                  channels := 1 |} |}.

Definition is_panoptic_or_instance (subtask : option string) : bool :=
  match subtask with
  | Some s => String.eqb s "panoptic" || String.eqb s "instance"
  | None => false
  end.

Definition is_semantic (subtask : option string) : bool :=
  match subtask with Some s => String.eqb s "semantic" | None => false end.

Definition _call (images : js_arg image) (o : call_options)
  : completion (list annotation) :=
  let isBatched := isArray images in
  if isBatched && negb (List.length (to_list images) =? 1)
  then ThrowError batch_error
  else
    let images := to_list images in
    let imageSizes := map image_size images in
    let output := run images in
    let '(fn, subtask) := select_fn (subtask o) in
    if is_panoptic_or_instance subtask
    then
      match fn with
      | FnBound f =>
          match f output (threshold o) (mask_threshold o)
                  (overlap_mask_area_threshold o) (label_ids_to_fuse o)
                  (match target_sizes o with Some t => t | None => imageSizes end)
          with
          | processed :: _ =>
              Return (map (annotate processed) (segments_info processed))
          | [] => ThrowTypeError undefined_processed
          end
      | _ => ThrowTypeError not_a_function
      end
    else if is_semantic subtask
    then ThrowError semantic_error
    else ThrowError (subtask_error subtask).
End Pipeline.

End ImageSegmentationPipeline.

(** ** The task registry and the [pipeline] factory *)
Module Factory.
Import Js.

(** One entry of [SUPPORTED_TASKS]; a class is named by its identifier. *)
Record descriptor : Type :=
  { tokenizer : option string;
    pipeline_class : string;
    model_class : string;
    processor : option string;
    default_model : string;
    type : string }.

Definition text_task (p m d : string) : descriptor :=
  {| tokenizer := Some "AutoTokenizer"%string; pipeline_class := p;
     model_class := m; processor := None; default_model := d;
     type := "text" |}.

Definition multimodal_task (tok : bool) (p m d : string) : descriptor :=
  {| tokenizer := if tok then Some "AutoTokenizer"%string else None;
     pipeline_class := p; model_class := m;
     processor := Some "AutoProcessor"%string; default_model := d;
     type := "multimodal" |}.

Definition SUPPORTED_TASKS : list (string * descriptor) :=
  [ ("text-classification",
     text_task "TextClassificationPipeline" "AutoModelForSequenceClassification"
       "Xenova/distilbert-base-uncased-finetuned-sst-2-english");
    ("token-classification",
     text_task "TokenClassificationPipeline" "AutoModelForTokenClassification"
       "Xenova/bert-base-multilingual-cased-ner-hrl");
    ("question-answering",
     text_task "QuestionAnsweringPipeline" "AutoModelForQuestionAnswering"
       "Xenova/distilbert-base-cased-distilled-squad");
    ("fill-mask",
     text_task "FillMaskPipeline" "AutoModelForMaskedLM"
       "Xenova/bert-base-uncased");
    ("summarization",
     text_task "SummarizationPipeline" "AutoModelForSeq2SeqLM"
       "Xenova/distilbart-cnn-6-6");
    ("translation",
     text_task "TranslationPipeline" "AutoModelForSeq2SeqLM" "Xenova/t5-small");
    ("text2text-generation",
     text_task "Text2TextGenerationPipeline" "AutoModelForSeq2SeqLM"
       "Xenova/flan-t5-small");
    ("text-generation",
     text_task "TextGenerationPipeline" "AutoModelForCausalLM" "Xenova/gpt2");
    ("zero-shot-classification",
     text_task "ZeroShotClassificationPipeline"
       "AutoModelForSequenceClassification"
       "Xenova/distilbert-base-uncased-mnli");
    ("automatic-speech-recognition",
     multimodal_task true "AutomaticSpeechRecognitionPipeline"
       "AutoModelForSeq2SeqLM" "Xenova/whisper-tiny.en");
    ("image-to-text",
     multimodal_task true "ImageToTextPipeline" "AutoModelForVision2Seq"
       "Xenova/vit-gpt2-image-captioning");
    ("image-classification",
     multimodal_task false "ImageClassificationPipeline"
       "AutoModelForImageClassification" "Xenova/vit-base-patch16-224");
    ("image-segmentation",
     multimodal_task false "ImageSegmentationPipeline"
       "AutoModelForImageSegmentation" "Xenova/detr-resnet-50-panoptic");
    ("zero-shot-image-classification",
     multimodal_task true "ZeroShotImageClassificationPipeline" "AutoModel"
       "Xenova/clip-vit-base-patch32");
    ("object-detection",
     multimodal_task false "ObjectDetectionPipeline"
       "AutoModelForObjectDetection" "Xenova/detr-resnet-50");
    ("feature-extraction",
     text_task "FeatureExtractionPipeline" "AutoModel"
       "Xenova/all-MiniLM-L6-v2") ]%string.

Definition TASK_ALIASES : list (string * string) :=
  [ ("sentiment-analysis", "text-classification");
    ("ner", "token-classification");
    ("vqa", "visual-question-answering");
    ("embeddings", "feature-extraction") ]%string.

(** [task.split('_', 1)[0]]: the text before the first underscore. *)
Fixpoint first_segment (task : string) : string :=
  match task with
  | EmptyString => EmptyString
  | String c rest =>
      if Ascii.eqb c "_"%char then EmptyString
      else String c (first_segment rest)
  end.

(** The options object of [pipeline] after its defaults. *)
Record PretrainedOptions : Type :=
  { quantized : bool;
    cache_dir : option string;
    local_files_only : bool;
    revision : string }.

(** The pipeline object built by [new pipelineClass(task, ...items)]. *)
Record Pipeline (collaborator : Type) : Type :=
  { p_task : string;
    p_class : string;
    p_model : string;
    p_items : list collaborator }.

Definition unsupported (task : string) : string :=
  ("Unsupported pipeline: " ++ task ++ ". Must be one of ["
     ++ join (keys SUPPORTED_TASKS) ++ "]")%string.
Definition split_not_a_function : string := "task.split is not a function".
Definition default_of_undefined : string :=
  "Cannot read properties of undefined (reading 'model')".
Definition not_a_constructor : string := "pipelineClass is not a constructor".

Section Factory.
Variable collaborator : Type.
(** [cls.from_pretrained(model, pretrainedOptions)]; [inr] is the error a
    rejected load carries. *)
Variable from_pretrained :
  string -> string -> PretrainedOptions -> collaborator + string.

(** [await Promise.all(promises)]: the loaded items, or the first
    rejection. *)
Fixpoint load_all (classes : list string) (model : string)
    (o : PretrainedOptions) : completion (list collaborator) :=
  match classes with
  | [] => Return []
  | cls :: rest =>
      match from_pretrained cls model o with
      | inr e => ThrowError e
      | inl item =>
          match load_all rest model o with
          | Return items => Return (item :: items)
          | other => other
          end
      end
  end.

Definition option_list {A} (o : option A) : list A :=
  match o with Some a => [a] | None => [] end.

(** [!model]: [null] or the empty string. *)
Definition no_model (model : option string) : bool :=
  match model with None => true | Some m => String.eqb m "" end.

Definition pipeline (task : string) (model : option string)
    (o : PretrainedOptions) : completion (Pipeline collaborator) :=
  match get TASK_ALIASES task with
  | Inherited _ => ThrowTypeError split_not_a_function
  | resolved =>
      let task := match resolved with Own t => t | _ => task end in
      match get SUPPORTED_TASKS (first_segment task) with
      | Undefined => ThrowError (unsupported task)
      | Inherited _ =>
          if no_model model then ThrowTypeError default_of_undefined
          else ThrowTypeError not_a_constructor
      | Own pipelineInfo =>
          let model :=
            match model with
            | Some m => if String.eqb m "" then default_model pipelineInfo else m
            | None => default_model pipelineInfo
            end in
          match load_all (option_list (tokenizer pipelineInfo)
                            ++ [model_class pipelineInfo]
                            ++ option_list (processor pipelineInfo)) model o with
          | Return items =>
              Return {| p_task := task; p_class := pipeline_class pipelineInfo;
                        p_model := model; p_items := items |}
          | ThrowError e => ThrowError e
          | ThrowTypeError e => ThrowTypeError e
          | OutOfFuel => OutOfFuel
          end
      end
  end.
End Factory.

End Factory.

(** ** Token classification *)
Module TokenClassificationPipeline.
Import Js.

(** One returned token; [start] and [end] are always [null] and left out.
    [score] is [scores[topScoreIndex]], [undefined] outside the vector. *)
Record token : Type :=
  { entity : option string; score : option Q; index : nat; word : string }.

(** [ignore_labels.includes(entity)] *)
Definition includes (l : list string) (x : option string) : bool :=
  match x with
  | Some s => existsb (String.eqb s) l
  | None => false
  end.

Section Pipeline.
Variable softmax : list Q -> list Q.
(** [max(arr)[1]] of [utils/maths.js]: the position of the largest entry. *)
Variable max_index : list Q -> nat.
Variable id2label : nat -> option string.
(** [tokenizer.decode(ids, {skip_special_tokens})] *)
Variable decode : list Z -> bool -> string.
(** [Pipeline._call]: for every text its positions, each with the token id
    ([inputs.input_ids[i][j]]) and the logits ([outputs.logits[i][j]]). *)
Variable super_call : list string -> list (list (Z * list Q)).

(** The body of the loop over [j]; [None] is a [continue]. *)
Definition token_at (ignore_labels : list string) (j : nat)
    (p : Z * list Q) : option token :=
  let tokenData := snd p in
  let topScoreIndex := max_index tokenData in
  let entity := id2label topScoreIndex in
  if includes ignore_labels entity then None
  else
    let word := decode [fst p] true in
    if String.eqb word "" then None
    else Some {| entity := entity;
                 score := nth_error (softmax tokenData) topScoreIndex;
                 index := j;
                 word := word |}.

Fixpoint tokens_from (ignore_labels : list string) (j : nat)
    (row : list (Z * list Q)) : list token :=
  match row with
  | [] => []
  | p :: rest =>
      match token_at ignore_labels j p with
      | Some t => t :: tokens_from ignore_labels (S j) rest
      | None => tokens_from ignore_labels (S j) rest
      end
  end.

Definition _call (texts : js_arg string) (ignore_labels : list string)
  : jsval token :=
  let isBatched := isArray texts in
  let texts := to_list texts in
  let toReturn :=
    map (fun row => JArr (map JObj (tokens_from ignore_labels 0 row)))
      (super_call texts) in
  if isBatched then JArr toReturn else first toReturn.
End Pipeline.

End TokenClassificationPipeline.

(** ** Fill-mask *)
Module FillMaskPipeline.
Import Js.

Record prediction : Type :=
  { score : Q; token : nat; token_str : option string; sequence : string }.

(** One row of the batch: the token ids and, for every position, the
    logits over the vocabulary. *)
Record item : Type := { input_ids : list Z; logits : list (list Q) }.

(** [sequence[i] = v] at a position [i] of the array. *)
Fixpoint set_at (l : list Z) (i : nat) (v : Z) : list Z :=
  match l, i with
  | [], _ => []
  | _ :: rest, O => v :: rest
  | x :: rest, S i' => x :: set_at rest i' v
  end.

Definition mask_error (mask_token : string) : string :=
  ("Mask token (" ++ mask_token ++ ") not found in text.")%string.
Definition undefined_logits : string :=
  "Cannot read properties of undefined (reading 'data')".

Section Pipeline.
Variable softmax : list Q -> list Q.
Variable decode : list Z -> bool -> string.
(** [tokenizer.model.vocab] *)
Variable vocab : nat -> option string.
Variable mask_token_id : Z.
Variable mask_token : string.
Variable super_call : js_arg string -> list item.

(** The body of the loop over the rows. *)
Definition item_predictions (topk : nat) (it : item)
  : completion (list prediction) :=
  let ids := input_ids it in
  let mask_token_index := QuestionAnsweringPipeline.indexOf ids mask_token_id in
  if (mask_token_index =? -1)%Z then ThrowError (mask_error mask_token)
  else
    match nth_error (logits it) (Z.to_nat mask_token_index) with
    | None => ThrowTypeError undefined_logits
    | Some itemLogits =>
        Return
          (map (fun x =>
                  {| score := snd x;
                     token := fst x;
                     token_str := vocab (fst x);
                     sequence :=
                       decode (set_at ids (Z.to_nat mask_token_index)
                                 (Z.of_nat (fst x))) true |})
             (Maths.getTopItems (softmax itemLogits) topk))
    end.

Fixpoint items_loop (topk : nat) (items : list item)
    (toReturn : list (jsval prediction))
  : completion (list (jsval prediction)) :=
  match items with
  | [] => Return toReturn
  | it :: rest =>
      match item_predictions topk it with
      | Return preds => items_loop topk rest (toReturn ++ [JArr (map JObj preds)])
      | ThrowError m => ThrowError m
      | ThrowTypeError m => ThrowTypeError m
      | OutOfFuel => OutOfFuel
      end
  end.

Definition _call (texts : js_arg string) (topk : nat)
  : completion (jsval prediction) :=
  match items_loop topk (super_call texts) [] with
  | Return toReturn =>
      Return (if isArray texts then JArr toReturn else first toReturn)
  | ThrowError m => ThrowError m
  | ThrowTypeError m => ThrowTypeError m
  | OutOfFuel => OutOfFuel
  end.
End Pipeline.

End FillMaskPipeline.

(** ** Text-to-text generation, summarization, translation *)
Module Text2TextGenerationPipeline.
Import Js.

(** [model.config]: the global [prefix], and for each task of
    [task_specific_params] its [prefix]. *)
Record config : Type :=
  { prefix : option string;
    task_specific_params : option (list (string * option string)) }.

(** Truthiness of a string-valued property. *)
Definition truthy (s : option string) : bool :=
  match s with
  | Some s => negb (String.eqb s "")
  | None => false
  end.

(** [if (p) texts = texts.map(x => p + x)] *)
Definition add_prefix (p : option string) (texts : list string) : list string :=
  match p with
  | Some s => if truthy p then map (fun x => (s ++ x)%string) texts else texts
  | None => texts
  end.

(** The texts handed to the tokenizer. *)
Definition prepare (cfg : config) (task : string) (texts : js_arg string)
  : list string :=
  let texts := to_list texts in
  let texts := add_prefix (prefix cfg) texts in
  match task_specific_params cfg with
  | Some tsp =>
      match get tsp task with
      | Own p => add_prefix p texts
      | _ => texts
      end
  | None => texts
  end.

(** An element of the result: the plain text, or [{[_key]: text}]. *)
Inductive output : Type :=
| Text (text : string)
| Keyed (key text : string).

Section Pipeline.
Variables input_ids sequence kwargs : Type.
(** [this.tokenizer(texts, {padding, truncation}).input_ids] *)
Variable tokenizer : list string -> input_ids.
(** [this.tokenizer._build_translation_inputs], when the tokenizer has it. *)
Variable build_translation_inputs : option (list string -> kwargs -> input_ids).
Variable generate : input_ids -> kwargs -> list (list sequence).
Variable batch_decode : list sequence -> list string.

(** [_call] of a pipeline whose class sets [_key] and that is
    ([is_translation]) or is not a [TranslationPipeline]. *)
Definition _call (is_translation : bool) (_key : option string)
    (cfg : config) (task : string) (texts : js_arg string)
    (generate_kwargs : kwargs) : jsval output :=
  let texts := prepare cfg task texts in
  let input_ids :=
    match is_translation, build_translation_inputs with
    | true, Some build => build texts generate_kwargs
    | _, _ => tokenizer texts
    end in
  let outputTokenIds := List.concat (generate input_ids generate_kwargs) in
  let toReturn := batch_decode outputTokenIds in
  JArr (map (fun text =>
               JObj (match _key with
                     | Some k => Keyed k text
                     | None => Text text
                     end)) toReturn).

Definition Text2TextGeneration_call := _call false None.
Definition Summarization_call := _call false (Some "summary_text"%string).
Definition Translation_call := _call true (Some "translation_text"%string).
End Pipeline.

End Text2TextGenerationPipeline.

(** ** Text generation *)
Module TextGenerationPipeline.
Import Js.

Record generated : Type := { generated_text : string }.

Definition trim_of_undefined : string :=
  "Cannot read properties of undefined (reading 'trim')".

Section Pipeline.
Variables sequence kwargs : Type.
(** [String.prototype.trim] *)
Variable trim : string -> string.
(** The left-padding tokenizer, then [model.generate]: one group of
    sequences per output row. *)
Variable generate : list string -> kwargs -> list (list sequence).
Variable batch_decode : list sequence -> list string.

(** [outputTokenIds.map((outTokens, i) => ...)] from index [i] on. *)
Fixpoint decode_from (texts : list string) (i : nat)
    (outputTokenIds : list (list sequence))
  : completion (list (jsval generated)) :=
  match outputTokenIds with
  | [] => Return []
  | outTokens :: rest =>
      match nth_error texts i with
      | None => ThrowTypeError trim_of_undefined
      | Some t =>
          let startText := trim t in
          let decoded :=
            map (fun x => JObj {| generated_text := (startText ++ x)%string |})
              (batch_decode outTokens) in
          match decode_from texts (S i) rest with
          | Return l => Return (JArr decoded :: l)
          | other => other
          end
      end
  end.

Definition _call (texts : js_arg string) (generate_kwargs : kwargs)
  : completion (jsval generated) :=
  let stringInput := negb (isArray texts) in
  let texts := to_list texts in
  match decode_from texts 0 (generate texts generate_kwargs) with
  | Return toReturn =>
      Return (if stringInput && (List.length toReturn =? 1)
              then first toReturn else JArr toReturn)
  | ThrowError m => ThrowError m
  | ThrowTypeError m => ThrowTypeError m
  | OutOfFuel => OutOfFuel
  end.
End Pipeline.

End TextGenerationPipeline.

(** ** Image captioning *)
Module ImageToTextPipeline.
Import Js.

Record generated : Type := { generated_text : string }.

Section Pipeline.
Variables image pixels sequence kwargs : Type.
Variable trim : string -> string.
(** [prepareImages], then the processor: the rows of [pixel_values]. *)
Variable process : list image -> list pixels.
Variable generate : pixels -> kwargs -> list (list sequence).
Variable batch_decode : list sequence -> list string.

Definition caption (generate_kwargs : kwargs) (batch : pixels)
  : list generated :=
  map (fun x => {| generated_text := trim x |})
    (batch_decode (List.concat (generate batch generate_kwargs))).

Definition _call (images : js_arg image) (generate_kwargs : kwargs)
  : jsval generated :=
  let isBatched := isArray images in
  let pixel_values := process (to_list images) in
  let toReturn :=
    map (fun batch => JArr (map JObj (caption generate_kwargs batch)))
      pixel_values in
  if isBatched then JArr toReturn else first toReturn.
End Pipeline.

End ImageToTextPipeline.

(** ** Zero-shot image classification *)
Module ZeroShotImageClassificationPipeline.
Import Js.

Record entry : Type := { score : Q; label : option string }.

Section Pipeline.
Variable image : Type.
Variable softmax : list Q -> list Q.
(** [prepareImages], tokenizer and processor, then the model: the rows of
    [output.logits_per_image]. *)
Variable run : list image -> list string -> list (list Q).

Definition entries (candidate_labels : list string) (batch : list Q)
  : list entry :=
  map (fun x => {| score := fst x;
                   label := nth_error candidate_labels (snd x) |})
    (with_index (softmax batch)).

Definition _call (images : js_arg image) (candidate_labels : list string)
    (hypothesis_template : string) : jsval entry :=
  let isBatched := isArray images in
  let texts :=
    map (ZeroShotClassificationPipeline.replace_braces hypothesis_template)
      candidate_labels in
  let toReturn :=
    map (fun batch => JArr (map JObj (entries candidate_labels batch)))
      (run (to_list images) texts) in
  if isBatched then JArr toReturn else first toReturn.
End Pipeline.

End ZeroShotImageClassificationPipeline.

(** ** Object detection *)
Module ObjectDetectionPipeline.
Import Js.

(** One element of what [post_process_object_detection] returns. *)
Record detection : Type :=
  { boxes : list (list Q); classes : list nat; scores : list Q }.

(** The same after [x.labels = x.classes.map(y => id2label[y])]. *)
Record labelled : Type :=
  { detected : detection; labels : list (option string) }.

Definition batch_error : string :=
  "Object detection pipeline currently only supports a batch size of 1.".

Section Pipeline.
Variables image output : Type.
Variable image_size : image -> nat * nat.
(** [prepareImages], the processor, then the model. *)
Variable run : list image -> output.
Variable post_process_object_detection :
  output -> Q -> option (list (nat * nat)) -> list detection.
Variable id2label : nat -> option string.

Definition add_labels (x : detection) : labelled :=
  {| detected := x; labels := map id2label (classes x) |}.

Definition _call (images : js_arg image) (threshold : Q) (percentage : bool)
  : completion (jsval labelled) :=
  let isBatched := isArray images in
  if isBatched && negb (List.length (to_list images) =? 1)
  then ThrowError batch_error
  else
    let images := to_list images in
    let imageSizes := if percentage then None else Some (map image_size images) in
    let output := run images in
    let processed :=
      map add_labels (post_process_object_detection output threshold imageSizes) in
    Return (if isBatched then JArr (map JObj processed)
            else first (map JObj processed)).
End Pipeline.

End ObjectDetectionPipeline.

(** ** Sample data and the statements under test *)
Module Spec.
Import Js.

(** The softmax of a vector whose logits are all equal is the uniform
    distribution; [uniform] is that distribution, and stands in for
    [softmax] on such vectors in the worked examples. *)
Definition uniform (logits : list Q) : list Q :=
  map (fun _ => 1 / inject_Z (Z.of_nat (List.length logits))) logits.

(** Descending order of a key. *)
Definition desc {A} (key : A -> Q) (a b : A) : Prop := key b <= key a.

(** An (index, score) pair ranks before another in a top-k selection: it
    has the higher score, or the same score at an earlier index. *)
Definition ranks_before (a b : nat * Q) : Prop :=
  snd b < snd a \/ (snd b == snd a /\ (fst a < fst b)%nat).

(** The result for one item is "scalar-shaped": one object when [topk] is 1
    (each item then has one best pair), the item's own list of objects
    otherwise. *)
Definition item_shaped {A} (topk : nat) (v : jsval A) : Prop :=
  if topk =? 1 then exists o, v = JObj o
  else exists os, v = JArr (map JObj os).

(** Input cardinality is preserved by a result: an array of as many entries
    for an array input, a scalar-shaped result for a scalar input. *)
Definition cardinality_preserved {X A} (topk : nat) (input : js_arg X)
    (out : jsval A) : Prop :=
  match input with
  | Many xs => exists l, out = JArr l /\ List.length l = List.length xs
  | Single _ => item_shaped topk out
  end.


(** Mean pooling as the specification words it.  [activation h i j k] is
    entry [[i, j, k]] of the row-major tensor, [mask_at m S i j] entry
    [[i, j]] of the mask; a position is unmasked when its mask entry is 1. *)
Definition activation (h : FeatureExtractionPipeline.Tensor) (i j k : nat) : Q :=
  let '(_, seqLength, embedDim) := FeatureExtractionPipeline.dims h in
  nth ((i * seqLength + j) * embedDim + k) (FeatureExtractionPipeline.data h) 0.

Definition mask_at (m : list Z) (seqLength i j : nat) : Z :=
  nth (i * seqLength + j) m 0%Z.

Definition unmasked (m : list Z) (seqLength i : nat) : list nat :=
  filter (fun j => (mask_at m seqLength i j =? 1)%Z) (seq 0 seqLength).

(** Sum of the activations at the unmasked positions. *)
Definition masked_sum (h : FeatureExtractionPipeline.Tensor) (m : list Z)
    (i k : nat) : Q :=
  let '(_, seqLength, _) := FeatureExtractionPipeline.dims h in
  Maths.total (map (fun j => activation h i j k) (unmasked m seqLength i)).

(** Number of unmasked positions. *)
Definition masked_count (h : FeatureExtractionPipeline.Tensor) (m : list Z)
    (i : nat) : Q :=
  let '(_, seqLength, _) := FeatureExtractionPipeline.dims h in
  inject_Z (Z.of_nat (List.length (unmasked m seqLength i))).

(** The tensor and its mask have the sizes their dimensions announce, and
    the mask holds only 0 and 1. *)
Definition well_formed (h : FeatureExtractionPipeline.Tensor) (m : list Z) : Prop :=
  let '(batchSize, seqLength, embedDim) := FeatureExtractionPipeline.dims h in
  List.length (FeatureExtractionPipeline.data h)
  = (batchSize * seqLength * embedDim)%nat
  /\ List.length m = (batchSize * seqLength)%nat
  /\ Forall (fun z => z = 0%Z \/ z = 1%Z) m.

(** The task name after alias resolution: the alias map's own entry for
    the name, the name itself without one. *)
Definition resolved (task : string) : string :=
  match own Factory.TASK_ALIASES task with Some t => t | None => task end.

(** The first [n] window starts of the chunking loop from [o]:
    [o], [o + jump], [o + jump + jump], ... *)
Fixpoint offsets_from (o jump : Q) (n : nat) : list Q :=
  match n with
  | O => []
  | S n' => o :: offsets_from (o + jump) jump n'
  end.

(** Chunking produces a list of chunks for the item: the loop returns with
    some amount of fuel. *)
Definition chunking_returns {sample features : Type} (sampling_rate : Q)
    (processor : list sample -> features) (aud : list sample)
    (chunk_len : Q) (stride_len : option Q) : Prop :=
  exists fuel r,
    AutomaticSpeechRecognitionPipeline.item_chunks sampling_rate processor
      fuel aud chunk_len stride_len = Js.Return r.

(** Sum of the squares of a vector: its squared Euclidean norm. *)
Definition sum_squares (l : list Q) : Q :=
  Maths.total (map (fun q => q * q) l).

End Spec.

(* ================================================================== *)
(** * Part II: properties *)
(* ================================================================== *)

(** ** The stable sort *)
Section SortFacts.
Context {A : Type}.
Variable cmp : A -> A -> Q.

Lemma insert_by_perm (x : A) (l : list A) :
  Permutation (Js.insert_by cmp x l) (x :: l).
Proof.
  induction l as [|y ys IH]; simpl.
  - reflexivity.
  - destruct (Qle_bool (cmp x y) 0).
    + reflexivity.
    + rewrite IH. apply perm_swap.
Qed.

Lemma sort_perm (l : list A) : Permutation (Js.sort cmp l) l.
Proof.
  induction l as [|x xs IH]; simpl.
  - constructor.
  - rewrite insert_by_perm. now constructor.
Qed.

Lemma sort_length (l : list A) : List.length (Js.sort cmp l) = List.length l.
Proof. apply Permutation_length, sort_perm. Qed.

Lemma sort_In (l : list A) (x : A) : In x (Js.sort cmp l) <-> In x l.
Proof.
  split; apply Permutation_in; [apply sort_perm | symmetry; apply sort_perm].
Qed.
End SortFacts.

Section SortDescending.
Context {A : Type}.
Variable key : A -> Q.


Lemma insert_desc_sorted (x : A) (l : list A) :
  StronglySorted (Spec.desc key) l ->
  StronglySorted (Spec.desc key) (Js.insert_by (fun a b => key b - key a) x l).
Proof.
  induction 1 as [|y ys Hs IH Hy]; simpl.
  - repeat constructor.
  - destruct (Qle_bool (key y - key x) 0) eqn:E.
    + apply Qle_bool_iff in E.
      constructor; [now constructor|].
      constructor; [unfold Spec.desc; lra|].
      eapply Forall_impl; [|exact Hy].
      unfold Spec.desc. intros z Hz. lra.
    + assert (Hlt : key x < key y).
      { destruct (Qlt_le_dec (key x) (key y)) as [Hl|Hl]; [exact Hl|].
        assert (Qle_bool (key y - key x) 0 = true) as E'
            by (apply Qle_bool_iff; lra).
        congruence. }
      constructor; [exact IH|].
      eapply Permutation_Forall;
        [symmetry; apply insert_by_perm|].
      constructor; [unfold Spec.desc; lra | exact Hy].
Qed.

Lemma sort_desc_sorted (l : list A) :
  StronglySorted (Spec.desc key) (Js.sort (fun a b => key b - key a) l).
Proof.
  induction l as [|x xs IH]; simpl.
  - constructor.
  - now apply insert_desc_sorted.
Qed.
End SortDescending.

Lemma In_firstn {A} (n : nat) (l : list A) (x : A) :
  In x (firstn n l) -> In x l.
Proof.
  intros H. rewrite <- (firstn_skipn n l). apply in_or_app. now left.
Qed.

Lemma StronglySorted_firstn {A} (R : A -> A -> Prop) (n : nat) (l : list A) :
  StronglySorted R l -> StronglySorted R (firstn n l).
Proof.
  intros H. revert n.
  induction H as [|x xs Hs IH Hx]; intros [|n]; simpl; try constructor.
  - apply IH.
  - apply Forall_forall. intros y Hy.
    apply (proj1 (Forall_forall _ _) Hx), (In_firstn n), Hy.
Qed.

Lemma StronglySorted_map {A B} (f : A -> B) (R : B -> B -> Prop) (l : list A) :
  StronglySorted (fun a b => R (f a) (f b)) l -> StronglySorted R (map f l).
Proof.
  induction 1 as [|x xs Hs IH Hx]; simpl; constructor; auto.
  apply Forall_map. exact Hx.
Qed.

Lemma total_perm (l l' : list Q) :
  Permutation l l' -> Maths.total l == Maths.total l'.
Proof.
  unfold Maths.total.
  induction 1; simpl; try lra.
Qed.

Lemma In_combine_seq {A} (l : list A) (s i : nat) (x : A) :
  In (i, x) (combine (seq s (List.length l)) l) ->
  (s <= i)%nat /\ nth_error l (i - s) = Some x.
Proof.
  revert s. induction l as [|y ys IH]; simpl; intros s H; [contradiction|].
  destruct H as [H|H].
  - inversion H; subst. rewrite Nat.sub_diag. auto.
  - apply IH in H. destruct H as [Hle Hn]. split; [lia|].
    replace (i - s)%nat with (S (i - S s)) by lia. exact Hn.
Qed.

Lemma map_fst_combine_seq {A} (l : list A) (s : nat) :
  map fst (combine (seq s (List.length l)) l) = seq s (List.length l).
Proof.
  revert s. induction l as [|y ys IH]; simpl; intros s; [reflexivity|].
  now rewrite IH.
Qed.

Lemma map_snd_combine_seq {A} (l : list A) (s : nat) :
  map snd (combine (seq s (List.length l)) l) = l.
Proof.
  revert s. induction l as [|y ys IH]; simpl; intros s; [reflexivity|].
  now rewrite IH.
Qed.

(** The sort is stable: on pairs (index, score) listed by increasing index
    it orders by descending score and, among equal scores, by increasing
    index. *)
Section SortStable.
Import Spec.

Lemma insert_stable (x : nat * Q) (l : list (nat * Q)) :
  StronglySorted ranks_before l ->
  Forall (fun y => (fst x < fst y)%nat) l ->
  StronglySorted ranks_before (Js.insert_by (fun a b => snd b - snd a) x l).
Proof.
  induction 1 as [|y ys Hs IH Hy]; intros Hx; simpl.
  - repeat constructor.
  - inversion Hx as [|y' ys' Hxy Hxys]; subst.
    destruct (Qle_bool (snd y - snd x) 0) eqn:E.
    + apply Qle_bool_iff in E.
      assert (Rxy : ranks_before x y).
      { unfold ranks_before. destruct (Qlt_le_dec (snd y) (snd x)) as [Hl|Hl];
          [now left | right; split; [lra | exact Hxy]]. }
      constructor; [now constructor|].
      constructor; [exact Rxy|].
      apply Forall_forall. intros z Hz.
      pose proof (proj1 (Forall_forall _ _) Hy z Hz) as Ryz.
      pose proof (proj1 (Forall_forall _ _) Hxys z Hz) as Hxz.
      unfold ranks_before in *.
      destruct (Qlt_le_dec (snd z) (snd x)) as [Hl|Hl]; [now left|].
      right. split; [|exact Hxz].
      destruct Ryz as [Hlt|[Heq _]]; lra.
    + assert (Hlt : snd x < snd y).
      { destruct (Qlt_le_dec (snd x) (snd y)) as [Hl|Hl]; [exact Hl|].
        assert (Qle_bool (snd y - snd x) 0 = true) as E'
            by (apply Qle_bool_iff; lra).
        congruence. }
      constructor; [now apply IH|].
      eapply Permutation_Forall; [symmetry; apply insert_by_perm|].
      constructor; [now left | exact Hy].
Qed.

Lemma sort_stable (l : list (nat * Q)) :
  StronglySorted (fun a b => (fst a < fst b)%nat) l ->
  StronglySorted ranks_before (Js.sort (fun a b => snd b - snd a) l).
Proof.
  induction 1 as [|x xs Hs IH Hx]; simpl.
  - constructor.
  - apply insert_stable; [exact IH|].
    eapply Permutation_Forall; [symmetry; apply sort_perm | exact Hx].
Qed.
End SortStable.

Lemma combine_seq_increasing {A} (l : list A) (s : nat) :
  StronglySorted (fun a b : nat * A => (fst a < fst b)%nat)
    (combine (seq s (List.length l)) l).
Proof.
  revert s. induction l as [|y ys IH]; intros s; simpl; constructor.
  - apply IH.
  - apply Forall_forall. intros [i x] Hin. apply In_combine_seq in Hin.
    simpl. lia.
Qed.

Lemma combine_seq_In {A} (l : list A) (s j : nat) (d : A) :
  (j < List.length l)%nat ->
  In ((s + j)%nat, nth j l d) (combine (seq s (List.length l)) l).
Proof.
  revert s j. induction l as [|y ys IH]; intros s j Hj; simpl in *; [lia|].
  destruct j as [|j].
  - left. now rewrite Nat.add_0_r.
  - right. replace (s + S j)%nat with (S s + j)%nat by lia.
    apply IH. lia.
Qed.

Lemma StronglySorted_app_cross {A} (R : A -> A -> Prop) (l1 l2 : list A) :
  StronglySorted R (l1 ++ l2) ->
  forall a b, In a l1 -> In b l2 -> R a b.
Proof.
  induction l1 as [|x xs IH]; simpl; intros Hs a b Ha Hb; [contradiction|].
  inversion Hs as [|x' l' Hs' Hx]; subst.
  destruct Ha as [<-|Ha].
  - apply (proj1 (Forall_forall _ _) Hx). apply in_or_app. now right.
  - now apply IH.
Qed.

Lemma NoDup_firstn {A} (n : nat) (l : list A) : NoDup l -> NoDup (firstn n l).
Proof.
  intros H. revert n. induction H as [|x xs Hx Hnd IH]; intros [|n]; simpl;
    try constructor.
  - intros Hin. apply Hx. now apply In_firstn in Hin.
  - apply IH.
Qed.

(** ** Top-k selection and the classification decoders *)
Section TopItems.
Variable items : list Q.
Variable k : nat.

Lemma getTopItems_length :
  List.length (Maths.getTopItems items k) = Nat.min k (List.length items).
Proof.
  unfold Maths.getTopItems.
  rewrite length_firstn, sort_length, length_combine, length_seq.
  now rewrite Nat.min_id.
Qed.

Lemma getTopItems_sorted :
  StronglySorted (Spec.desc snd) (Maths.getTopItems items k).
Proof.
  unfold Maths.getTopItems.
  apply StronglySorted_firstn, (sort_desc_sorted (@snd nat Q)).
Qed.

Lemma getTopItems_In (i : nat) (q : Q) :
  In (i, q) (Maths.getTopItems items k) -> nth_error items i = Some q.
Proof.
  unfold Maths.getTopItems. intros H.
  apply In_firstn, sort_In, In_combine_seq in H.
  destruct H as [_ H]. now rewrite Nat.sub_0_r in H.
Qed.

Lemma getTopItems_ranked :
  StronglySorted Spec.ranks_before (Maths.getTopItems items k).
Proof.
  unfold Maths.getTopItems.
  apply StronglySorted_firstn, sort_stable, combine_seq_increasing.
Qed.

Lemma getTopItems_NoDup : NoDup (map fst (Maths.getTopItems items k)).
Proof.
  unfold Maths.getTopItems. rewrite <- firstn_map. apply NoDup_firstn.
  eapply Permutation_NoDup.
  - symmetry. apply Permutation_map, sort_perm.
  - rewrite map_fst_combine_seq. apply seq_NoDup.
Qed.

Lemma getTopItems_score (x : nat * Q) :
  In x (Maths.getTopItems items k) ->
  (fst x < List.length items)%nat /\ snd x = nth (fst x) items 0.
Proof.
  destruct x as [i q]. intros H. apply getTopItems_In in H. simpl. split.
  - apply nth_error_Some. congruence.
  - symmetry. now apply nth_error_nth.
Qed.

Lemma getTopItems_outside (j : nat) (x : nat * Q) :
  (j < List.length items)%nat ->
  ~ In j (map fst (Maths.getTopItems items k)) ->
  In x (Maths.getTopItems items k) ->
  Spec.ranks_before x (j, nth j items 0).
Proof.
  unfold Maths.getTopItems. intros Hj Hout Hx.
  set (sorted := Js.sort (fun a b : nat * Q => snd b - snd a)
                   (combine (seq 0 (List.length items)) items)) in *.
  assert (Hs : StronglySorted Spec.ranks_before
                 (firstn k sorted ++ skipn k sorted)).
  { rewrite firstn_skipn. apply sort_stable, combine_seq_increasing. }
  apply (@StronglySorted_app_cross _ _ _ _ Hs); [exact Hx|].
  assert (Hin : In (j, nth j items 0) sorted).
  { apply sort_In. apply (@combine_seq_In _ items 0 j 0 Hj). }
  rewrite <- (firstn_skipn k sorted) in Hin.
  apply in_app_or in Hin. destruct Hin as [Hin|Hin]; [|exact Hin].
  exfalso. apply Hout. apply in_map_iff. now exists (j, nth j items 0).
Qed.

Lemma getTopItems_all :
  (List.length items <= k)%nat ->
  Permutation (map snd (Maths.getTopItems items k)) items.
Proof.
  intros Hk. unfold Maths.getTopItems.
  rewrite firstn_all2.
  - rewrite (Permutation_map snd (sort_perm _ _)).
    now rewrite map_snd_combine_seq.
  - now rewrite sort_length, length_combine, length_seq, Nat.min_id.
Qed.
End TopItems.

Lemma fold_left_push {A B} (f : B -> list A) (l : list B) (init : list A) :
  fold_left (fun acc b => acc ++ f b) l init = init ++ flat_map f l.
Proof.
  revert init. induction l as [|b bs IH]; simpl; intros init.
  - now rewrite app_nil_r.
  - now rewrite IH, app_assoc.
Qed.

Section ClassificationFacts.
Import Js Classification.
Variable softmax : list Q -> list Q.
Variable id2label : nat -> option string.

Lemma vals_length (topk : nat) (batch : list Q) :
  List.length (vals softmax id2label topk batch)
  = Nat.min topk (List.length (softmax batch)).
Proof. unfold vals. now rewrite length_map, getTopItems_length. Qed.

Lemma decode_flat (logits : list (list Q)) :
  decode softmax id2label 1 logits
  = flat_map (fun b => map JObj (vals softmax id2label 1 b)) logits.
Proof.
  unfold decode, push_item. simpl.
  now rewrite (fold_left_push (fun b => map JObj (vals softmax id2label 1 b))).
Qed.

Lemma decode_nested (topk : nat) (logits : list (list Q)) :
  topk <> 1%nat ->
  decode softmax id2label topk logits
  = map (fun b => JArr (map JObj (vals softmax id2label topk b))) logits.
Proof.
  intros H. unfold decode, push_item.
  apply Nat.eqb_neq in H. rewrite H.
  rewrite (fold_left_push
             (fun b => [JArr (map JObj (vals softmax id2label topk b))])).
  simpl. induction logits as [|b bs IH]; simpl; [reflexivity|].
  now rewrite IH.
Qed.


End ClassificationFacts.




(** C3, as stated, fails: with two labels and [topk = 3] the decoder
    returns two pairs, not three. *)
Lemma classification_fewer_than_topk :
  List.length (Classification.vals Spec.uniform
                 (fun i => nth_error ["NEGATIVE"; "POSITIVE"]%string i)
                 3 [0; 0]) = 2%nat
  /\ List.length (Classification.vals Spec.uniform
                    (fun i => nth_error ["NEGATIVE"; "POSITIVE"]%string i)
                    3 [0; 0]) <> 3%nat.
Proof. split; [reflexivity | discriminate]. Qed.

(** C3 (amended): for [topk >= 1] the decoder of one classification item
    returns the [min topk n] best of the [n] softmax scores of the item's
    logits (exactly [topk] only when there are at least [topk] labels), in
    descending score order, each paired with the label [id2label] has for
    its index.  They are the highest-scoring ones: the pairs returned are
    those of a duplicate-free list of indices, every index left out scores
    no more than any index taken, and of two indices with equal scores the
    earlier one comes first (and is the one taken).  When [topk] covers
    all labels and the softmax scores sum to 1 so do the returned ones;
    with [topk = 1] the items' pairs are spliced into one flat list,
    otherwise each item contributes one nested list. *)
Theorem classification_item_topk
    (softmax : list Q -> list Q) (id2label : nat -> option string)
    (topk : nat) (batch : list Q) (logits : list (list Q)) :
  (1 <= topk)%nat ->
  List.length (Classification.vals softmax id2label topk batch)
    = Nat.min topk (List.length (softmax batch))
  /\ StronglySorted (Spec.desc Classification.score)
       (Classification.vals softmax id2label topk batch)
  /\ (forall p, In p (Classification.vals softmax id2label topk batch) ->
        exists i, nth_error (softmax batch) i = Some (Classification.score p)
                  /\ Classification.label p = id2label i)
  /\ (exists idxs : list nat,
        NoDup idxs
        /\ Classification.vals softmax id2label topk batch
           = map (fun i => {| Classification.label := id2label i;
                              Classification.score := nth i (softmax batch) 0 |})
               idxs
        /\ (forall i, In i idxs -> (i < List.length (softmax batch))%nat)
        /\ (forall i j,
              In i idxs -> (j < List.length (softmax batch))%nat ->
              ~ In j idxs ->
              Spec.ranks_before (i, nth i (softmax batch) 0)
                (j, nth j (softmax batch) 0))
        /\ StronglySorted
             (fun i j => Spec.ranks_before (i, nth i (softmax batch) 0)
                           (j, nth j (softmax batch) 0))
             idxs)
  /\ ((List.length (softmax batch) <= topk)%nat ->
      Maths.total (softmax batch) == 1 ->
      Maths.total (map Classification.score
                     (Classification.vals softmax id2label topk batch)) == 1)
  /\ (topk = 1%nat ->
      Classification.decode softmax id2label topk logits
      = flat_map (fun b => map Js.JObj
                             (Classification.vals softmax id2label 1 b)) logits)
  /\ (topk <> 1%nat ->
      Classification.decode softmax id2label topk logits
      = map (fun b => Js.JArr (map Js.JObj
                                 (Classification.vals softmax id2label topk b)))
          logits).
Proof.
  intros _.
  split; [apply vals_length|].
  split.
  { unfold Classification.vals. apply StronglySorted_map.
    apply (getTopItems_sorted (softmax batch) topk). }
  split.
  { unfold Classification.vals. intros p Hp.
    apply in_map_iff in Hp. destruct Hp as [[i q] [<- Hin]].
    exists i. simpl. split; [|reflexivity].
    now apply getTopItems_In in Hin. }
  split.
  { exists (map fst (Maths.getTopItems (softmax batch) topk)).
    split; [apply getTopItems_NoDup|].
    split.
    { unfold Classification.vals. rewrite map_map. apply map_ext_in.
      intros x Hx. apply getTopItems_score in Hx. destruct Hx as [_ Hx].
      now rewrite <- Hx. }
    split.
    { intros i Hi. apply in_map_iff in Hi. destruct Hi as (x & <- & Hx).
      now apply getTopItems_score in Hx. }
    split.
    { intros i j Hi Hj Hout. apply in_map_iff in Hi.
      destruct Hi as (x & <- & Hx).
      pose proof (@getTopItems_outside _ _ _ _ Hj Hout Hx) as R.
      apply getTopItems_score in Hx. destruct Hx as [_ Hx].
      rewrite <- Hx. now destruct x. }
    apply StronglySorted_map.
    pose proof (getTopItems_ranked (softmax batch) topk) as R.
    assert (Hall : Forall (fun x => snd x = nth (fst x) (softmax batch) 0)
                     (Maths.getTopItems (softmax batch) topk)).
    { apply Forall_forall. intros x Hx. now apply getTopItems_score in Hx. }
    induction R as [|x xs Hs IH Hx]; constructor.
    - apply IH. now inversion Hall.
    - inversion Hall as [|x' xs' Hxq Hxs]; subst.
      rewrite Forall_forall in Hx, Hxs |- *. intros y Hy.
      rewrite <- Hxq, <- (Hxs y Hy).
      specialize (Hx y Hy). now destruct x, y. }
  split.
  { intros Hall Hsum. unfold Classification.vals.
    rewrite map_map. simpl. rewrite <- Hsum.
    apply total_perm, getTopItems_all, Hall. }
  split.
  - intros ->. apply decode_flat.
  - intros Hk. now apply decode_nested.
Qed.

Lemma classification_item_topk_witness :
  (1 <= 2)%nat
  /\ List.length (Classification.vals Spec.uniform (fun _ => None) 2 [0; 0; 0])
     = Nat.min 2 (List.length (Spec.uniform [0; 0; 0])).
Proof.
  split; [lia|].
  apply (classification_item_topk Spec.uniform (fun _ => None)
           (topk := 2) [0; 0; 0] []). lia.
Defined.

(** ** Question answering *)
Lemma In_combine_seq_r {A} (l : list A) (s i : nat) (x : A) :
  In (x, i) (combine l (seq s (List.length l))) ->
  (s <= i)%nat /\ nth_error l (i - s) = Some x.
Proof.
  revert s. induction l as [|y ys IH]; simpl; intros s H; [contradiction|].
  destruct H as [H|H].
  - inversion H; subst. rewrite Nat.sub_diag. auto.
  - apply IH in H. destruct H as [Hle Hn]. split; [lia|].
    replace (i - s)%nat with (S (i - S s)) by lia. exact Hn.
Qed.

Lemma In_with_index {A} (l : list A) (x : A) (i : nat) :
  In (x, i) (Js.with_index l) -> nth_error l i = Some x.
Proof.
  unfold Js.with_index. intros H.
  apply In_combine_seq_r in H. destruct H as [_ H].
  now rewrite Nat.sub_0_r in H.
Qed.

Lemma in_product {A B} (a : list A) (b : list B) (x : A) (y : B) :
  In (x, y) (QuestionAnsweringPipeline.product a b) <-> In x a /\ In y b.
Proof.
  unfold QuestionAnsweringPipeline.product. rewrite in_flat_map. split.
  - intros [d [Hd H]]. apply in_map_iff in H.
    destruct H as [e [Heq He]]. inversion Heq; subst. auto.
  - intros [Hx Hy]. exists x. split; [exact Hx|].
    apply in_map_iff. now exists y.
Qed.

Section QuestionAnsweringFacts.
Import Js QuestionAnsweringPipeline.
Variable softmax : list Q -> list Q.
Variable decode : list Z -> bool -> string.
Variable sep_token_id : Z.
Variable run : js_arg string -> js_arg string -> list item.

Lemma In_candidates (logits : list Q) (sepIndex : Z) (p : Q) (i : nat) :
  In (p, i) (candidates softmax logits sepIndex) ->
  (sepIndex < Z.of_nat i)%Z /\ nth_error (softmax logits) i = Some p.
Proof.
  unfold candidates. intros H. apply filter_In in H.
  destruct H as [Hin Hf]. simpl in Hf. apply Z.ltb_lt in Hf.
  split; [exact Hf | now apply In_with_index].
Qed.

Lemma In_options (it : item) (s : span) :
  In s (options softmax sep_token_id it) ->
  (span_start s <= span_end s)%nat
  /\ (indexOf (input_ids it) sep_token_id < Z.of_nat (span_start s))%Z
  /\ (indexOf (input_ids it) sep_token_id < Z.of_nat (span_end s))%Z
  /\ exists ps pe,
       nth_error (softmax (start_logits it)) (span_start s) = Some ps
       /\ nth_error (softmax (end_logits it)) (span_end s) = Some pe
       /\ span_score s = ps * pe.
Proof.
  unfold options. intros H. apply sort_In, in_map_iff in H.
  destruct H as [[[ps i] [pe j]] [<- H]].
  apply filter_In in H. destruct H as [Hin Hle]. simpl in Hle.
  apply Nat.leb_le in Hle. apply in_product in Hin.
  destruct Hin as [Hs He].
  apply In_candidates in Hs. apply In_candidates in He.
  destruct Hs as [Hs1 Hs2]. destruct He as [He1 He2].
  unfold span_start, span_end, span_score. simpl.
  repeat split; try assumption. now exists ps, pe.
Qed.

Lemma options_sorted (it : item) :
  StronglySorted (Spec.desc span_score) (options softmax sep_token_id it).
Proof. unfold options. apply (sort_desc_sorted span_score). Qed.

Lemma first_of_objects {A} (l : list A) :
  first (map JObj l) = match l with [] => JUndefined | o :: _ => JObj o end.
Proof. now destruct l. Qed.

Lemma flat_map_objects {A B} (f : B -> list A) (l : list B) :
  flat_map (fun b => map JObj (f b)) l = map JObj (flat_map f l).
Proof.
  induction l as [|b bs IH]; simpl; [reflexivity|].
  now rewrite IH, map_app.
Qed.
End QuestionAnsweringFacts.

(** C2: in a question-answering call every span kept for an item lies
    strictly after the first separator token with [start <= end], is scored
    by the product of the start and end probabilities of two separate
    softmaxes, at most [topk] spans are kept per item, in descending score
    order, each answer is the decoding of the tokens [start .. end] with
    special tokens skipped, and with [topk = 1] the call resolves to the
    first answer object itself (never to an array), otherwise to the array
    of all answers. *)
Theorem question_answering_spans
    (softmax : list Q -> list Q) (decode : list Z -> bool -> string)
    (sep_token_id : Z)
    (run : Js.js_arg string -> Js.js_arg string
           -> list QuestionAnsweringPipeline.item)
    (question context : Js.js_arg string) (topk : nat) :
  (forall it,
      (List.length (QuestionAnsweringPipeline.spans softmax sep_token_id topk it)
       <= topk)%nat
      /\ StronglySorted (Spec.desc QuestionAnsweringPipeline.span_score)
           (QuestionAnsweringPipeline.spans softmax sep_token_id topk it)
      /\ (forall s,
            In s (QuestionAnsweringPipeline.spans softmax sep_token_id topk it) ->
            (QuestionAnsweringPipeline.span_start s
             <= QuestionAnsweringPipeline.span_end s)%nat
            /\ (QuestionAnsweringPipeline.indexOf
                  (QuestionAnsweringPipeline.input_ids it) sep_token_id
                < Z.of_nat (QuestionAnsweringPipeline.span_start s))%Z
            /\ (QuestionAnsweringPipeline.indexOf
                  (QuestionAnsweringPipeline.input_ids it) sep_token_id
                < Z.of_nat (QuestionAnsweringPipeline.span_end s))%Z
            /\ exists ps pe,
                 nth_error (softmax (QuestionAnsweringPipeline.start_logits it))
                   (QuestionAnsweringPipeline.span_start s) = Some ps
                 /\ nth_error (softmax (QuestionAnsweringPipeline.end_logits it))
                      (QuestionAnsweringPipeline.span_end s) = Some pe
                 /\ QuestionAnsweringPipeline.span_score s = ps * pe)
      /\ QuestionAnsweringPipeline.item_answers softmax decode sep_token_id
           topk it
         = map (fun s =>
                  {| QuestionAnsweringPipeline.answer :=
                       decode
                         (Js.slice (QuestionAnsweringPipeline.input_ids it)
                            (QuestionAnsweringPipeline.span_start s)
                            (QuestionAnsweringPipeline.span_end s + 1))
                         true;
                     QuestionAnsweringPipeline.score :=
                       QuestionAnsweringPipeline.span_score s |})
             (QuestionAnsweringPipeline.spans softmax sep_token_id topk it))
  /\ (topk <> 1%nat ->
      QuestionAnsweringPipeline._call softmax decode sep_token_id run
        question context topk
      = Js.JArr
          (map Js.JObj
             (flat_map
                (QuestionAnsweringPipeline.item_answers softmax decode
                   sep_token_id topk)
                (run question context))))
  /\ (topk = 1%nat ->
      QuestionAnsweringPipeline._call softmax decode sep_token_id run
        question context topk
      = match flat_map
                (QuestionAnsweringPipeline.item_answers softmax decode
                   sep_token_id 1)
                (run question context)
        with
        | [] => Js.JUndefined
        | o :: _ => Js.JObj o
        end).
Proof.
  repeat split.
  - unfold QuestionAnsweringPipeline.spans. rewrite length_firstn. lia.
  - apply StronglySorted_firstn, options_sorted.
  - apply In_firstn, In_options in H. tauto.
  - apply In_firstn, In_options in H. tauto.
  - apply In_firstn, In_options in H. tauto.
  - apply In_firstn, In_options in H. tauto.
  - intros Hk. unfold QuestionAnsweringPipeline._call.
    apply Nat.eqb_neq in Hk. rewrite Hk. now rewrite flat_map_objects.
  - intros ->. unfold QuestionAnsweringPipeline._call. simpl.
    now rewrite flat_map_objects, first_of_objects.
Qed.

Lemma question_answering_spans_witness :
  QuestionAnsweringPipeline._call Spec.uniform
    (fun _ _ => "Paris"%string) 102%Z
    (fun _ _ =>
       [ {| QuestionAnsweringPipeline.input_ids := [101; 7; 102; 8; 9; 102]%Z;
            QuestionAnsweringPipeline.start_logits := [0; 0; 0; 0; 0; 0];
            QuestionAnsweringPipeline.end_logits := [0; 0; 0; 0; 0; 0] |} ])
    (Js.Single "What is the capital?"%string)
    (Js.Single "Paris is the capital of France."%string) 1
  = Js.JObj {| QuestionAnsweringPipeline.answer := "Paris"%string;
               QuestionAnsweringPipeline.score := 1 / 36 |}.
Proof.
  destruct (question_answering_spans Spec.uniform
              (fun _ _ => "Paris"%string) 102%Z
              (fun _ _ =>
                 [ {| QuestionAnsweringPipeline.input_ids :=
                        [101; 7; 102; 8; 9; 102]%Z;
                      QuestionAnsweringPipeline.start_logits :=
                        [0; 0; 0; 0; 0; 0];
                      QuestionAnsweringPipeline.end_logits :=
                        [0; 0; 0; 0; 0; 0] |} ])
              (Js.Single "What is the capital?"%string)
              (Js.Single "Paris is the capital of France."%string) 1)
    as (_ & _ & H).
  rewrite (H eq_refl). reflexivity.
Defined.

(** ** Zero-shot classification *)
Lemma combine_maps {A B C} (f : A -> B) (g : A -> C) (l : list A) :
  combine (map f l) (map g l) = map (fun x => (f x, g x)) l.
Proof. induction l as [|x xs IH]; simpl; [reflexivity | now rewrite IH]. Qed.

Lemma map_fst_with_index {A} (l : list A) : map fst (Js.with_index l) = l.
Proof.
  unfold Js.with_index. generalize 0%nat.
  induction l as [|x xs IH]; simpl; intros s; [reflexivity|].
  now rewrite IH.
Qed.

Lemma labels_of_indices {A} (labels pre : list A) (l : list Q) :
  List.length l = List.length labels ->
  map (fun x => (fst x, nth_error (pre ++ labels) (snd x)))
    (combine l (seq (List.length pre) (List.length l)))
  = combine l (map Some labels).
Proof.
  revert labels pre. induction l as [|q qs IH]; intros [|a labels] pre Hlen;
    simpl in *; try discriminate; [reflexivity|].
  rewrite nth_error_app2, Nat.sub_diag by lia. simpl. f_equal.
  specialize (IH labels (pre ++ [a])).
  rewrite <- app_assoc, length_app in IH. simpl in IH.
  rewrite Nat.add_1_r in IH. apply IH. lia.
Qed.

Section ZeroShotFacts.
Import Js ZeroShotClassificationPipeline.
Variable softmax : list Q -> list Q.
Variable logit : string -> string -> Z -> Q.
Variable self : t.

Lemma classify_sorted (each : bool) (candidate_labels hypotheses : list string)
    (premise : string) :
  StronglySorted (fun a b => b <= a)
    (scores (classify softmax logit self each candidate_labels hypotheses premise)).
Proof.
  unfold classify. simpl. apply StronglySorted_map.
  apply (sort_desc_sorted (@fst Q nat)).
Qed.

Lemma classify_scores_perm (each : bool) (candidate_labels hypotheses : list string)
    (premise : string) :
  Permutation
    (scores (classify softmax logit self each candidate_labels hypotheses premise))
    (scores_of softmax logit self each premise hypotheses).
Proof.
  unfold classify. simpl.
  rewrite (Permutation_map fst (sort_perm _ _)).
  now rewrite map_fst_with_index.
Qed.

Lemma classify_pairs_perm (each : bool) (candidate_labels hypotheses : list string)
    (premise : string) :
  List.length (scores_of softmax logit self each premise hypotheses)
  = List.length candidate_labels ->
  Permutation
    (combine
       (scores (classify softmax logit self each candidate_labels hypotheses premise))
       (labels (classify softmax logit self each candidate_labels hypotheses premise)))
    (combine (scores_of softmax logit self each premise hypotheses)
       (map Some candidate_labels)).
Proof.
  intros Hlen. unfold classify. simpl.
  rewrite combine_maps.
  rewrite (Permutation_map _ (sort_perm _ _)).
  unfold with_index.
  pose proof (labels_of_indices candidate_labels [] _ Hlen) as L.
  simpl in L. now rewrite L.
Qed.
End ZeroShotFacts.

Lemma own_lowercase_missing (config : list (string * Z)) (name : string) :
  (forall k v, In (k, v) config ->
               ZeroShotClassificationPipeline.toLowerCase k <> name) ->
  Js.own (map (fun kv => (ZeroShotClassificationPipeline.toLowerCase (fst kv),
                          snd kv)) config) name = None.
Proof.
  induction config as [|[k v] rest IH]; simpl; intros H; [reflexivity|].
  rewrite IH by (intros k' v' Hin; apply (H k' v'); now right).
  destruct (String.eqb_spec (ZeroShotClassificationPipeline.toLowerCase k) name)
    as [E|E]; [|reflexivity].
  exfalso. apply (H k v); [now left | exact E].
Qed.

(** C5: in a zero-shot call, with [multi_label] or exactly one candidate
    label each label is scored by the second component of the softmax of
    its own (contradiction, entailment) logit pair; otherwise the scores are
    one softmax over the entailment logits of all labels (and sum to 1 when
    that softmax does); scores are returned in descending order, each still
    paired with its candidate label; and a [label2id] without an
    'entailment' (resp. 'contradiction') key makes the constructor use id 2
    (resp. 0) and log a warning, without failing. *)
Theorem zero_shot_scoring
    (softmax : list Q -> list Q) (logit : string -> string -> Z -> Q)
    (self : ZeroShotClassificationPipeline.t) (config : list (string * Z))
    (texts candidate_labels : Js.js_arg string) (template : string)
    (multi_label : bool) (premise : string) :
  let cl := Js.to_list candidate_labels in
  let hyp := ZeroShotClassificationPipeline.replace_braces template in
  let each := multi_label || (List.length cl =? 1) in
  let p := ZeroShotClassificationPipeline.classify softmax logit self each cl
             (map hyp cl) premise in
  let entail l :=
    logit premise (hyp l) (ZeroShotClassificationPipeline.entailment_id self) in
  let contra l :=
    logit premise (hyp l) (ZeroShotClassificationPipeline.contradiction_id self) in
  ZeroShotClassificationPipeline._call softmax logit self texts
    candidate_labels template multi_label
  = (if Js.isArray texts
     then Js.JArr
            (map (fun t => Js.JObj
                             (ZeroShotClassificationPipeline.classify softmax
                                logit self each cl (map hyp cl) t))
               (Js.to_list texts))
     else Js.first
            (map (fun t => Js.JObj
                             (ZeroShotClassificationPipeline.classify softmax
                                logit self each cl (map hyp cl) t))
               (Js.to_list texts)))
  /\ (multi_label = true \/ List.length cl = 1%nat ->
      Permutation
        (combine (ZeroShotClassificationPipeline.scores p)
           (ZeroShotClassificationPipeline.labels p))
        (map (fun l => (nth 1 (softmax [contra l; entail l]) 0, Some l)) cl))
  /\ (multi_label = false -> List.length cl <> 1%nat ->
      Permutation (ZeroShotClassificationPipeline.scores p)
        (softmax (map entail cl))
      /\ (Maths.total (softmax (map entail cl)) == 1 ->
          Maths.total (ZeroShotClassificationPipeline.scores p) == 1)
      /\ (List.length (softmax (map entail cl)) = List.length cl ->
          Permutation
            (combine (ZeroShotClassificationPipeline.scores p)
               (ZeroShotClassificationPipeline.labels p))
            (combine (softmax (map entail cl)) (map Some cl))))
  /\ StronglySorted (fun a b => b <= a) (ZeroShotClassificationPipeline.scores p)
  /\ ((forall k v, In (k, v) config ->
         ZeroShotClassificationPipeline.toLowerCase k <> "entailment"%string) ->
      ZeroShotClassificationPipeline.entailment_id
        (fst (ZeroShotClassificationPipeline.constructor config)) = 2%Z
      /\ In ZeroShotClassificationPipeline.warn_entailment
           (snd (ZeroShotClassificationPipeline.constructor config)))
  /\ ((forall k v, In (k, v) config ->
         ZeroShotClassificationPipeline.toLowerCase k <> "contradiction"%string) ->
      ZeroShotClassificationPipeline.contradiction_id
        (fst (ZeroShotClassificationPipeline.constructor config)) = 0%Z
      /\ In ZeroShotClassificationPipeline.warn_contradiction
           (snd (ZeroShotClassificationPipeline.constructor config))).
Proof.
  intros cl hyp each p entail contra.
  split; [reflexivity|].
  split.
  { intros Heach.
    assert (E : each = true).
    { unfold each. destruct Heach as [H|H]; rewrite H; [reflexivity|].
      apply orb_true_r. }
    subst p. rewrite E.
    rewrite classify_pairs_perm.
    - unfold ZeroShotClassificationPipeline.scores_of.
      rewrite map_map, combine_maps. reflexivity.
    - unfold ZeroShotClassificationPipeline.scores_of.
      now rewrite !length_map. }
  split.
  { intros Hm Hl.
    assert (E : each = false).
    { unfold each. rewrite Hm. simpl. now apply Nat.eqb_neq. }
    subst p. rewrite E.
    assert (S : ZeroShotClassificationPipeline.scores_of softmax logit self
                  false premise (map hyp cl) = softmax (map entail cl)).
    { unfold ZeroShotClassificationPipeline.scores_of. now rewrite map_map. }
    split; [|split].
    - now rewrite classify_scores_perm, S.
    - intros Hsum. rewrite <- Hsum.
      apply total_perm. now rewrite classify_scores_perm, S.
    - intros Hlen. rewrite <- S. apply classify_pairs_perm.
      now rewrite S. }
  split; [apply classify_sorted|].
  split.
  - intros Hmiss. unfold ZeroShotClassificationPipeline.constructor, Js.get.
    rewrite (own_lowercase_missing config Hmiss). simpl.
    destruct (Js.own _ "contradiction"); simpl; auto.
  - intros Hmiss. unfold ZeroShotClassificationPipeline.constructor, Js.get.
    rewrite (own_lowercase_missing config Hmiss). simpl.
    destruct (Js.own _ "entailment"); simpl; auto.
Qed.

Lemma zero_shot_scoring_witness :
  Maths.total
    (ZeroShotClassificationPipeline.scores
       (ZeroShotClassificationPipeline.classify Spec.uniform
          (fun _ _ _ => 0)
          (fst (ZeroShotClassificationPipeline.constructor
                  [("CONTRADICTION", 0); ("NEUTRAL", 1); ("ENTAILMENT", 2)]%Z%string))
          false ["sports"; "politics"; "science"]%string
          (map (ZeroShotClassificationPipeline.replace_braces
                  "This example is {}.")
             ["sports"; "politics"; "science"]%string)
          "The match ended 2-1."%string)) == 1.
Proof.
  destruct (zero_shot_scoring Spec.uniform (fun _ _ _ => 0)
              (fst (ZeroShotClassificationPipeline.constructor
                      [("CONTRADICTION", 0); ("NEUTRAL", 1);
                       ("ENTAILMENT", 2)]%Z%string))
              [] (Js.Single "The match ended 2-1."%string)
              (Js.Many ["sports"; "politics"; "science"]%string)
              "This example is {}." false "The match ended 2-1."%string)
    as (_ & _ & H & _).
  destruct (H eq_refl) as (_ & Hsum & _); [discriminate|].
  apply Hsum. reflexivity.
Defined.

(** ** Mean pooling *)
Lemma nth_error_rows {A} (f : nat -> nat -> A) (E B s i k : nat) :
  (i < B)%nat -> (k < E)%nat ->
  nth_error (flat_map (fun i => map (f i) (seq 0 E)) (seq s B)) (i * E + k)
  = Some (f (s + i)%nat k).
Proof.
  revert s i. induction B as [|B IH]; intros s i Hi Hk; [lia|].
  simpl. destruct i as [|i].
  - simpl. rewrite nth_error_app1 by (now rewrite length_map, length_seq).
    rewrite nth_error_map, nth_error_seq.
    destruct (Nat.ltb_spec k E); [|lia]. simpl. now rewrite Nat.add_0_r.
  - rewrite nth_error_app2 by (rewrite length_map, length_seq; simpl; lia).
    rewrite length_map, length_seq.
    replace (S i * E + k - E)%nat with (i * E + k)%nat by (simpl; lia).
    rewrite IH by lia. f_equal. f_equal. lia.
Qed.

Lemma length_rows {A} (f : nat -> nat -> A) (E B s : nat) :
  List.length (flat_map (fun i => map (f i) (seq 0 E)) (seq s B)) = (B * E)%nat.
Proof.
  revert s. induction B as [|B IH]; intros s; simpl; [reflexivity|].
  now rewrite length_app, length_map, length_seq, IH.
Qed.

Lemma fold_pool (rd rm : nat -> Js.num) (act : nat -> Q) (mk : nat -> Z)
    (js : list nat) (s0 c0 : Q) :
  (forall j, In j js ->
             rd j = Js.Fin (act j) /\ rm j = Js.Fin (inject_Z (mk j))
             /\ (mk j = 0%Z \/ mk j = 1%Z)) ->
  exists s c,
    fold_left
      (fun (acc : Js.num * Js.num) (j : nat) =>
         (Js.num_add (fst acc) (Js.num_mul (rd j) (rm j)),
          Js.num_add (snd acc) (rm j)))
      js (Js.Fin s0, Js.Fin c0) = (Js.Fin s, Js.Fin c)
    /\ s == s0 + Maths.total (map act (filter (fun j => (mk j =? 1)%Z) js))
    /\ c == c0 + inject_Z (Z.of_nat
                             (List.length (filter (fun j => (mk j =? 1)%Z) js))).
Proof.
  revert s0 c0. induction js as [|j js IH]; intros s0 c0 H.
  - exists s0, c0. unfold Maths.total, inject_Z. simpl. repeat split; lra.
  - destruct (H j (or_introl eq_refl)) as (Hrd & Hrm & Hmk).
    simpl fold_left. rewrite Hrd, Hrm. simpl Js.num_mul. simpl Js.num_add.
    destruct (IH (s0 + act j * inject_Z (mk j)) (c0 + inject_Z (mk j)))
      as (s & c & Hf & Hs & Hc).
    { intros j' Hj'. apply H. now right. }
    exists s, c. split; [exact Hf|].
    simpl filter. destruct Hmk as [E|E]; rewrite E in *; simpl.
    + split; [rewrite Hs | rewrite Hc]; simpl; unfold inject_Z.
      * lra.
      * lra.
    + split; [rewrite Hs; unfold Maths.total; simpl; unfold inject_Z; lra|].
      rewrite Hc. rewrite Zpos_P_of_succ_nat, <- Z.add_1_r, inject_Z_plus.
      unfold inject_Z. lra.
Qed.

Lemma filter_all {A} (f : A -> bool) (l : list A) :
  (forall x, In x l -> f x = true) -> filter f l = l.
Proof.
  induction l as [|x xs IH]; simpl; intros H; [reflexivity|].
  rewrite (H x (or_introl eq_refl)), IH; [reflexivity|].
  intros y Hy. apply H. now right.
Qed.

Lemma filter_none {A} (f : A -> bool) (l : list A) :
  (forall x, In x l -> f x = false) -> filter f l = [].
Proof.
  induction l as [|x xs IH]; simpl; intros H; [reflexivity|].
  rewrite (H x (or_introl eq_refl)), IH; [reflexivity|].
  intros y Hy. apply H. now right.
Qed.

Section MeanPoolingFacts.
Import Js FeatureExtractionPipeline.
Variables B S E : nat.
Variable d : list Q.
Variable m : list Z.
Hypothesis wf : Spec.well_formed {| dims := (B, S, E); data := d |} m.

Lemma read_activation (i j k : nat) :
  (i < B)%nat -> (j < S)%nat -> (k < E)%nat ->
  read d (i * E * S + k + j * E) = Fin (Spec.activation {| dims := (B, S, E); data := d |} i j k).
Proof.
  intros Hi Hj Hk. destruct wf as (Hd & _). simpl in Hd.
  unfold read, Spec.activation. simpl.
  replace (i * E * S + k + j * E)%nat with ((i * S + j) * E + k)%nat by ring.
  assert (i * S + j < B * S)%nat by nia.
  assert ((i * S + j) * E + k < B * S * E)%nat by nia.
  rewrite (nth_error_nth' d 0) by lia. reflexivity.
Qed.

Lemma read_mask_at (i j : nat) :
  (i < B)%nat -> (j < S)%nat ->
  read_mask m (i * S + j) = Fin (inject_Z (Spec.mask_at m S i j))
  /\ (Spec.mask_at m S i j = 0%Z \/ Spec.mask_at m S i j = 1%Z).
Proof.
  intros Hi Hj. destruct wf as (_ & Hm & Hb). simpl in Hm.
  unfold read_mask, Spec.mask_at.
  assert (i * S + j < List.length m)%nat by nia.
  rewrite (nth_error_nth' m 0%Z) by lia. split; [reflexivity|].
  apply (proj1 (Forall_forall _ _) Hb), nth_In. lia.
Qed.

Lemma pool_sums_masked (i k : nat) :
  (i < B)%nat -> (k < E)%nat ->
  exists s c,
    pool_sums {| dims := (B, S, E); data := d |} m i k = (Fin s, Fin c)
    /\ s == Spec.masked_sum {| dims := (B, S, E); data := d |} m i k
    /\ c == Spec.masked_count {| dims := (B, S, E); data := d |} m i.
Proof.
  intros Hi Hk. unfold pool_sums. simpl.
  destruct (fold_pool (fun j => read d (i * E * S + k + j * E))
              (fun j => read_mask m (i * S + j))
              (fun j => Spec.activation {| dims := (B, S, E); data := d |} i j k)
              (fun j => Spec.mask_at m S i j) (seq 0 S) 0 0)
    as (s & c & Hf & Hs & Hc).
  { intros j Hj. apply in_seq in Hj.
    destruct (@read_mask_at i j) as [Hm Hb]; try lia.
    repeat split; [apply read_activation; lia | exact Hm | exact Hb]. }
  exists s, c. split; [exact Hf|].
  unfold Spec.masked_sum, Spec.masked_count, Spec.unmasked. simpl.
  split; [rewrite Hs | rewrite Hc]; lra.
Qed.

Lemma cell_at (i k : nat) :
  (i < B)%nat -> (k < E)%nat ->
  nth_error (_mean_pooling {| dims := (B, S, E); data := d |} m) (i * E + k) = Some (pool_cell {| dims := (B, S, E); data := d |} m i k).
Proof.
  intros Hi Hk. unfold _mean_pooling. simpl.
  exact (nth_error_rows (pool_cell {| dims := (B, S, E); data := d |} m) 0 Hi Hk).
Qed.
End MeanPoolingFacts.

(** C6: for a well-formed tensor and 0/1 attention mask, every cell
    [[i, k]] of the mean-pooled tensor is the sum of the activations at the
    unmasked positions of item [i] divided by their number; with an
    all-ones mask that is the plain mean over the sequence axis, and with an
    all-zero mask the cell is [NaN] - a value, not a failure. *)
Theorem mean_pooling_masked_mean (B S E : nat) (d : list Q) (m : list Z)
    (i k : nat) :
  let h := {| FeatureExtractionPipeline.dims := (B, S, E);
              FeatureExtractionPipeline.data := d |} in
  Spec.well_formed h m -> (i < B)%nat -> (k < E)%nat ->
  List.length (FeatureExtractionPipeline._mean_pooling h m) = (B * E)%nat
  /\ (~ Spec.masked_count h m i == 0 ->
      exists q,
        nth_error (FeatureExtractionPipeline._mean_pooling h m) (i * E + k)
        = Some (Js.Fin q)
        /\ q == Spec.masked_sum h m i k / Spec.masked_count h m i)
  /\ ((forall j, (j < S)%nat -> Spec.mask_at m S i j = 1%Z) -> (0 < S)%nat ->
      exists q,
        nth_error (FeatureExtractionPipeline._mean_pooling h m) (i * E + k)
        = Some (Js.Fin q)
        /\ q == Maths.total (map (fun j => Spec.activation h i j k) (seq 0 S))
                / inject_Z (Z.of_nat S))
  /\ ((forall j, (j < S)%nat -> Spec.mask_at m S i j = 0%Z) ->
      nth_error (FeatureExtractionPipeline._mean_pooling h m) (i * E + k)
      = Some Js.NaN).
Proof.
  intros h wf Hi Hk. subst h.
  destruct (pool_sums_masked wf Hi Hk) as (s & c & Hp & Hs & Hc).
  assert (Hcell :
            nth_error
              (FeatureExtractionPipeline._mean_pooling
                 {| FeatureExtractionPipeline.dims := (B, S, E);
                    FeatureExtractionPipeline.data := d |} m)
              (i * E + k) = Some (Js.num_div (Js.Fin s) (Js.Fin c))).
  { rewrite (cell_at S d m Hi Hk).
    unfold FeatureExtractionPipeline.pool_cell. now rewrite Hp. }
  assert (Hdiv : ~ c == 0 -> Js.num_div (Js.Fin s) (Js.Fin c) = Js.Fin (s / c)).
  { intros Hnz. simpl. destruct (Qeq_bool c 0) eqn:Eq; [|reflexivity].
    apply Qeq_bool_iff in Eq. contradiction. }
  split; [|split; [|split]].
  - unfold FeatureExtractionPipeline._mean_pooling. simpl. apply length_rows.
  - intros Hnz. exists (s / c). rewrite Hcell, Hdiv.
    + split; [reflexivity|]. now rewrite Hs, Hc.
    + now rewrite Hc.
  - intros Hones HS.
    assert (Hu : Spec.unmasked m S i = seq 0 S).
    { apply filter_all. intros j Hj. apply in_seq in Hj.
      rewrite Hones by lia. reflexivity. }
    assert (HcS : c == inject_Z (Z.of_nat S)).
    { rewrite Hc. unfold Spec.masked_count. simpl. rewrite Hu.
      now rewrite length_seq. }
    assert (Hnz : ~ c == 0).
    { rewrite HcS. intros Hz. unfold Qeq in Hz. simpl in Hz. lia. }
    exists (s / c). rewrite Hcell, (Hdiv Hnz). split; [reflexivity|].
    rewrite Hs, HcS. unfold Spec.masked_sum. simpl. now rewrite Hu.
  - intros Hzeros.
    assert (Hu : Spec.unmasked m S i = []).
    { apply filter_none. intros j Hj. apply in_seq in Hj.
      rewrite Hzeros by lia. reflexivity. }
    rewrite Hcell. f_equal.
    assert (Hc0 : c == 0).
    { rewrite Hc. unfold Spec.masked_count. simpl. now rewrite Hu. }
    assert (Hs0 : s == 0).
    { rewrite Hs. unfold Spec.masked_sum. simpl. now rewrite Hu. }
    simpl. apply Qeq_bool_iff in Hc0, Hs0. now rewrite Hc0, Hs0.
Qed.

Lemma mean_pooling_masked_mean_witness :
  Spec.well_formed
    {| FeatureExtractionPipeline.dims := (2, 2, 1)%nat;
       FeatureExtractionPipeline.data := [1; 3; 5; 7] |} [1; 1; 0; 0]%Z
  /\ nth_error
       (FeatureExtractionPipeline._mean_pooling
          {| FeatureExtractionPipeline.dims := (2, 2, 1)%nat;
             FeatureExtractionPipeline.data := [1; 3; 5; 7] |} [1; 1; 0; 0]%Z)
       (1 * 1 + 0) = Some Js.NaN.
Proof.
  assert (W : Spec.well_formed
                {| FeatureExtractionPipeline.dims := (2, 2, 1)%nat;
                   FeatureExtractionPipeline.data := [1; 3; 5; 7] |}
                [1; 1; 0; 0]%Z).
  { simpl. split; [reflexivity|]. split; [reflexivity|].
    repeat (apply Forall_cons; [auto|]). apply Forall_nil. }
  split; [exact W|].
  destruct (@mean_pooling_masked_mean 2 2 1 [1; 3; 5; 7] [1; 1; 0; 0]%Z 1 0 W)
    as (_ & _ & _ & H); [lia | lia |].
  apply H. intros [|[|j]] Hj; [reflexivity | reflexivity | lia].
Defined.

(** ** Speech recognition: chunking *)
Lemma inject_succ (n : nat) :
  inject_Z (Z.of_nat (S n)) == inject_Z (Z.of_nat n) + 1.
Proof.
  rewrite Nat2Z.inj_succ, <- Z.add_1_r, inject_Z_plus. reflexivity.
Qed.

Section ChunkingFacts.
Import Js AutomaticSpeechRecognitionPipeline.
Variables sample features : Type.
Variable processor : list sample -> features.
Variable aud : list sample.
Variables window stride jump : Q.

Lemma chunk_loop_diverges (fuel : nat) (o : Q) (acc : list (chunk features)) :
  jump <= 0 -> o <= 0 -> 0 < length_of aud ->
  chunk_loop processor fuel aud window stride jump o acc = OutOfFuel.
Proof.
  intros Hj Ho Hlen. revert o acc Ho.
  induction fuel as [|fuel IH]; intros o acc Ho; simpl; [reflexivity|].
  destruct (Qle_bool (length_of aud) o) eqn:E.
  - apply Qle_bool_iff in E. lra.
  - simpl. apply IH. lra.
Qed.

Lemma chunk_loop_returns (n : nat) :
  forall (fuel : nat) (o : Q) (acc : list (chunk features)),
    (n < fuel)%nat ->
    (forall x, In x (Spec.offsets_from o jump n) -> x < length_of aud) ->
    length_of aud <= o + inject_Z (Z.of_nat n) * jump ->
    chunk_loop processor fuel aud window stride jump o acc
    = Return (acc ++ map (chunk_at processor aud window stride jump)
                       (Spec.offsets_from o jump n)).
Proof.
  induction n as [|n IH]; intros fuel o acc Hf Hin Hout;
    (destruct fuel as [|fuel]; [lia|]); simpl.
  - assert (E : Qle_bool (length_of aud) o = true).
    { apply Qle_bool_iff. change (inject_Z (Z.of_nat 0)) with 0 in Hout. lra. }
    rewrite E. simpl. now rewrite app_nil_r.
  - assert (E : Qle_bool (length_of aud) o = false).
    { destruct (Qle_bool (length_of aud) o) eqn:E; [|reflexivity].
      apply Qle_bool_iff in E.
      specialize (Hin o (or_introl eq_refl)). lra. }
    rewrite E. simpl. rewrite IH.
    + now rewrite <- app_assoc.
    + lia.
    + intros x Hx. apply Hin. now right.
    + rewrite inject_succ in Hout. lra.
Qed.


Lemma offsets_from_nth (n : nat) :
  forall (o : Q) (k : nat) (x : Q),
    nth_error (Spec.offsets_from o jump n) k = Some x ->
    (k < n)%nat /\ x == o + inject_Z (Z.of_nat k) * jump
    /\ (k = 0%nat -> x = o).
Proof.
  induction n as [|n IH]; intros o k x H; simpl in H.
  - destruct k; discriminate.
  - destruct k as [|k]; simpl in H.
    + inversion H; subst. split; [lia|].
      split; [change (inject_Z (Z.of_nat 0)) with 0; lra | reflexivity].
    + apply IH in H. destruct H as (Hk & Hx & _).
      split; [lia|]. split; [|discriminate].
      rewrite Hx, inject_succ. lra.
Qed.
End ChunkingFacts.

Lemma chunk_count_exists (len jump : Q) :
  0 < jump -> 0 <= len ->
  exists n : nat,
    (forall k : nat, (k < n)%nat -> inject_Z (Z.of_nat k) * jump < len)
    /\ len <= inject_Z (Z.of_nat n) * jump.
Proof.
  intros Hj Hlen.
  assert (Hx : jump * (len / jump) == len) by (apply Qmult_div_r; lra).
  pose proof (Qle_ceiling (len / jump)) as Hc.
  pose proof (Qceiling_lt (len / jump)) as Hc'.
  set (x := len / jump) in *. set (c := Qceiling x) in *.
  assert (Hx0 : 0 <= x) by nra.
  assert (Hc0 : (0 <= c)%Z).
  { rewrite Zle_Qle. change (inject_Z 0) with 0. lra. }
  exists (Z.to_nat c). rewrite Z2Nat.id by exact Hc0. split.
  - intros k Hk.
    assert (Hkc : (Z.of_nat k <= c - 1)%Z) by lia.
    rewrite Zle_Qle in Hkc. nra.
  - nra.
Qed.

Lemma length_of_nonneg {A} (l : list A) :
  0 <= AutomaticSpeechRecognitionPipeline.length_of l.
Proof.
  unfold AutomaticSpeechRecognitionPipeline.length_of.
  change 0 with (inject_Z 0). rewrite <- Zle_Qle. lia.
Qed.

(** C4: the stride validation misses a case.  An explicit
    [stride_length_s] with [chunk_length_s / 2 <= stride_length_s <
    chunk_length_s] passes the check, the advance [window - 2 * stride] is
    then not positive, and on a non-empty audio item the loop
    [while (offset < aud.length)] is never left: whatever the fuel, the
    chunking of the item returns no list of chunks, so the windows the item
    is to be cut into, and its last chunk, never come to exist. *)
Theorem asr_chunking_accepted_stride_diverges
    (sample features : Type) (sampling_rate : Q)
    (processor : list sample -> features) (aud : list sample)
    (chunk_len s : Q) :
  0 < sampling_rate -> 0 < chunk_len ->
  chunk_len / 2 <= s -> s < chunk_len ->
  aud <> [] ->
  AutomaticSpeechRecognitionPipeline.check_stride chunk_len (Some s)
  = Js.Return s
  /\ sampling_rate * chunk_len - 2 * (sampling_rate * s) <= 0
  /\ (forall fuel,
        AutomaticSpeechRecognitionPipeline.item_chunks sampling_rate processor
          fuel aud chunk_len (Some s) = Js.OutOfFuel)
  /\ ~ Spec.chunking_returns sampling_rate processor aud chunk_len (Some s).
Proof.
  intros Hsr Hc Hhalf Hlt Hne.
  assert (Hcheck : AutomaticSpeechRecognitionPipeline.check_stride chunk_len
                     (Some s) = Js.Return s).
  { unfold AutomaticSpeechRecognitionPipeline.check_stride.
    destruct (Qle_bool chunk_len s) eqn:E; [|reflexivity].
    apply Qle_bool_iff in E. lra. }
  assert (Hjump : sampling_rate * chunk_len - 2 * (sampling_rate * s) <= 0).
  { assert (H2 : chunk_len / 2 == chunk_len * (1 # 2)) by reflexivity.
    rewrite H2 in Hhalf. nra. }
  assert (Hloop : forall fuel,
             AutomaticSpeechRecognitionPipeline.item_chunks sampling_rate
               processor fuel aud chunk_len (Some s) = Js.OutOfFuel).
  { intros fuel. unfold AutomaticSpeechRecognitionPipeline.item_chunks.
    assert (E : Qle_bool chunk_len 0 = false).
    { destruct (Qle_bool chunk_len 0) eqn:E; [|reflexivity].
      apply Qle_bool_iff in E. lra. }
    rewrite E, Hcheck. cbv beta iota zeta. cbn [negb].
    rewrite chunk_loop_diverges; [reflexivity | exact Hjump | lra |].
    unfold AutomaticSpeechRecognitionPipeline.length_of.
    destruct aud as [|x xs]; [congruence|].
    change 0 with (inject_Z 0). rewrite <- Zlt_Qlt. simpl. lia. }
  split; [exact Hcheck|]. split; [exact Hjump|]. split; [exact Hloop|].
  intros (fuel & r & H). rewrite Hloop in H. discriminate H.
Qed.

Lemma asr_chunking_accepted_stride_diverges_witness :
  AutomaticSpeechRecognitionPipeline.check_stride 30 (Some 15) = Js.Return 15
  /\ 16000 * 30 - 2 * (16000 * 15) <= 0
  /\ (forall fuel,
        AutomaticSpeechRecognitionPipeline.item_chunks 16000
          (fun subarr : list Q => subarr) fuel [0; 0; 0] 30 (Some 15)
        = Js.OutOfFuel)
  /\ ~ Spec.chunking_returns 16000 (fun subarr : list Q => subarr)
         [0; 0; 0] 30 (Some 15).
Proof.
  apply (@asr_chunking_accepted_stride_diverges Q (list Q) 16000
           (fun subarr : list Q => subarr) [0; 0; 0] 30 15).
  - reflexivity.
  - reflexivity.
  - discriminate.
  - reflexivity.
  - discriminate.
Defined.

(** Chunking with the default stride, on exactly representable numbers:
    twenty samples at 4 Hz in windows of 3 s are cut at 0, 8 and 16. *)
Example asr_chunking_three_windows :
  AutomaticSpeechRecognitionPipeline.item_chunks 4
    (fun subarr : list Q => List.length subarr) 4 (repeat 0 20) 3 None
  = Js.Return
      (Some (3 / 6),
       [ {| AutomaticSpeechRecognitionPipeline.stride := (12, 0, 4 * (3 / 6));
            AutomaticSpeechRecognitionPipeline.input_features := 12%nat;
            AutomaticSpeechRecognitionPipeline.is_last := false |};
         {| AutomaticSpeechRecognitionPipeline.stride :=
              (12, 4 * (3 / 6), 4 * (3 / 6));
            AutomaticSpeechRecognitionPipeline.input_features := 12%nat;
            AutomaticSpeechRecognitionPipeline.is_last := false |};
         {| AutomaticSpeechRecognitionPipeline.stride := (4, 4 * (3 / 6), 0);
            AutomaticSpeechRecognitionPipeline.input_features := 4%nat;
            AutomaticSpeechRecognitionPipeline.is_last := true |} ]).
Proof. vm_compute. reflexivity. Qed.

(** ** Speech recognition: stride validation *)

(** C7, as stated, fails: on an empty batch nothing is validated; the call
    returns the empty array although [stride_length_s >= chunk_length_s]. *)
Lemma asr_empty_batch_not_validated :
  AutomaticSpeechRecognitionPipeline._call (tokens := list Z) 16000
    (fun a : list Q => a) (fun subarr : list Q => subarr)
    (fun _ _ => []) (fun _ _ => ""%string) 1 (Js.Many [])
    {| AutomaticSpeechRecognitionPipeline.return_timestamps := false;
       AutomaticSpeechRecognitionPipeline.chunk_length_s := 10;
       AutomaticSpeechRecognitionPipeline.stride_length_s := Some 20;
       AutomaticSpeechRecognitionPipeline.force_full_sequences := false |}
  = Js.Return (Js.JArr [])
  /\ AutomaticSpeechRecognitionPipeline._call (tokens := list Z) 16000
       (fun a : list Q => a) (fun subarr : list Q => subarr)
       (fun _ _ => []) (fun _ _ => ""%string) 1 (Js.Many [])
       {| AutomaticSpeechRecognitionPipeline.return_timestamps := false;
          AutomaticSpeechRecognitionPipeline.chunk_length_s := 10;
          AutomaticSpeechRecognitionPipeline.stride_length_s := Some 20;
          AutomaticSpeechRecognitionPipeline.force_full_sequences := false |}
     <> Js.ThrowError AutomaticSpeechRecognitionPipeline.stride_error.
Proof. split; [reflexivity | discriminate]. Qed.

(** C7 (amended): in a call with at least one audio item and
    [chunk_length_s > 0], an explicit [stride_length_s >= chunk_length_s]
    makes the call throw the validation error; and a missing
    [stride_length_s] is taken to be [chunk_length_s / 6], so that the
    chunks are those of a call given that value. *)
Theorem asr_stride_validation
    (audio_input sample features tokens transcript : Type)
    (sampling_rate : Q) (preprocess : audio_input -> list sample)
    (processor : list sample -> features)
    (generate : features -> AutomaticSpeechRecognitionPipeline.kwargs -> tokens)
    (decode_asr :
       list (AutomaticSpeechRecognitionPipeline.generated_chunk features tokens)
       -> AutomaticSpeechRecognitionPipeline.kwargs -> transcript)
    (audio : Js.js_arg audio_input)
    (kw : AutomaticSpeechRecognitionPipeline.kwargs) :
  0 < AutomaticSpeechRecognitionPipeline.chunk_length_s kw ->
  (forall s fuel,
      Js.to_list audio <> [] ->
      AutomaticSpeechRecognitionPipeline.stride_length_s kw = Some s ->
      AutomaticSpeechRecognitionPipeline.chunk_length_s kw <= s ->
      AutomaticSpeechRecognitionPipeline._call sampling_rate preprocess
        processor generate decode_asr fuel audio kw
      = Js.ThrowError AutomaticSpeechRecognitionPipeline.stride_error)
  /\ AutomaticSpeechRecognitionPipeline.check_stride
       (AutomaticSpeechRecognitionPipeline.chunk_length_s kw) None
     = Js.Return (AutomaticSpeechRecognitionPipeline.chunk_length_s kw / 6)
  /\ (forall fuel aud,
        AutomaticSpeechRecognitionPipeline.item_chunks sampling_rate processor
          fuel aud (AutomaticSpeechRecognitionPipeline.chunk_length_s kw) None
        = AutomaticSpeechRecognitionPipeline.item_chunks sampling_rate
            processor fuel aud
            (AutomaticSpeechRecognitionPipeline.chunk_length_s kw)
            (Some (AutomaticSpeechRecognitionPipeline.chunk_length_s kw / 6))).
Proof.
  intros Hpos.
  assert (E : Qle_bool (AutomaticSpeechRecognitionPipeline.chunk_length_s kw) 0
              = false).
  { destruct (Qle_bool _ 0) eqn:E; [|reflexivity].
    apply Qle_bool_iff in E. lra. }
  split; [|split].
  - intros s fuel Hne Hs Hle.
    unfold AutomaticSpeechRecognitionPipeline._call.
    destruct (Js.to_list audio) as [|aud rest]; [congruence|].
    simpl. unfold AutomaticSpeechRecognitionPipeline.item_chunks.
    rewrite E, Hs. simpl.
    apply Qle_bool_iff in Hle. now rewrite Hle.
  - reflexivity.
  - intros fuel aud. unfold AutomaticSpeechRecognitionPipeline.item_chunks.
    rewrite E. simpl.
    destruct (Qle_bool (AutomaticSpeechRecognitionPipeline.chunk_length_s kw)
                (AutomaticSpeechRecognitionPipeline.chunk_length_s kw / 6))
      eqn:E6; [|reflexivity].
    apply Qle_bool_iff in E6.
    assert (H6 : AutomaticSpeechRecognitionPipeline.chunk_length_s kw / 6
                 == AutomaticSpeechRecognitionPipeline.chunk_length_s kw * (1 # 6))
      by reflexivity.
    rewrite H6 in E6. lra.
Qed.

Lemma asr_stride_validation_witness :
  0 < 10
  /\ AutomaticSpeechRecognitionPipeline._call (tokens := list Z) 16000
       (fun a : list Q => a) (fun subarr : list Q => subarr)
       (fun _ _ => []) (fun _ _ => ""%string) 5 (Js.Single [0; 0; 0])
       {| AutomaticSpeechRecognitionPipeline.return_timestamps := false;
          AutomaticSpeechRecognitionPipeline.chunk_length_s := 10;
          AutomaticSpeechRecognitionPipeline.stride_length_s := Some 20;
          AutomaticSpeechRecognitionPipeline.force_full_sequences := false |}
     = Js.ThrowError AutomaticSpeechRecognitionPipeline.stride_error.
Proof.
  assert (H1 : 0 < 10) by reflexivity.
  split; [exact H1|].
  destruct (asr_stride_validation 16000
              (fun a : list Q => a) (fun subarr : list Q => subarr)
              (fun _ _ => @nil Z) (fun _ _ => ""%string) (Js.Single [0; 0; 0])
              {| AutomaticSpeechRecognitionPipeline.return_timestamps := false;
                 AutomaticSpeechRecognitionPipeline.chunk_length_s := 10;
                 AutomaticSpeechRecognitionPipeline.stride_length_s := Some 20;
                 AutomaticSpeechRecognitionPipeline.force_full_sequences := false |}
              H1) as (H & _).
  apply (H 20).
  - discriminate.
  - reflexivity.
  - discriminate.
Defined.

(** ** Image segmentation *)
Section SegmentationFacts.
Import Js ImageSegmentationPipeline.
Variables image output : Type.
Variable image_size : image -> nat * nat.
Variable run : list image -> output.
Variable feature_extractor : string -> option (post_process_fn output).
Variable id2label : nat -> option string.

(** Without a subtask the first method the feature extractor has is bound,
    in the order panoptic, instance, semantic. *)
Lemma select_fn_probes :
  select_fn feature_extractor None
  = match feature_extractor "post_process_panoptic_segmentation" with
    | Some f => (FnBound f, Some "panoptic"%string)
    | None =>
        match feature_extractor "post_process_instance_segmentation" with
        | Some f => (FnBound f, Some "instance"%string)
        | None =>
            match feature_extractor "post_process_semantic_segmentation" with
            | Some f => (FnBound f, Some "semantic"%string)
            | None => (FnNull output, None)
            end
        end
    end.
Proof. reflexivity. Qed.

(** With an explicit subtask [fn] is the entry of [subtasks_mapping]: the
    method's name, not the method. *)
Lemma select_fn_explicit_is_a_name :
  select_fn feature_extractor (Some "panoptic"%string)
  = (FnProperty output (Own "post_process_panoptic_segmentation"%string),
     Some "panoptic"%string)
  /\ select_fn feature_extractor (Some "instance"%string)
     = (FnProperty output (Own "post_process_instance_segmentation"%string),
        Some "instance"%string).
Proof. split; reflexivity. Qed.

(** The mask marks exactly the pixels of the segment. *)
Lemma mask_data_spec (segmentation : list Z) (segment_id : Z) (i : nat) (v : Z) :
  nth_error segmentation i = Some v ->
  nth_error (mask_data segmentation segment_id) i
  = Some (if (v =? segment_id)%Z then 255%Z else 0%Z).
Proof.
  intros H. unfold mask_data. now rewrite nth_error_map, H.
Qed.

(** The probing path: one annotation per segment of the first processed
    image. *)
Lemma segmentation_probed_panoptic (img : image) (o : call_options)
    (f : post_process_fn output) (processed : processed_t)
    (others : list processed_t) :
  subtask o = None ->
  feature_extractor "post_process_panoptic_segmentation" = Some f ->
  f (run [img]) (threshold o) (mask_threshold o)
    (overlap_mask_area_threshold o) (label_ids_to_fuse o)
    (match target_sizes o with Some t => t | None => [image_size img] end)
  = processed :: others ->
  _call image_size run feature_extractor id2label (Single img) o
  = Return (map (annotate id2label processed) (segments_info processed)).
Proof.
  intros Hs Hf Hp. unfold _call. simpl. rewrite Hs, select_fn_probes, Hf.
  simpl. now rewrite Hp.
Qed.
End SegmentationFacts.

(** C9 (the code at the failing input): with [subtask] given as 'panoptic'
    or 'instance', whatever the image, the other options and the
    processor, the call throws a [TypeError] - [fn] holds the name of the
    post-processing method, which cannot be called - and returns no
    annotation. *)
Theorem segmentation_explicit_subtask_type_error
    (image output : Type) (image_size : image -> nat * nat)
    (run : list image -> output)
    (feature_extractor :
       string -> option (ImageSegmentationPipeline.post_process_fn output))
    (id2label : nat -> option string) (img : image)
    (threshold mask_threshold overlap : Q)
    (label_ids_to_fuse : option (list nat))
    (target_sizes : option (list (nat * nat))) :
  ImageSegmentationPipeline._call image_size run feature_extractor id2label
    (Js.Single img)
    {| ImageSegmentationPipeline.threshold := threshold;
       ImageSegmentationPipeline.mask_threshold := mask_threshold;
       ImageSegmentationPipeline.overlap_mask_area_threshold := overlap;
       ImageSegmentationPipeline.label_ids_to_fuse := label_ids_to_fuse;
       ImageSegmentationPipeline.target_sizes := target_sizes;
       ImageSegmentationPipeline.subtask := Some "panoptic"%string |}
  = Js.ThrowTypeError ImageSegmentationPipeline.not_a_function
  /\ ImageSegmentationPipeline._call image_size run feature_extractor id2label
       (Js.Single img)
       {| ImageSegmentationPipeline.threshold := threshold;
          ImageSegmentationPipeline.mask_threshold := mask_threshold;
          ImageSegmentationPipeline.overlap_mask_area_threshold := overlap;
          ImageSegmentationPipeline.label_ids_to_fuse := label_ids_to_fuse;
          ImageSegmentationPipeline.target_sizes := target_sizes;
          ImageSegmentationPipeline.subtask := Some "instance"%string |}
     = Js.ThrowTypeError ImageSegmentationPipeline.not_a_function.
Proof. split; reflexivity. Qed.

(** ** The factory *)
Section FactoryFacts.
Import Js Factory.
Variable collaborator : Type.
Variable from_pretrained :
  string -> string -> PretrainedOptions -> collaborator + string.


(** For a name that is not a property of [Object.prototype], and whose
    first segment is not one either: the alias map is consulted first, the
    registry is keyed by the first segment, and a key without descriptor
    gives the error that lists the registered keys. *)
Lemma pipeline_unsupported (task : string) (model : option string)
    (o : PretrainedOptions) :
  existsb (String.eqb task) Object_prototype = false ->
  existsb (String.eqb (first_segment (Spec.resolved task))) Object_prototype = false ->
  own SUPPORTED_TASKS (first_segment (Spec.resolved task)) = None ->
  pipeline from_pretrained task model o
  = ThrowError (unsupported (Spec.resolved task)).
Proof.
  intros Ht Hk Hown. unfold pipeline, Spec.resolved in *. unfold get at 1.
  destruct (own TASK_ALIASES task) as [t|].
  - unfold get. now rewrite Hown, Hk.
  - rewrite Ht. unfold get. now rewrite Hown, Hk.
Qed.

Lemma pipeline_supported (task : string) (model : option string)
    (o : PretrainedOptions) (info : descriptor) :
  existsb (String.eqb task) Object_prototype = false ->
  own SUPPORTED_TASKS (first_segment (Spec.resolved task)) = Some info ->
  pipeline from_pretrained task model o
  = let model := if no_model model then default_model info
                 else match model with Some m => m | None => ""%string end in
    match load_all from_pretrained
            (option_list (tokenizer info) ++ [model_class info]
               ++ option_list (processor info)) model o with
    | Return items =>
        Return {| p_task := Spec.resolved task; p_class := pipeline_class info;
                  p_model := model; p_items := items |}
    | ThrowError e => ThrowError e
    | ThrowTypeError e => ThrowTypeError e
    | OutOfFuel => OutOfFuel
    end.
Proof.
  intros Ht Hown. unfold pipeline, Spec.resolved in *. unfold get at 1.
  destruct (own TASK_ALIASES task) as [t|].
  - unfold get. rewrite Hown. destruct model as [m|]; simpl; [|reflexivity].
    now destruct (String.eqb m "").
  - rewrite Ht. unfold get. rewrite Hown.
    destruct model as [m|]; simpl; [|reflexivity].
    now destruct (String.eqb m "").
Qed.
End FactoryFacts.

(** C8 (the code at the failing input): the task name 'constructor' is
    found on the alias map's prototype, so the factory throws the
    [TypeError] of calling [split] on a non-string, not the error that
    lists the registered tasks; 'toString_x', whose first segment is found
    on the registry's prototype, fails with a [TypeError] as well. *)
Theorem pipeline_prototype_name_type_error
    (collaborator : Type)
    (from_pretrained :
       string -> string -> Factory.PretrainedOptions -> collaborator + string)
    (model : option string) (o : Factory.PretrainedOptions) :
  Factory.pipeline from_pretrained "constructor" model o
  = Js.ThrowTypeError Factory.split_not_a_function
  /\ Factory.pipeline from_pretrained "constructor" model o
     <> Js.ThrowError (Factory.unsupported "constructor")
  /\ Factory.pipeline from_pretrained "toString_x" None o
     = Js.ThrowTypeError Factory.default_of_undefined.
Proof. repeat split; try reflexivity. discriminate. Qed.

(** C10: whatever the model identifier and the options, [pipeline('vqa')]
    fails with the unsupported-pipeline error: the alias map sends 'vqa' to
    'visual-question-answering', which the registry does not have, and the
    message lists the sixteen registered keys. *)
Theorem pipeline_vqa_unsupported
    (collaborator : Type)
    (from_pretrained :
       string -> string -> Factory.PretrainedOptions -> collaborator + string)
    (model : option string) (o : Factory.PretrainedOptions) :
  Js.get Factory.TASK_ALIASES "vqa" = Js.Own "visual-question-answering"%string
  /\ Js.get Factory.SUPPORTED_TASKS "visual-question-answering" = Js.Undefined
  /\ Factory.pipeline from_pretrained "vqa" model o
     = Js.ThrowError (Factory.unsupported "visual-question-answering")
  /\ Factory.unsupported "visual-question-answering"
     = ("Unsupported pipeline: visual-question-answering. Must be one of ["
        ++ "text-classification,token-classification,question-answering,"
        ++ "fill-mask,summarization,translation,text2text-generation,"
        ++ "text-generation,zero-shot-classification,"
        ++ "automatic-speech-recognition,image-to-text,image-classification,"
        ++ "image-segmentation,zero-shot-image-classification,"
        ++ "object-detection,feature-extraction]")%string
  /\ Js.keys Factory.SUPPORTED_TASKS
     = [ "text-classification"; "token-classification"; "question-answering";
         "fill-mask"; "summarization"; "translation"; "text2text-generation";
         "text-generation"; "zero-shot-classification";
         "automatic-speech-recognition"; "image-to-text";
         "image-classification"; "image-segmentation";
         "zero-shot-image-classification"; "object-detection";
         "feature-extraction" ]%string.
Proof. repeat split; reflexivity. Qed.

(* ================================================================== *)
(** * Part III: further properties of the pipelines *)
(* ================================================================== *)

(** ** [product] and the search for answer spans *)

(** X1: [product] is the Cartesian product: it has [|a| * |b|] pairs, and a
    pair belongs to it exactly when its components belong to [a] and
    [b]. *)
Theorem product_pairs {A B : Type} (a : list A) (b : list B) :
  List.length (QuestionAnsweringPipeline.product a b)
  = (List.length a * List.length b)%nat
  /\ forall x y,
       In (x, y) (QuestionAnsweringPipeline.product a b) <-> In x a /\ In y b.
Proof.
  split; [|intros x y; apply in_product].
  unfold QuestionAnsweringPipeline.product.
  induction a as [|d ds IH]; simpl; [reflexivity|].
  now rewrite length_app, length_map, IH.
Qed.

Lemma nth_error_with_index {A} (l : list A) (i : nat) (x : A) :
  nth_error l i = Some x -> In (x, i) (Js.with_index l).
Proof.
  unfold Js.with_index. intros H.
  assert (G : forall s, nth_error (combine l (seq s (List.length l))) i
                        = Some (x, (s + i)%nat)).
  { revert i H. induction l as [|y ys IH]; intros i H s.
    - destruct i; discriminate.
    - destruct i as [|i]; simpl in *.
      + inversion H. now rewrite Nat.add_0_r.
      + rewrite (IH i H (S s)). do 2 f_equal. lia. }
  specialize (G 0%nat). simpl in G. eapply nth_error_In. exact G.
Qed.

Lemma indexOf_from_spec (ids : list Z) (x i : Z) :
  (~ In x ids /\ QuestionAnsweringPipeline.indexOf_from i ids x = (-1)%Z)
  \/ (exists k : nat,
         QuestionAnsweringPipeline.indexOf_from i ids x = (i + Z.of_nat k)%Z
         /\ nth_error ids k = Some x
         /\ forall k', (k' < k)%nat -> nth_error ids k' <> Some x).
Proof.
  revert i. induction ids as [|y rest IH]; intros i; simpl.
  - left. auto.
  - destruct (Z.eqb_spec y x) as [E|E].
    + right. exists 0%nat. subst. repeat split; [lia | lia].
    + destruct (IH (i + 1)%Z) as [[Hn Hr]|[k (Hr & Hk & Hlt)]].
      * left. split; [|exact Hr]. intros [H|H]; [congruence | contradiction].
      * right. exists (S k). repeat split; [lia | exact Hk |].
        intros [|k'] Hk'; simpl; [congruence | apply Hlt; lia].
Qed.

(** [ids.indexOf(x)] is [-1] exactly when [x] does not occur, and otherwise
    the first position holding [x]. *)
Lemma indexOf_spec (ids : list Z) (x : Z) :
  (~ In x ids /\ QuestionAnsweringPipeline.indexOf ids x = (-1)%Z)
  \/ (exists k : nat,
         QuestionAnsweringPipeline.indexOf ids x = Z.of_nat k
         /\ nth_error ids k = Some x
         /\ forall k', (k' < k)%nat -> nth_error ids k' <> Some x).
Proof.
  unfold QuestionAnsweringPipeline.indexOf.
  destruct (indexOf_from_spec ids x 0) as [H|[k H]]; [now left|].
  right. exists k. now rewrite Z.add_0_l in H.
Qed.

(** X2: the span search misses no valid span and ranks the best first: any
    pair of positions after the separator with [start <= end] is among the
    options with the product of its probabilities as score, and with
    [topk >= 1] the first span kept scores at least as much. *)
Theorem question_answering_best_span
    (softmax : list Q -> list Q) (sep_token_id : Z)
    (it : QuestionAnsweringPipeline.item) (topk s e : nat) (ps pe : Q) :
  nth_error (softmax (QuestionAnsweringPipeline.start_logits it)) s = Some ps ->
  nth_error (softmax (QuestionAnsweringPipeline.end_logits it)) e = Some pe ->
  (QuestionAnsweringPipeline.indexOf
     (QuestionAnsweringPipeline.input_ids it) sep_token_id < Z.of_nat s)%Z ->
  (s <= e)%nat -> (1 <= topk)%nat ->
  In (s, e, ps * pe)
    (QuestionAnsweringPipeline.options softmax sep_token_id it)
  /\ exists best,
       nth_error (QuestionAnsweringPipeline.spans softmax sep_token_id topk it) 0
       = Some best
       /\ ps * pe <= QuestionAnsweringPipeline.span_score best.
Proof.
  intros Hs He Hsep Hle Hk.
  assert (Hin : In (s, e, ps * pe)
                  (QuestionAnsweringPipeline.options softmax sep_token_id it)).
  { unfold QuestionAnsweringPipeline.options. apply sort_In, in_map_iff.
    exists ((ps, s), (pe, e)). split; [reflexivity|].
    apply filter_In. split; [|simpl; now apply Nat.leb_le].
    apply in_product. split.
    - unfold QuestionAnsweringPipeline.candidates. apply filter_In.
      split; [now apply nth_error_with_index | simpl; now apply Z.ltb_lt].
    - unfold QuestionAnsweringPipeline.candidates. apply filter_In.
      split; [now apply nth_error_with_index | simpl; apply Z.ltb_lt; lia]. }
  split; [exact Hin|].
  pose proof (options_sorted softmax sep_token_id it) as Hsorted.
  unfold QuestionAnsweringPipeline.spans.
  destruct (QuestionAnsweringPipeline.options softmax sep_token_id it)
    as [|best rest]; [contradiction|].
  exists best. destruct topk as [|topk]; [lia|]. split; [reflexivity|].
  destruct Hin as [Heq|Hin];
    [subst best; unfold QuestionAnsweringPipeline.span_score; simpl; lra|].
  inversion Hsorted as [|? ? _ Hall]; subst.
  apply (proj1 (Forall_forall _ _) Hall) in Hin.
  exact Hin.
Qed.

Lemma question_answering_best_span_witness :
  exists best,
    nth_error
      (QuestionAnsweringPipeline.spans Spec.uniform 102%Z 1
         {| QuestionAnsweringPipeline.input_ids := [101; 7; 102; 8; 9; 102]%Z;
            QuestionAnsweringPipeline.start_logits := [0; 0; 0; 0; 0; 0];
            QuestionAnsweringPipeline.end_logits := [0; 0; 0; 0; 0; 0] |}) 0
    = Some best
    /\ (1 / 6) * (1 / 6) <= QuestionAnsweringPipeline.span_score best.
Proof.
  apply (@question_answering_best_span Spec.uniform 102%Z
           {| QuestionAnsweringPipeline.input_ids := [101; 7; 102; 8; 9; 102]%Z;
              QuestionAnsweringPipeline.start_logits := [0; 0; 0; 0; 0; 0];
              QuestionAnsweringPipeline.end_logits := [0; 0; 0; 0; 0; 0] |}
           1 3 4 (1 / 6) (1 / 6)).
  - reflexivity.
  - reflexivity.
  - reflexivity.
  - lia.
  - lia.
Defined.

(** ** Token classification *)
Section TokenClassificationFacts.
Import Js TokenClassificationPipeline.
Variable softmax : list Q -> list Q.
Variable max_index : list Q -> nat.
Variable id2label : nat -> option string.
Variable decode : list Z -> bool -> string.
Variable ignore_labels : list string.

Lemma token_at_Some (j : nat) (p : Z * list Q) (t : token) :
  token_at softmax max_index id2label decode ignore_labels j p = Some t <->
  includes ignore_labels (id2label (max_index (snd p))) = false
  /\ decode [fst p] true <> ""%string
  /\ t = {| entity := id2label (max_index (snd p));
            score := nth_error (softmax (snd p)) (max_index (snd p));
            index := j;
            word := decode [fst p] true |}.
Proof.
  unfold token_at.
  destruct (includes ignore_labels (id2label (max_index (snd p)))).
  - split; [discriminate | intros (H & _); discriminate].
  - destruct (String.eqb_spec (decode [fst p] true) "") as [E|E].
    + split; [discriminate | intros (_ & H & _); contradiction].
    + split.
      * intros H. inversion H. auto.
      * intros (_ & _ & ->). reflexivity.
Qed.

Lemma tokens_from_In (row : list (Z * list Q)) :
  forall (j : nat) (t : token),
    In t (tokens_from softmax max_index id2label decode ignore_labels j row) <->
    exists k p,
      nth_error row k = Some p
      /\ token_at softmax max_index id2label decode ignore_labels (j + k) p
         = Some t.
Proof.
  induction row as [|q rest IH]; intros j t; simpl.
  - split; [contradiction | intros (k & p & H & _); destruct k; discriminate].
  - split.
    + intros H.
      destruct (token_at softmax max_index id2label decode ignore_labels j q)
        as [t'|] eqn:E.
      * destruct H as [<-|H].
        -- exists 0%nat, q. now rewrite Nat.add_0_r.
        -- apply IH in H. destruct H as (k & p & Hk & Ht).
           exists (S k), p. now rewrite Nat.add_succ_r.
      * apply IH in H. destruct H as (k & p & Hk & Ht).
        exists (S k), p. now rewrite Nat.add_succ_r.
    + intros (k & p & Hk & Ht). destruct k as [|k]; simpl in Hk.
      * inversion Hk; subst. rewrite Nat.add_0_r in Ht. rewrite Ht. now left.
      * rewrite Nat.add_succ_r in Ht.
        assert (In t (tokens_from softmax max_index id2label decode
                        ignore_labels (S j) rest))
          by (apply IH; now exists k, p).
        destruct (token_at softmax max_index id2label decode ignore_labels j q);
          [now right | assumption].
Qed.

Lemma tokens_from_sorted (row : list (Z * list Q)) :
  forall j : nat,
    StronglySorted lt
      (map index
         (tokens_from softmax max_index id2label decode ignore_labels j row)).
Proof.
  induction row as [|q rest IH]; intros j; simpl; [constructor|].
  destruct (token_at softmax max_index id2label decode ignore_labels j q)
    as [t|] eqn:E; [|apply IH].
  simpl. constructor; [apply IH|].
  apply Forall_forall. intros i Hi. apply in_map_iff in Hi.
  destruct Hi as (t' & <- & Ht'). apply tokens_from_In in Ht'.
  destruct Ht' as (k & p & _ & Hp).
  apply token_at_Some in E. apply token_at_Some in Hp.
  destruct E as (_ & _ & ->). destruct Hp as (_ & _ & ->). simpl. lia.
Qed.
End TokenClassificationFacts.

(** X3: the tokens returned for one text are, in increasing position, exactly
    the positions whose arg-max label is not ignored and whose token decodes
    to a non-empty word; each carries that label, that word and the softmax
    score of the arg-max label. *)
Theorem token_classification_tokens
    (softmax : list Q -> list Q) (max_index : list Q -> nat)
    (id2label : nat -> option string) (decode : list Z -> bool -> string)
    (ignore_labels : list string) (row : list (Z * list Q)) :
  StronglySorted lt
    (map TokenClassificationPipeline.index
       (TokenClassificationPipeline.tokens_from softmax max_index id2label
          decode ignore_labels 0 row))
  /\ (forall t,
        In t (TokenClassificationPipeline.tokens_from softmax max_index
                id2label decode ignore_labels 0 row) ->
        exists p,
          nth_error row (TokenClassificationPipeline.index t) = Some p
          /\ TokenClassificationPipeline.word t = decode [fst p] true
          /\ TokenClassificationPipeline.word t <> ""%string
          /\ TokenClassificationPipeline.entity t
             = id2label (max_index (snd p))
          /\ TokenClassificationPipeline.includes ignore_labels
               (TokenClassificationPipeline.entity t) = false
          /\ TokenClassificationPipeline.score t
             = nth_error (softmax (snd p)) (max_index (snd p)))
  /\ (forall j p,
        nth_error row j = Some p ->
        TokenClassificationPipeline.includes ignore_labels
          (id2label (max_index (snd p))) = false ->
        decode [fst p] true <> ""%string ->
        exists t,
          In t (TokenClassificationPipeline.tokens_from softmax max_index
                  id2label decode ignore_labels 0 row)
          /\ TokenClassificationPipeline.index t = j).
Proof.
  split; [apply tokens_from_sorted|]. split.
  - intros t Ht. apply tokens_from_In in Ht. destruct Ht as (k & p & Hk & Ht).
    apply token_at_Some in Ht. destruct Ht as (Hi & Hw & ->). simpl.
    exists p. repeat split; assumption.
  - intros j p Hj Hi Hw.
    exists {| TokenClassificationPipeline.entity := id2label (max_index (snd p));
              TokenClassificationPipeline.score :=
                nth_error (softmax (snd p)) (max_index (snd p));
              TokenClassificationPipeline.index := j;
              TokenClassificationPipeline.word := decode [fst p] true |}.
    split; [|reflexivity]. apply tokens_from_In. exists j, p.
    split; [exact Hj|]. apply token_at_Some. auto.
Qed.

Lemma token_classification_tokens_witness :
  exists t,
    In t (TokenClassificationPipeline.tokens_from Spec.uniform (fun _ => 1%nat)
            (fun i => nth_error ["O"; "B-PER"]%string i)
            (fun ids _ => match ids with
                          | [101%Z] => ""%string
                          | _ => "Ada"%string
                          end)
            ["O"%string] 0 [(101%Z, [0; 0]); (7%Z, [0; 0])])
    /\ TokenClassificationPipeline.index t = 1%nat.
Proof.
  destruct (token_classification_tokens Spec.uniform (fun _ => 1%nat)
              (fun i => nth_error ["O"; "B-PER"]%string i)
              (fun ids _ => match ids with
                            | [101%Z] => ""%string
                            | _ => "Ada"%string
                            end)
              ["O"%string] [(101%Z, [0; 0]); (7%Z, [0; 0])]) as (_ & _ & H).
  apply (H 1%nat (7%Z, [0; 0])).
  - reflexivity.
  - reflexivity.
  - discriminate.
Defined.

(** ** Fill-mask *)
Lemma set_at_length (l : list Z) (i : nat) (v : Z) :
  List.length (FillMaskPipeline.set_at l i v) = List.length l.
Proof.
  revert i. induction l as [|x xs IH]; intros [|i]; simpl; auto.
Qed.

Lemma set_at_same (l : list Z) (i : nat) (v : Z) :
  (i < List.length l)%nat ->
  nth_error (FillMaskPipeline.set_at l i v) i = Some v.
Proof.
  revert i. induction l as [|x xs IH]; intros [|i] H; simpl in *;
    try lia; [reflexivity | apply IH; lia].
Qed.

Lemma set_at_other (l : list Z) (i j : nat) (v : Z) :
  j <> i -> nth_error (FillMaskPipeline.set_at l i v) j = nth_error l j.
Proof.
  revert i j. induction l as [|x xs IH]; intros [|i] [|j] H; simpl;
    try reflexivity; try congruence.
  apply IH. congruence.
Qed.

Section FillMaskFacts.
Import Js FillMaskPipeline.
Variable softmax : list Q -> list Q.
Variable decode : list Z -> bool -> string.
Variable vocab : nat -> option string.
Variable mask_token_id : Z.
Variable mask_token : string.

Lemma item_predictions_cases (topk : nat) (it : item) :
  (~ In mask_token_id (input_ids it)
   /\ item_predictions softmax decode vocab mask_token_id mask_token topk it
      = ThrowError (mask_error mask_token))
  \/ (exists m : nat,
         nth_error (input_ids it) m = Some mask_token_id
         /\ (forall m', (m' < m)%nat ->
                        nth_error (input_ids it) m' <> Some mask_token_id)
         /\ item_predictions softmax decode vocab mask_token_id mask_token
              topk it
            = match nth_error (logits it) m with
              | None => ThrowTypeError undefined_logits
              | Some itemLogits =>
                  Return
                    (map (fun x =>
                            {| score := snd x;
                               token := fst x;
                               token_str := vocab (fst x);
                               sequence :=
                                 decode (set_at (input_ids it) m
                                           (Z.of_nat (fst x))) true |})
                       (Maths.getTopItems (softmax itemLogits) topk))
              end).
Proof.
  unfold item_predictions.
  destruct (indexOf_spec (input_ids it) mask_token_id)
    as [[Hn Hr]|(m & Hr & Hm & Hlt)]; rewrite Hr.
  - left. split; [exact Hn | reflexivity].
  - right. exists m. split; [exact Hm|]. split; [exact Hlt|].
    destruct (Z.eqb_spec (Z.of_nat m) (-1)) as [E|E]; [lia|].
    now rewrite Nat2Z.id.
Qed.

Lemma items_loop_returns (topk : nat) (items : list item) :
  forall acc,
    Forall (fun it => List.length (logits it) = List.length (input_ids it)) items ->
    Forall (fun it => In mask_token_id (input_ids it)) items ->
    exists l,
      items_loop softmax decode vocab mask_token_id mask_token topk items acc
      = Return (acc ++ l)
      /\ List.length l = List.length items.
Proof.
  induction items as [|it rest IH]; intros acc Hshape Hmask; simpl.
  - exists []. now rewrite app_nil_r.
  - inversion Hshape as [|? ? Hs Hshape']; subst.
    inversion Hmask as [|? ? Hm Hmask']; subst.
    destruct (item_predictions_cases topk it) as [[Hn _]|(m & Hnth & _ & Hp)];
      [contradiction|].
    rewrite Hp.
    destruct (nth_error (logits it) m) as [itemLogits|] eqn:E.
    + destruct (IH (acc ++ [JArr (map JObj
                  (map (fun x =>
                          {| score := snd x;
                             token := fst x;
                             token_str := vocab (fst x);
                             sequence :=
                               decode (set_at (input_ids it) m
                                         (Z.of_nat (fst x))) true |})
                     (Maths.getTopItems (softmax itemLogits) topk)))])
                  Hshape' Hmask') as (l & Hl & Hlen).
      exists (JArr (map JObj
                (map (fun x =>
                        {| score := snd x;
                           token := fst x;
                           token_str := vocab (fst x);
                           sequence :=
                             decode (set_at (input_ids it) m
                                       (Z.of_nat (fst x))) true |})
                   (Maths.getTopItems (softmax itemLogits) topk))) :: l).
      rewrite Hl, <- app_assoc. simpl. split; [reflexivity | now rewrite Hlen].
    + apply nth_error_None in E.
      assert (m < List.length (input_ids it))%nat
        by (apply nth_error_Some; congruence).
      lia.
Qed.

Lemma items_loop_throws (topk : nat) (items : list item) :
  forall acc,
    Forall (fun it => List.length (logits it) = List.length (input_ids it)) items ->
    Exists (fun it => ~ In mask_token_id (input_ids it)) items ->
    items_loop softmax decode vocab mask_token_id mask_token topk items acc
    = ThrowError (mask_error mask_token).
Proof.
  induction items as [|it rest IH]; intros acc Hshape Hex; simpl.
  - inversion Hex.
  - inversion Hshape as [|? ? Hs Hshape']; subst.
    destruct (item_predictions_cases topk it) as [[Hn Hp]|(m & Hnth & _ & Hp)];
      rewrite Hp; [reflexivity|].
    destruct (nth_error (logits it) m) as [itemLogits|] eqn:E.
    + apply IH; [exact Hshape'|].
      inversion Hex as [? ? Hbad|? ? Hrest]; subst; [|exact Hrest].
      exfalso. apply Hbad. eapply nth_error_In. exact Hnth.
    + apply nth_error_None in E.
      assert (m < List.length (input_ids it))%nat
        by (apply nth_error_Some; congruence).
      lia.
Qed.
End FillMaskFacts.

(** X4: when the model gives logits for every position, a fill-mask call
    throws the "Mask token not found" error as soon as one text of the
    batch has no mask token, and otherwise returns one list of predictions
    per text (the list itself for a single text). *)
Theorem fill_mask_requires_mask_token
    (softmax : list Q -> list Q) (decode : list Z -> bool -> string)
    (vocab : nat -> option string) (mask_token_id : Z) (mask_token : string)
    (super_call : Js.js_arg string -> list FillMaskPipeline.item)
    (texts : Js.js_arg string) (topk : nat) :
  Forall (fun it => List.length (FillMaskPipeline.logits it)
                    = List.length (FillMaskPipeline.input_ids it))
    (super_call texts) ->
  (Exists (fun it => ~ In mask_token_id (FillMaskPipeline.input_ids it))
     (super_call texts) ->
   FillMaskPipeline._call softmax decode vocab mask_token_id mask_token
     super_call texts topk
   = Js.ThrowError (FillMaskPipeline.mask_error mask_token))
  /\ (Forall (fun it => In mask_token_id (FillMaskPipeline.input_ids it))
        (super_call texts) ->
      exists toReturn,
        List.length toReturn = List.length (super_call texts)
        /\ FillMaskPipeline._call softmax decode vocab mask_token_id
             mask_token super_call texts topk
           = Js.Return (if Js.isArray texts then Js.JArr toReturn
                        else Js.first toReturn)).
Proof.
  intros Hshape. split.
  - intros Hex. unfold FillMaskPipeline._call.
    now rewrite (@items_loop_throws softmax decode vocab mask_token_id
                   mask_token topk _ [] Hshape Hex).
  - intros Hall. unfold FillMaskPipeline._call.
    destruct (@items_loop_returns softmax decode vocab mask_token_id
                mask_token topk _ [] Hshape Hall) as (l & Hl & Hlen).
    rewrite Hl. simpl. now exists l.
Qed.

Lemma fill_mask_requires_mask_token_witness :
  FillMaskPipeline._call Spec.uniform (fun _ _ => ""%string) (fun _ => None)
    103%Z "[MASK]"%string
    (fun _ => [ {| FillMaskPipeline.input_ids := [101; 103; 102]%Z;
                   FillMaskPipeline.logits := [[0; 0]; [0; 0]; [0; 0]] |};
                {| FillMaskPipeline.input_ids := [101; 7; 102]%Z;
                   FillMaskPipeline.logits := [[0; 0]; [0; 0]; [0; 0]] |} ])
    (Js.Many ["a [MASK]"; "b"]%string) 5
  = Js.ThrowError "Mask token ([MASK]) not found in text."%string.
Proof.
  apply (fill_mask_requires_mask_token Spec.uniform (fun _ _ => ""%string)
           (fun _ => None) 103%Z "[MASK]"%string
           (fun _ => [ {| FillMaskPipeline.input_ids := [101; 103; 102]%Z;
                          FillMaskPipeline.logits := [[0; 0]; [0; 0]; [0; 0]] |};
                       {| FillMaskPipeline.input_ids := [101; 7; 102]%Z;
                          FillMaskPipeline.logits := [[0; 0]; [0; 0]; [0; 0]] |} ])
           (Js.Many ["a [MASK]"; "b"]%string) 5).
  - repeat constructor.
  - apply Exists_cons_tl, Exists_cons_hd. simpl.
    intros [H|[H|[H|[]]]]; discriminate.
Defined.

(** X5: every prediction of a fill-mask item is built from the item's
    token ids with the first mask token - and only that position - replaced
    by the predicted token; its [token_str] is the vocabulary entry of that
    token. *)
Theorem fill_mask_replaces_first_mask
    (softmax : list Q -> list Q) (decode : list Z -> bool -> string)
    (vocab : nat -> option string) (mask_token_id : Z) (mask_token : string)
    (topk : nat) (it : FillMaskPipeline.item)
    (preds : list FillMaskPipeline.prediction) :
  FillMaskPipeline.item_predictions softmax decode vocab mask_token_id
    mask_token topk it = Js.Return preds ->
  exists m : nat,
    nth_error (FillMaskPipeline.input_ids it) m = Some mask_token_id
    /\ (forall m', (m' < m)%nat ->
                   nth_error (FillMaskPipeline.input_ids it) m'
                   <> Some mask_token_id)
    /\ forall p, In p preds ->
         FillMaskPipeline.token_str p = vocab (FillMaskPipeline.token p)
         /\ exists filled : list Z,
              FillMaskPipeline.sequence p = decode filled true
              /\ List.length filled
                 = List.length (FillMaskPipeline.input_ids it)
              /\ nth_error filled m
                 = Some (Z.of_nat (FillMaskPipeline.token p))
              /\ forall j, j <> m ->
                   nth_error filled j
                   = nth_error (FillMaskPipeline.input_ids it) j.
Proof.
  intros H.
  destruct (item_predictions_cases softmax decode vocab mask_token_id
              mask_token topk it) as [[_ Hp]|(m & Hm & Hlt & Hp)];
    [congruence|].
  rewrite Hp in H.
  destruct (nth_error (FillMaskPipeline.logits it) m) as [itemLogits|];
    [|discriminate].
  inversion H as [Hpreds]. clear H.
  exists m. split; [exact Hm|]. split; [exact Hlt|].
  intros p Hin. apply in_map_iff in Hin. destruct Hin as ([i q] & <- & _).
  simpl. split; [reflexivity|].
  exists (FillMaskPipeline.set_at (FillMaskPipeline.input_ids it) m (Z.of_nat i)).
  split; [reflexivity|]. split; [apply set_at_length|].
  split; [|intros j Hj; now apply set_at_other].
  apply set_at_same, nth_error_Some. congruence.
Qed.

Lemma fill_mask_replaces_first_mask_witness :
  exists m : nat,
    nth_error [101; 103; 102]%Z m = Some 103%Z
    /\ (forall m', (m' < m)%nat -> nth_error [101; 103; 102]%Z m' <> Some 103%Z)
    /\ forall p,
         In p (map (fun x =>
                      {| FillMaskPipeline.score := snd x;
                         FillMaskPipeline.token := fst x;
                         FillMaskPipeline.token_str := None;
                         FillMaskPipeline.sequence := ""%string |})
                 (Maths.getTopItems (Spec.uniform [0; 0]) 1)) ->
         FillMaskPipeline.token_str p = None
         /\ exists filled : list Z,
              FillMaskPipeline.sequence p = ""%string
              /\ List.length filled = 3%nat
              /\ nth_error filled m = Some (Z.of_nat (FillMaskPipeline.token p))
              /\ forall j, j <> m ->
                   nth_error filled j = nth_error [101; 103; 102]%Z j.
Proof.
  apply (@fill_mask_replaces_first_mask Spec.uniform (fun _ _ => ""%string)
           (fun _ => None) 103%Z "[MASK]"%string 1
           {| FillMaskPipeline.input_ids := [101; 103; 102]%Z;
              FillMaskPipeline.logits := [[0; 0]; [0; 0]; [0; 0]] |}).
  reflexivity.
Defined.

(** ** Text-to-text generation *)
Lemma add_prefix_map (p : option string) (texts : list string) :
  Text2TextGenerationPipeline.add_prefix p texts
  = map (fun x => (match p with Some s => s | None => "" end ++ x)%string) texts.
Proof.
  unfold Text2TextGenerationPipeline.add_prefix.
  destruct p as [s|]; simpl.
  - destruct (String.eqb_spec s "") as [->|E]; simpl; [|reflexivity].
    now rewrite map_id.
  - now rewrite map_id.
Qed.

(** X6: the texts a text-to-text pipeline tokenizes are the inputs with the
    global prefix put in front and the task-specific prefix put in front of
    that (a missing prefix counting as the empty string); and the call
    always resolves to a flat array of the decoded sequences - also for a
    single input string - each wrapped under [summary_text] by the
    summarization pipeline. *)
Theorem text2text_prefix_order
    (input_ids sequence kwargs : Type)
    (tokenizer : list string -> input_ids)
    (build_translation_inputs : option (list string -> kwargs -> input_ids))
    (generate : input_ids -> kwargs -> list (list sequence))
    (batch_decode : list sequence -> list string)
    (cfg : Text2TextGenerationPipeline.config) (task : string)
    (texts : Js.js_arg string) (kw : kwargs) :
  let global :=
    match Text2TextGenerationPipeline.prefix cfg with
    | Some s => s
    | None => ""%string
    end in
  let specific :=
    match Text2TextGenerationPipeline.task_specific_params cfg with
    | Some tsp => match Js.own tsp task with
                  | Some (Some s) => s
                  | _ => ""%string
                  end
    | None => ""%string
    end in
  let prepared :=
    map (fun x => (specific ++ (global ++ x))%string) (Js.to_list texts) in
  Text2TextGenerationPipeline.prepare cfg task texts = prepared
  /\ Text2TextGenerationPipeline.Summarization_call tokenizer
       build_translation_inputs generate batch_decode cfg task texts kw
     = Js.JArr
         (map (fun text =>
                 Js.JObj (Text2TextGenerationPipeline.Keyed "summary_text" text))
            (batch_decode (List.concat (generate (tokenizer prepared) kw))))
  /\ Text2TextGenerationPipeline.Text2TextGeneration_call tokenizer
       build_translation_inputs generate batch_decode cfg task texts kw
     = Js.JArr
         (map (fun text => Js.JObj (Text2TextGenerationPipeline.Text text))
            (batch_decode (List.concat (generate (tokenizer prepared) kw)))).
Proof.
  intros global specific prepared.
  assert (Hp : Text2TextGenerationPipeline.prepare cfg task texts = prepared).
  { unfold Text2TextGenerationPipeline.prepare, prepared, specific, global.
    rewrite add_prefix_map.
    destruct (Text2TextGenerationPipeline.task_specific_params cfg) as [tsp|].
    - unfold Js.get. destruct (Js.own tsp task) as [p|].
      + rewrite add_prefix_map, map_map. now destruct p.
      + destruct (existsb _ _); reflexivity.
    - reflexivity. }
  split; [exact Hp|].
  unfold Text2TextGenerationPipeline.Summarization_call,
    Text2TextGenerationPipeline.Text2TextGeneration_call,
    Text2TextGenerationPipeline._call.
  rewrite Hp. split; reflexivity.
Qed.

(** ** Text generation *)
Lemma prefix_app (a b : string) : String.prefix a (a ++ b) = true.
Proof.
  induction a as [|c a IH]; simpl.
  - now destruct b.
  - destruct (Ascii.ascii_dec c c) as [_|N]; [exact IH | congruence].
Qed.

Section TextGenerationFacts.
Import Js TextGenerationPipeline.
Variables sequence kwargs : Type.
Variable trim : string -> string.
Variable batch_decode : list sequence -> list string.
Variable texts : list string.

Lemma decode_from_returns (outs : list (list sequence)) :
  forall i : nat,
    (i + List.length outs <= List.length texts)%nat ->
    exists groups,
      decode_from trim batch_decode texts i outs = Return groups
      /\ List.length groups = List.length outs
      /\ forall k g,
           nth_error groups k = Some g ->
           exists t l,
             nth_error texts (i + k) = Some t
             /\ g = JArr (map JObj l)
             /\ forall x, In x l ->
                  String.prefix (trim t) (generated_text x) = true.
Proof.
  induction outs as [|o rest IH]; intros i Hlen; simpl in *.
  - exists []. repeat split. intros [|k] g H; discriminate.
  - destruct (nth_error texts i) as [t|] eqn:E;
      [|apply nth_error_None in E; lia].
    destruct (IH (S i)) as (groups & Hg & Hl & Hp); [lia|].
    rewrite Hg. eexists. split; [reflexivity|]. split; [simpl; now rewrite Hl|].
    intros [|k] g H; simpl in H.
    + inversion H; subst. rewrite Nat.add_0_r.
      exists t, (map (fun x => {| generated_text := (trim t ++ x)%string |})
                   (batch_decode o)).
      split; [exact E|]. split; [now rewrite map_map|].
      intros x Hx. apply in_map_iff in Hx. destruct Hx as (y & <- & _).
      simpl. apply prefix_app.
    + rewrite Nat.add_succ_r. now apply Hp.
Qed.

Lemma decode_from_throws (outs : list (list sequence)) :
  forall i : nat,
    (i <= List.length texts)%nat ->
    (List.length texts < i + List.length outs)%nat ->
    decode_from trim batch_decode texts i outs
    = ThrowTypeError trim_of_undefined.
Proof.
  induction outs as [|o rest IH]; intros i Hi Hlen; simpl in *; [lia|].
  destruct (nth_error texts i) as [t|] eqn:E; [|reflexivity].
  assert (i < List.length texts)%nat by (apply nth_error_Some; congruence).
  now rewrite IH by lia.
Qed.
End TextGenerationFacts.

(** X7: text generation on an array of prompts returns one group of
    generated texts per prompt when the model gives one output group per
    prompt, every generated text starting with its trimmed prompt; with more
    output groups than prompts the call throws a [TypeError]; and a single
    string prompt with one output group gets that group itself, not an array
    of groups. *)
Theorem text_generation_groups
    (sequence kwargs : Type) (trim : string -> string)
    (generate : list string -> kwargs -> list (list sequence))
    (batch_decode : list sequence -> list string) (kw : kwargs) :
  (forall prompts,
      List.length (generate prompts kw) = List.length prompts ->
      exists groups,
        TextGenerationPipeline._call trim generate batch_decode
          (Js.Many prompts) kw = Js.Return (Js.JArr groups)
        /\ List.length groups = List.length prompts
        /\ forall k g,
             nth_error groups k = Some g ->
             exists t l,
               nth_error prompts k = Some t
               /\ g = Js.JArr (map Js.JObj l)
               /\ forall x, In x l ->
                    String.prefix (trim t)
                      (TextGenerationPipeline.generated_text x) = true)
  /\ (forall texts,
        (List.length (Js.to_list texts)
         < List.length (generate (Js.to_list texts) kw))%nat ->
        TextGenerationPipeline._call trim generate batch_decode texts kw
        = Js.ThrowTypeError TextGenerationPipeline.trim_of_undefined)
  /\ (forall prompt outTokens,
        generate [prompt] kw = [outTokens] ->
        TextGenerationPipeline._call trim generate batch_decode
          (Js.Single prompt) kw
        = Js.Return
            (Js.JArr
               (map (fun x =>
                       Js.JObj
                         {| TextGenerationPipeline.generated_text :=
                              (trim prompt ++ x)%string |})
                  (batch_decode outTokens)))).
Proof.
  split; [|split].
  - intros prompts Hlen. unfold TextGenerationPipeline._call. simpl.
    destruct (@decode_from_returns sequence trim batch_decode prompts
                (generate prompts kw) 0) as (groups & Hg & Hl & Hp);
      [simpl; lia|].
    rewrite Hg. exists groups. split; [reflexivity|].
    split; [now rewrite Hl|]. exact Hp.
  - intros texts Hlen. unfold TextGenerationPipeline._call.
    rewrite decode_from_throws; [reflexivity | lia | simpl; lia].
  - intros prompt outTokens Hg. unfold TextGenerationPipeline._call. simpl.
    rewrite Hg. reflexivity.
Qed.

Lemma text_generation_groups_witness :
  TextGenerationPipeline._call (fun s : string => s)
    (fun (prompts : list string) (_ : unit) => [[1%nat]; [2%nat]])
    (fun _ : list nat => [" world"%string])
    (Js.Single "hello"%string) tt
  = Js.ThrowTypeError TextGenerationPipeline.trim_of_undefined.
Proof.
  destruct (text_generation_groups (fun s : string => s)
              (fun (prompts : list string) (_ : unit) => [[1%nat]; [2%nat]])
              (fun _ : list nat => [" world"%string]) tt) as (_ & H & _).
  apply (H (Js.Single "hello"%string)). simpl. lia.
Defined.

(** ** Normalization of embeddings *)
Lemma fold_squares (l : list Q) :
  forall a : Q,
    exists s,
      fold_left (fun x b => Js.num_add x (Js.num_mul b b)) (map Js.Fin l)
        (Js.Fin a) = Js.Fin s
      /\ s == a + Spec.sum_squares l.
Proof.
  induction l as [|q qs IH]; intros a; simpl.
  - exists a. split; [reflexivity|]. unfold Spec.sum_squares, Maths.total.
    simpl. lra.
  - destruct (IH (a + q * q)) as (s & Hs & Heq). exists s.
    split; [exact Hs|]. rewrite Heq. unfold Spec.sum_squares, Maths.total.
    simpl. lra.
Qed.

(** X9: normalizing a row of zeros divides 0 by 0: every entry becomes
    [NaN]; nothing is thrown. *)
Theorem normalize_row_of_zeros (sqrt : Q -> Q) (row : list Q) :
  (forall x, x == 0 -> sqrt x == 0) ->
  Forall (fun q => q == 0) row ->
  FeatureExtractionPipeline.normalize_row sqrt (map Js.Fin row)
  = map (fun _ => Js.NaN) row.
Proof.
  intros Hsqrt Hz.
  destruct (fold_squares row 0) as (s & Hs & Heq).
  assert (Hs0 : s == 0).
  { rewrite Heq. clear Heq Hs. unfold Spec.sum_squares, Maths.total.
    induction Hz as [|q qs Hq _ IH]; simpl; [lra|]. rewrite Hq. lra. }
  unfold FeatureExtractionPipeline.normalize_row,
    FeatureExtractionPipeline.norm_of.
  rewrite Hs. simpl.
  assert (E : Qle_bool 0 s = true) by (apply Qle_bool_iff; lra).
  rewrite E, map_map.
  apply map_ext_in. intros q Hq.
  apply (proj1 (Forall_forall _ _) Hz) in Hq. simpl.
  assert (E1 : Qeq_bool (sqrt s) 0 = true)
    by (apply Qeq_bool_iff, Hsqrt, Hs0).
  assert (E2 : Qeq_bool q 0 = true) by (apply Qeq_bool_iff, Hq).
  now rewrite E1, E2.
Qed.

Lemma normalize_row_of_zeros_witness :
  FeatureExtractionPipeline.normalize_row (fun x => x) (map Js.Fin [0; 0; 0])
  = map (fun _ => Js.NaN) [0; 0; 0].
Proof.
  apply (@normalize_row_of_zeros (fun x => x) [0; 0; 0]).
  - intros x Hx. exact Hx.
  - repeat constructor.
Defined.

(** ** Feature extraction end to end *)
Lemma firstn_app_exact {A} (a b : list A) :
  firstn (List.length a) (a ++ b) = a.
Proof. induction a as [|x xs IH]; simpl; [now destruct b | now rewrite IH]. Qed.

Lemma skipn_app_exact {A} (a b : list A) :
  skipn (List.length a) (a ++ b) = b.
Proof. induction a as [|x xs IH]; simpl; auto. Qed.

Lemma map_const {A B} (f : A -> B) (c : B) (l : list A) :
  (forall x, In x l -> f x = c) -> map f l = repeat c (List.length l).
Proof.
  induction l as [|x xs IH]; simpl; intros H; [reflexivity|].
  rewrite (H x (or_introl eq_refl)), IH; [reflexivity|].
  intros y Hy. apply H. now right.
Qed.

Lemma rows_of_flat_map (f : nat -> nat -> Js.num) (E B : nat) :
  forall s : nat,
    FeatureExtractionPipeline.rows B E
      (flat_map (fun i => map (fun k => f i k) (seq 0 E)) (seq s B))
    = map (fun i => map (fun k => f i k) (seq 0 E)) (seq s B).
Proof.
  induction B as [|B IH]; intros s; simpl; [reflexivity|].
  assert (HE : E = List.length (map (fun k => f s k) (seq 0 E)))
    by (now rewrite length_map, length_seq).
  rewrite HE at 1. rewrite firstn_app_exact.
  rewrite HE at 3. rewrite skipn_app_exact.
  now rewrite IH.
Qed.

Lemma pool_sums_zero_mask (B S E : nat) (d : list Q) (m : list Z) (i k : nat) :
  Spec.well_formed {| FeatureExtractionPipeline.dims := (B, S, E);
                      FeatureExtractionPipeline.data := d |} m ->
  (i < B)%nat -> (k < E)%nat ->
  (forall j, (j < S)%nat -> Spec.mask_at m S i j = 0%Z) ->
  FeatureExtractionPipeline.pool_cell
    {| FeatureExtractionPipeline.dims := (B, S, E);
       FeatureExtractionPipeline.data := d |} m i k = Js.NaN.
Proof.
  intros wf Hi Hk Hz.
  destruct (pool_sums_masked wf Hi Hk) as (s & c & Hp & Hs & Hc).
  unfold FeatureExtractionPipeline.pool_cell. rewrite Hp. simpl.
  assert (Hu : Spec.unmasked m S i = []).
  { apply filter_none. intros j Hj. apply in_seq in Hj.
    rewrite Hz by lia. reflexivity. }
  assert (Hc0 : c == 0).
  { rewrite Hc. unfold Spec.masked_count. simpl. now rewrite Hu. }
  assert (Hs0 : s == 0).
  { rewrite Hs. unfold Spec.masked_sum. simpl. now rewrite Hu. }
  apply Qeq_bool_iff in Hc0, Hs0. now rewrite Hc0, Hs0.
Qed.

Lemma feature_extraction_rows {text : Type} (sqrt : Q -> Q)
    (super_call : text -> FeatureExtractionPipeline.Tensor * list Z)
    (texts : text) (B S E : nat) (d : list Q) (m : list Z) :
  super_call texts
  = ({| FeatureExtractionPipeline.dims := (B, S, E);
        FeatureExtractionPipeline.data := d |}, m) ->
  FeatureExtractionPipeline._call sqrt super_call texts
  = map (fun i =>
           FeatureExtractionPipeline.normalize_row sqrt
             (map (fun k =>
                     FeatureExtractionPipeline.pool_cell
                       {| FeatureExtractionPipeline.dims := (B, S, E);
                          FeatureExtractionPipeline.data := d |} m i k)
                (seq 0 E)))
      (seq 0 B).
Proof.
  intros Hcall. unfold FeatureExtractionPipeline._call. rewrite Hcall. simpl.
  unfold FeatureExtractionPipeline._mean_pooling. simpl.
  rewrite (rows_of_flat_map
             (FeatureExtractionPipeline.pool_cell
                {| FeatureExtractionPipeline.dims := (B, S, E);
                   FeatureExtractionPipeline.data := d |} m) E B 0).
  unfold FeatureExtractionPipeline._normalize. now rewrite map_map.
Qed.

(** X10: the feature-extraction call returns a [batchSize x embedDim]
    tensor: one row per batch item, each of [embedDim] entries, row [i]
    being the normalization of the mean-pooled cells of item [i]. *)
Theorem feature_extraction_shape {text : Type} (sqrt : Q -> Q)
    (super_call : text -> FeatureExtractionPipeline.Tensor * list Z)
    (texts : text) (B S E : nat) (d : list Q) (m : list Z) :
  super_call texts
  = ({| FeatureExtractionPipeline.dims := (B, S, E);
        FeatureExtractionPipeline.data := d |}, m) ->
  List.length (FeatureExtractionPipeline._call sqrt super_call texts) = B
  /\ Forall (fun row => List.length row = E)
       (FeatureExtractionPipeline._call sqrt super_call texts)
  /\ forall i, (i < B)%nat ->
       nth_error (FeatureExtractionPipeline._call sqrt super_call texts) i
       = Some (FeatureExtractionPipeline.normalize_row sqrt
                 (map (FeatureExtractionPipeline.pool_cell
                         {| FeatureExtractionPipeline.dims := (B, S, E);
                            FeatureExtractionPipeline.data := d |} m i)
                    (seq 0 E))).
Proof.
  intros Hcall. rewrite (feature_extraction_rows sqrt super_call texts Hcall).
  split; [now rewrite length_map, length_seq|]. split.
  - apply Forall_forall. intros row Hrow. apply in_map_iff in Hrow.
    destruct Hrow as (i & <- & _).
    unfold FeatureExtractionPipeline.normalize_row.
    now rewrite !length_map, length_seq.
  - intros i Hi. rewrite nth_error_map, nth_error_seq.
    destruct (Nat.ltb_spec i B); [reflexivity | lia].
Qed.

Lemma feature_extraction_shape_witness :
  List.length
    (FeatureExtractionPipeline._call (fun x => x)
       (fun _ : unit =>
          ({| FeatureExtractionPipeline.dims := (2, 1, 2)%nat;
              FeatureExtractionPipeline.data := [1; 0; 0; 1] |}, [1; 1]%Z)) tt)
  = 2%nat.
Proof.
  apply (@feature_extraction_shape unit (fun x => x)
           (fun _ : unit =>
              ({| FeatureExtractionPipeline.dims := (2, 1, 2)%nat;
                  FeatureExtractionPipeline.data := [1; 0; 0; 1] |},
               [1; 1]%Z)) tt 2 1 2 [1; 0; 0; 1] [1; 1]%Z eq_refl).
Defined.

(** X11: a text whose attention mask is all zeros gets an embedding made of
    [NaN] only - the 0/0 of the pooling survives the normalization - and
    the call does not fail. *)
Theorem feature_extraction_all_masked {text : Type} (sqrt : Q -> Q)
    (super_call : text -> FeatureExtractionPipeline.Tensor * list Z)
    (texts : text) (B S E : nat) (d : list Q) (m : list Z) (i : nat) :
  super_call texts
  = ({| FeatureExtractionPipeline.dims := (B, S, E);
        FeatureExtractionPipeline.data := d |}, m) ->
  Spec.well_formed {| FeatureExtractionPipeline.dims := (B, S, E);
                      FeatureExtractionPipeline.data := d |} m ->
  (i < B)%nat ->
  (forall j, (j < S)%nat -> Spec.mask_at m S i j = 0%Z) ->
  nth_error (FeatureExtractionPipeline._call sqrt super_call texts) i
  = Some (repeat Js.NaN E).
Proof.
  intros Hcall wf Hi Hz.
  rewrite (feature_extraction_rows sqrt super_call texts Hcall).
  rewrite nth_error_map, nth_error_seq.
  destruct (Nat.ltb_spec i B); [|lia]. simpl. f_equal.
  assert (Hpool : map (fun k =>
                         FeatureExtractionPipeline.pool_cell
                           {| FeatureExtractionPipeline.dims := (B, S, E);
                              FeatureExtractionPipeline.data := d |} m i k)
                    (seq 0 E) = repeat Js.NaN E).
  { rewrite <- (length_seq E 0) at 2. apply map_const.
    intros k Hk. apply in_seq in Hk.
    apply (@pool_sums_zero_mask B S E d m i k wf Hi); [lia | exact Hz]. }
  rewrite Hpool. unfold FeatureExtractionPipeline.normalize_row.
  destruct E as [|E']; [reflexivity|].
  assert (Hnorm : FeatureExtractionPipeline.norm_of sqrt (repeat Js.NaN (Datatypes.S E'))
                  = Js.NaN).
  { unfold FeatureExtractionPipeline.norm_of. simpl.
    assert (G : forall n, fold_left
                            (fun a b => Js.num_add a (Js.num_mul b b))
                            (repeat Js.NaN n) Js.NaN = Js.NaN).
    { induction n as [|n IHn]; simpl; auto. }
    now rewrite G. }
  rewrite Hnorm.
  generalize (Datatypes.S E'). intros n. induction n as [|n IHn]; simpl; [reflexivity|].
  now rewrite IHn.
Qed.

Lemma feature_extraction_all_masked_witness :
  nth_error
    (FeatureExtractionPipeline._call (fun x => x)
       (fun _ : unit =>
          ({| FeatureExtractionPipeline.dims := (2, 2, 1)%nat;
              FeatureExtractionPipeline.data := [1; 3; 5; 7] |},
           [1; 1; 0; 0]%Z)) tt) 1
  = Some (repeat Js.NaN 1).
Proof.
  apply (@feature_extraction_all_masked unit (fun x => x)
           (fun _ : unit =>
              ({| FeatureExtractionPipeline.dims := (2, 2, 1)%nat;
                  FeatureExtractionPipeline.data := [1; 3; 5; 7] |},
               [1; 1; 0; 0]%Z)) tt 2 2 1 [1; 3; 5; 7] [1; 1; 0; 0]%Z 1 eq_refl).
  - simpl. split; [reflexivity|]. split; [reflexivity|].
    repeat (apply Forall_cons; [auto|]). apply Forall_nil.
  - lia.
  - intros [|[|j]] Hj; [reflexivity | reflexivity | lia].
Defined.

(** ** Speech recognition: termination, coverage, short clips *)
Section ItemChunksFacts.
Import Js AutomaticSpeechRecognitionPipeline.
Variables sample features : Type.
Variable sampling_rate : Q.
Variable processor : list sample -> features.
Variable aud : list sample.
Variable chunk_len : Q.
Variable stride_len : option Q.
Variable s : Q.
Hypothesis Hpos : 0 < chunk_len.
Hypothesis Hcheck : check_stride chunk_len stride_len = Return s.

Lemma item_chunks_unfold (fuel : nat) :
  item_chunks sampling_rate processor fuel aud chunk_len stride_len
  = match chunk_loop processor fuel aud (sampling_rate * chunk_len)
            (sampling_rate * s)
            (sampling_rate * chunk_len - 2 * (sampling_rate * s)) 0 [] with
    | Return chunks => Return (Some s, chunks)
    | ThrowError m => ThrowError m
    | ThrowTypeError m => ThrowTypeError m
    | OutOfFuel => OutOfFuel
    end.
Proof.
  unfold item_chunks.
  assert (E : Qle_bool chunk_len 0 = false).
  { destruct (Qle_bool chunk_len 0) eqn:E; [|reflexivity].
    apply Qle_bool_iff in E. lra. }
  now rewrite E, Hcheck.
Qed.

Lemma item_chunks_returns :
  0 < sampling_rate * chunk_len - 2 * (sampling_rate * s) ->
  exists n : nat,
    (forall fuel, (n < fuel)%nat ->
       item_chunks sampling_rate processor fuel aud chunk_len stride_len
       = Return
           (Some s,
            map (chunk_at processor aud (sampling_rate * chunk_len)
                   (sampling_rate * s)
                   (sampling_rate * chunk_len - 2 * (sampling_rate * s)))
              (Spec.offsets_from 0
                 (sampling_rate * chunk_len - 2 * (sampling_rate * s)) n)))
    /\ (forall k, (k < n)%nat ->
          inject_Z (Z.of_nat k)
          * (sampling_rate * chunk_len - 2 * (sampling_rate * s))
          < length_of aud)
    /\ length_of aud
       <= inject_Z (Z.of_nat n)
          * (sampling_rate * chunk_len - 2 * (sampling_rate * s)).
Proof.
  intros Hjump.
  destruct (chunk_count_exists Hjump (length_of_nonneg aud))
    as (n & Hbelow & Hout).
  exists n. split; [|split; assumption].
  intros fuel Hfuel. rewrite item_chunks_unfold.
  rewrite (@chunk_loop_returns _ _ processor aud (sampling_rate * chunk_len)
             (sampling_rate * s)
             (sampling_rate * chunk_len - 2 * (sampling_rate * s)) n fuel 0 []).
  - reflexivity.
  - exact Hfuel.
  - intros x Hx. apply In_nth_error in Hx. destruct Hx as [k Hk].
    apply offsets_from_nth in Hk. destruct Hk as (Hk & Ho & _).
    rewrite Ho. specialize (Hbelow k Hk). lra.
  - lra.
Qed.
End ItemChunksFacts.

(** X12: between half the chunk length and the chunk length the stride
    passes the validation and yet the advance is not positive: on a
    non-empty first audio item the chunking loop, and with it the call,
    never returns. *)
Theorem asr_large_stride_never_returns
    (audio_input sample features tokens transcript : Type)
    (sampling_rate : Q) (preprocess : audio_input -> list sample)
    (processor : list sample -> features)
    (generate : features -> AutomaticSpeechRecognitionPipeline.kwargs -> tokens)
    (decode_asr :
       list (AutomaticSpeechRecognitionPipeline.generated_chunk features tokens)
       -> AutomaticSpeechRecognitionPipeline.kwargs -> transcript)
    (audio : Js.js_arg audio_input) (first_item : audio_input)
    (rest : list audio_input)
    (kw : AutomaticSpeechRecognitionPipeline.kwargs) (s : Q) :
  0 < sampling_rate ->
  0 < AutomaticSpeechRecognitionPipeline.chunk_length_s kw ->
  AutomaticSpeechRecognitionPipeline.stride_length_s kw = Some s ->
  AutomaticSpeechRecognitionPipeline.chunk_length_s kw / 2 <= s ->
  s < AutomaticSpeechRecognitionPipeline.chunk_length_s kw ->
  Js.to_list audio = first_item :: rest ->
  preprocess first_item <> [] ->
  AutomaticSpeechRecognitionPipeline.check_stride
    (AutomaticSpeechRecognitionPipeline.chunk_length_s kw) (Some s)
  = Js.Return s
  /\ forall fuel,
       AutomaticSpeechRecognitionPipeline._call sampling_rate preprocess
         processor generate decode_asr fuel audio kw = Js.OutOfFuel.
Proof.
  intros Hsr Hc Hs Hhalf Hlt Haudio Hne.
  assert (Hcheck : AutomaticSpeechRecognitionPipeline.check_stride
                     (AutomaticSpeechRecognitionPipeline.chunk_length_s kw)
                     (Some s) = Js.Return s).
  { unfold AutomaticSpeechRecognitionPipeline.check_stride.
    destruct (Qle_bool _ s) eqn:E; [|reflexivity].
    apply Qle_bool_iff in E. lra. }
  split; [exact Hcheck|].
  intros fuel. unfold AutomaticSpeechRecognitionPipeline._call.
  rewrite Haudio. simpl. rewrite Hs.
  rewrite (@item_chunks_unfold _ _ sampling_rate processor
             (preprocess first_item) _ _ _ Hc Hcheck).
  rewrite chunk_loop_diverges; [reflexivity | | lra |].
  - assert (H2 : AutomaticSpeechRecognitionPipeline.chunk_length_s kw / 2
                 == AutomaticSpeechRecognitionPipeline.chunk_length_s kw * (1 # 2))
      by reflexivity.
    rewrite H2 in Hhalf. nra.
  - unfold AutomaticSpeechRecognitionPipeline.length_of.
    destruct (preprocess first_item) as [|x xs]; [congruence|].
    change 0 with (inject_Z 0). rewrite <- Zlt_Qlt. simpl. lia.
Qed.

Lemma asr_large_stride_never_returns_witness :
  AutomaticSpeechRecognitionPipeline.check_stride 30 (Some 20) = Js.Return 20
  /\ forall fuel,
    AutomaticSpeechRecognitionPipeline._call (tokens := list Z) 16000
      (fun a : list Q => a) (fun subarr : list Q => subarr)
      (fun _ _ => []) (fun _ _ => ""%string) fuel (Js.Single [0; 0; 0])
      {| AutomaticSpeechRecognitionPipeline.return_timestamps := false;
         AutomaticSpeechRecognitionPipeline.chunk_length_s := 30;
         AutomaticSpeechRecognitionPipeline.stride_length_s := Some 20;
         AutomaticSpeechRecognitionPipeline.force_full_sequences := false |}
    = Js.OutOfFuel.
Proof.
  apply (@asr_large_stride_never_returns (list Q) Q (list Q) (list Z) string
           16000 (fun a : list Q => a) (fun subarr : list Q => subarr)
           (fun _ _ => []) (fun _ _ => ""%string) (Js.Single [0; 0; 0])
           [0; 0; 0] []
           {| AutomaticSpeechRecognitionPipeline.return_timestamps := false;
              AutomaticSpeechRecognitionPipeline.chunk_length_s := 30;
              AutomaticSpeechRecognitionPipeline.stride_length_s := Some 20;
              AutomaticSpeechRecognitionPipeline.force_full_sequences := false |}
           20).
  - reflexivity.
  - reflexivity.
  - reflexivity.
  - discriminate.
  - reflexivity.
  - reflexivity.
  - discriminate.
Defined.

Section DefaultStrideFacts.
Import Js AutomaticSpeechRecognitionPipeline.
Variables audio_input sample features tokens transcript : Type.
Variable sampling_rate : Q.
Variable preprocess : audio_input -> list sample.
Variable processor : list sample -> features.
Variable generate : features -> kwargs -> tokens.
Variable decode_asr : list (generated_chunk features tokens) -> kwargs -> transcript.
Variable kw : kwargs.
Hypothesis Hsr : 0 < sampling_rate.

Lemma item_chunks_default (aud : list sample) (st : option Q) :
  (st = None \/ st = Some (chunk_length_s kw / 6)) ->
  exists (n : nat) (st' : option Q) (chunks : list (chunk features)),
    (st' = None \/ st' = Some (chunk_length_s kw / 6))
    /\ forall fuel, (n < fuel)%nat ->
         item_chunks sampling_rate processor fuel aud (chunk_length_s kw) st
         = Return (st', chunks).
Proof.
  intros Hst.
  destruct (Qlt_le_dec 0 (chunk_length_s kw)) as [Hpos|Hneg].
  - assert (H6 : chunk_length_s kw / 6 == chunk_length_s kw * (1 # 6))
      by reflexivity.
    assert (Hcheck : check_stride (chunk_length_s kw) st
                     = Return (chunk_length_s kw / 6)).
    { destruct Hst as [->| ->]; simpl; [reflexivity|].
      destruct (Qle_bool _ _) eqn:E; [|reflexivity].
      apply Qle_bool_iff in E. rewrite H6 in E. lra. }
    destruct (@item_chunks_returns _ _ sampling_rate processor aud
                (chunk_length_s kw) st (chunk_length_s kw / 6) Hpos Hcheck)
      as (n & Hret & _).
    { rewrite H6. nra. }
    exists n, (Some (chunk_length_s kw / 6)). eexists.
    split; [now right|]. exact Hret.
  - exists 0%nat, st. eexists. split; [exact Hst|].
    intros fuel _. unfold item_chunks.
    assert (E : Qle_bool (chunk_length_s kw) 0 = true)
      by (now apply Qle_bool_iff).
    rewrite E. reflexivity.
Qed.

Lemma items_loop_default (audio : list audio_input) :
  forall (st : option Q) (acc : list (jsval transcript)),
    (st = None \/ st = Some (chunk_length_s kw / 6)) ->
    exists (n : nat) (ts : list transcript),
      List.length ts = List.length audio
      /\ forall fuel, (n < fuel)%nat ->
           items_loop sampling_rate preprocess processor generate decode_asr
             fuel kw st audio acc
           = Return (acc ++ map JObj ts).
Proof.
  induction audio as [|aud rest IH]; intros st acc Hst.
  - exists 0%nat, []. split; [reflexivity|]. intros fuel _. simpl.
    now rewrite app_nil_r.
  - destruct (item_chunks_default (preprocess aud) Hst)
      as (n1 & st' & chunks & Hst' & Hitem).
    destruct (IH st'
                (acc ++ [JObj (decode_asr
                                 (map (generate_chunk sampling_rate generate kw)
                                    chunks) kw)]) Hst')
      as (n2 & ts & Hlen & Hrest).
    exists (Nat.max n1 n2),
      (decode_asr (map (generate_chunk sampling_rate generate kw) chunks) kw
         :: ts).
    split; [simpl; now rewrite Hlen|].
    intros fuel Hfuel. simpl.
    rewrite Hitem by lia. rewrite Hrest by lia.
    now rewrite <- app_assoc.
Qed.
End DefaultStrideFacts.

(** X13: a call that is not given [stride_length_s] always returns, whatever
    [chunk_length_s] is (the default stride leaves an advance of two thirds
    of the window): with enough fuel it resolves to one transcript per audio
    item for an array, and to the transcript itself for a single item. *)
Theorem asr_default_stride_returns
    (audio_input sample features tokens transcript : Type)
    (sampling_rate : Q) (preprocess : audio_input -> list sample)
    (processor : list sample -> features)
    (generate : features -> AutomaticSpeechRecognitionPipeline.kwargs -> tokens)
    (decode_asr :
       list (AutomaticSpeechRecognitionPipeline.generated_chunk features tokens)
       -> AutomaticSpeechRecognitionPipeline.kwargs -> transcript)
    (audio : Js.js_arg audio_input)
    (kw : AutomaticSpeechRecognitionPipeline.kwargs) :
  0 < sampling_rate ->
  AutomaticSpeechRecognitionPipeline.stride_length_s kw = None ->
  exists (n : nat) (ts : list transcript),
    List.length ts = List.length (Js.to_list audio)
    /\ forall fuel, (n < fuel)%nat ->
         AutomaticSpeechRecognitionPipeline._call sampling_rate preprocess
           processor generate decode_asr fuel audio kw
         = Js.Return (match audio with
                      | Js.Single _ => Js.first (map Js.JObj ts)
                      | Js.Many _ => Js.JArr (map Js.JObj ts)
                      end).
Proof.
  intros Hsr Hst.
  destruct (@items_loop_default audio_input sample features tokens transcript
              sampling_rate preprocess processor generate decode_asr kw Hsr
              (Js.to_list audio) None [] (or_introl eq_refl))
    as (n & ts & Hlen & Hloop).
  exists n, ts. split; [exact Hlen|].
  intros fuel Hfuel. unfold AutomaticSpeechRecognitionPipeline._call.
  rewrite Hst, (Hloop fuel Hfuel). simpl. now destruct audio.
Qed.

Lemma asr_default_stride_returns_witness :
  exists (n : nat) (ts : list string),
    List.length ts = 2%nat
    /\ forall fuel, (n < fuel)%nat ->
         AutomaticSpeechRecognitionPipeline._call (tokens := list Z) 4
           (fun a : list Q => a) (fun subarr : list Q => subarr)
           (fun _ _ => []) (fun _ _ => "text"%string) fuel
           (Js.Many [repeat 0 20; repeat 0 5])
           {| AutomaticSpeechRecognitionPipeline.return_timestamps := false;
              AutomaticSpeechRecognitionPipeline.chunk_length_s := 3;
              AutomaticSpeechRecognitionPipeline.stride_length_s := None;
              AutomaticSpeechRecognitionPipeline.force_full_sequences := false |}
         = Js.Return (Js.JArr (map Js.JObj ts)).
Proof.
  apply (@asr_default_stride_returns (list Q) Q (list Q) (list Z) string 4
           (fun a : list Q => a) (fun subarr : list Q => subarr)
           (fun _ _ => []) (fun _ _ => "text"%string)
           (Js.Many [repeat 0 20; repeat 0 5])
           {| AutomaticSpeechRecognitionPipeline.return_timestamps := false;
              AutomaticSpeechRecognitionPipeline.chunk_length_s := 3;
              AutomaticSpeechRecognitionPipeline.stride_length_s := None;
              AutomaticSpeechRecognitionPipeline.force_full_sequences := false |}).
  - reflexivity.
  - reflexivity.
Defined.









(** ** Image segmentation and object detection *)

(** X16: an image-segmentation call returns annotations only on the probing
    path: no subtask was given, one image was passed, the feature extractor
    has the panoptic (or, failing that, the instance) post-processing, and
    the annotations are one per segment of the first processed image, each
    with the segment's score, its label from [id2label], and a one-channel
    mask of the map's size that is 255 exactly where the map holds the
    segment's id and 0 elsewhere. *)
Theorem segmentation_returns_only_when_probed
    (image output : Type) (image_size : image -> nat * nat)
    (run : list image -> output)
    (feature_extractor :
       string -> option (ImageSegmentationPipeline.post_process_fn output))
    (id2label : nat -> option string)
    (images : Js.js_arg image) (o : ImageSegmentationPipeline.call_options)
    (anns : list ImageSegmentationPipeline.annotation) :
  ImageSegmentationPipeline._call image_size run feature_extractor id2label
    images o = Js.Return anns ->
  ImageSegmentationPipeline.subtask o = None
  /\ List.length (Js.to_list images) = 1%nat
  /\ exists f processed rest,
       (feature_extractor "post_process_panoptic_segmentation"%string = Some f
        \/ (feature_extractor "post_process_panoptic_segmentation"%string = None
            /\ feature_extractor "post_process_instance_segmentation"%string = Some f))
       /\ f (run (Js.to_list images)) (ImageSegmentationPipeline.threshold o)
            (ImageSegmentationPipeline.mask_threshold o)
            (ImageSegmentationPipeline.overlap_mask_area_threshold o)
            (ImageSegmentationPipeline.label_ids_to_fuse o)
            (match ImageSegmentationPipeline.target_sizes o with
             | Some t => t
             | None => map image_size (Js.to_list images)
             end)
          = processed :: rest
       /\ List.length anns
          = List.length (ImageSegmentationPipeline.segments_info processed)
       /\ forall k a,
            nth_error anns k = Some a ->
            exists segment,
              nth_error (ImageSegmentationPipeline.segments_info processed) k
              = Some segment
              /\ ImageSegmentationPipeline.a_score a
                 = ImageSegmentationPipeline.score segment
              /\ ImageSegmentationPipeline.a_label a
                 = id2label (ImageSegmentationPipeline.label_id segment)
              /\ ImageSegmentationPipeline.channels
                   (ImageSegmentationPipeline.a_mask a) = 1%nat
              /\ List.length (ImageSegmentationPipeline.image_data
                                (ImageSegmentationPipeline.a_mask a))
                 = List.length
                     (ImageSegmentationPipeline.segmentation_data processed)
              /\ forall i v,
                   nth_error
                     (ImageSegmentationPipeline.segmentation_data processed) i
                   = Some v ->
                   nth_error (ImageSegmentationPipeline.image_data
                                (ImageSegmentationPipeline.a_mask a)) i
                   = Some (if (v =? ImageSegmentationPipeline.id segment)%Z
                           then 255%Z else 0%Z).
Proof.
  unfold ImageSegmentationPipeline._call. intros H.
  assert (Hlen : List.length (Js.to_list images) = 1%nat).
  { destruct images as [x|l]; [reflexivity|]. simpl in *.
    destruct (Nat.eqb_spec (List.length l) 1); [assumption | discriminate]. }
  assert (Hguard : Js.isArray images
                   && negb (List.length (Js.to_list images) =? 1) = false).
  { rewrite Hlen. simpl. apply andb_false_r. }
  rewrite Hguard in H.
  destruct (ImageSegmentationPipeline.subtask o) as [s|] eqn:Es.
  - exfalso. unfold ImageSegmentationPipeline.select_fn in H.
    cbv beta iota zeta in H.
    destruct (ImageSegmentationPipeline.is_panoptic_or_instance (Some s));
      [discriminate|].
    destruct (ImageSegmentationPipeline.is_semantic (Some s)); discriminate.
  - split; [reflexivity|]. split; [exact Hlen|].
    rewrite select_fn_probes in H.
    assert (G : forall f,
               match f (run (Js.to_list images))
                       (ImageSegmentationPipeline.threshold o)
                       (ImageSegmentationPipeline.mask_threshold o)
                       (ImageSegmentationPipeline.overlap_mask_area_threshold o)
                       (ImageSegmentationPipeline.label_ids_to_fuse o)
                       (match ImageSegmentationPipeline.target_sizes o with
                        | Some t => t
                        | None => map image_size (Js.to_list images)
                        end)
               with
               | processed :: _ =>
                   Js.Return (map (ImageSegmentationPipeline.annotate id2label
                                     processed)
                                (ImageSegmentationPipeline.segments_info processed))
               | [] => Js.ThrowTypeError
                         ImageSegmentationPipeline.undefined_processed
               end = Js.Return anns ->
               exists processed rest,
                 f (run (Js.to_list images))
                   (ImageSegmentationPipeline.threshold o)
                   (ImageSegmentationPipeline.mask_threshold o)
                   (ImageSegmentationPipeline.overlap_mask_area_threshold o)
                   (ImageSegmentationPipeline.label_ids_to_fuse o)
                   (match ImageSegmentationPipeline.target_sizes o with
                    | Some t => t
                    | None => map image_size (Js.to_list images)
                    end) = processed :: rest
                 /\ anns = map (ImageSegmentationPipeline.annotate id2label
                                  processed)
                             (ImageSegmentationPipeline.segments_info processed)).
    { intros f Hf. destruct (f _ _ _ _ _ _) as [|processed rest];
        [discriminate|]. exists processed, rest. split; [reflexivity|].
      now inversion Hf. }
    assert (Gall :
              exists f processed rest,
                (feature_extractor "post_process_panoptic_segmentation"%string
                 = Some f
                 \/ (feature_extractor "post_process_panoptic_segmentation"%string
                     = None
                     /\ feature_extractor
                          "post_process_instance_segmentation"%string = Some f))
                /\ f (run (Js.to_list images))
                     (ImageSegmentationPipeline.threshold o)
                     (ImageSegmentationPipeline.mask_threshold o)
                     (ImageSegmentationPipeline.overlap_mask_area_threshold o)
                     (ImageSegmentationPipeline.label_ids_to_fuse o)
                     (match ImageSegmentationPipeline.target_sizes o with
                      | Some t => t
                      | None => map image_size (Js.to_list images)
                      end) = processed :: rest
                /\ anns = map (ImageSegmentationPipeline.annotate id2label
                                 processed)
                            (ImageSegmentationPipeline.segments_info processed)).
    { destruct (feature_extractor "post_process_panoptic_segmentation"%string)
        as [f|] eqn:Ep.
      - simpl in H. destruct (G f H) as (processed & rest & Hp & Ha).
        exists f, processed, rest. auto.
      - destruct (feature_extractor "post_process_instance_segmentation"%string)
          as [f|] eqn:Ei.
        + simpl in H. destruct (G f H) as (processed & rest & Hp & Ha).
          exists f, processed, rest. auto.
        + destruct (feature_extractor
                      "post_process_semantic_segmentation"%string);
            simpl in H; discriminate. }
    destruct Gall as (f & processed & rest & Hfe & Hp & ->).
    exists f, processed, rest.
    split; [exact Hfe|]. split; [exact Hp|].
    split; [apply length_map|].
    intros k a Hk. rewrite nth_error_map in Hk.
    destruct (nth_error (ImageSegmentationPipeline.segments_info processed) k)
      as [segment|]; [|discriminate].
    inversion Hk; subst. exists segment. simpl.
    repeat split.
    + unfold ImageSegmentationPipeline.mask_data. apply length_map.
    + intros i v Hv. now apply mask_data_spec.
Qed.

Lemma segmentation_returns_only_when_probed_witness :
  ImageSegmentationPipeline.subtask
    {| ImageSegmentationPipeline.threshold := 1 / 2;
       ImageSegmentationPipeline.mask_threshold := 1 / 2;
       ImageSegmentationPipeline.overlap_mask_area_threshold := 4 / 5;
       ImageSegmentationPipeline.label_ids_to_fuse := None;
       ImageSegmentationPipeline.target_sizes := None;
       ImageSegmentationPipeline.subtask := None |} = None
  /\ List.length (Js.to_list (Js.Single tt)) = 1%nat.
Proof.
  destruct (@segmentation_returns_only_when_probed unit unit
              (fun _ => (1, 2)%nat) (fun _ => tt)
              (fun name =>
                 if String.eqb name "post_process_panoptic_segmentation"
                 then Some (fun _ _ _ _ _ _ =>
                              [ {| ImageSegmentationPipeline.segmentation_data :=
                                     [7; 9]%Z;
                                   ImageSegmentationPipeline.segmentation_dims :=
                                     (1, 2)%nat;
                                   ImageSegmentationPipeline.segments_info :=
                                     [ {| ImageSegmentationPipeline.id := 7%Z;
                                          ImageSegmentationPipeline.label_id := 0;
                                          ImageSegmentationPipeline.score := 1 |} ]
                                |} ])
                 else None)
              (fun _ => Some "cat"%string) (Js.Single tt)
              {| ImageSegmentationPipeline.threshold := 1 / 2;
                 ImageSegmentationPipeline.mask_threshold := 1 / 2;
                 ImageSegmentationPipeline.overlap_mask_area_threshold := 4 / 5;
                 ImageSegmentationPipeline.label_ids_to_fuse := None;
                 ImageSegmentationPipeline.target_sizes := None;
                 ImageSegmentationPipeline.subtask := None |}
              [ {| ImageSegmentationPipeline.a_score := 1;
                   ImageSegmentationPipeline.a_label := Some "cat"%string;
                   ImageSegmentationPipeline.a_mask :=
                     {| ImageSegmentationPipeline.image_data := [255; 0]%Z;
                        ImageSegmentationPipeline.width := 2;
                        ImageSegmentationPipeline.height := 1;
                        ImageSegmentationPipeline.channels := 1 |} |} ]
              eq_refl) as (H1 & H2 & _).
  split; assumption.
Defined.

(** X17: the ways an image-segmentation call is refused.  An array that
    does not hold exactly one image - the empty array included - is
    rejected for its batch size before anything else; an explicit
    [semantic] subtask, or a processor that only has the semantic
    post-processing, gives "semantic segmentation not yet supported."; any
    other explicit subtask name gives "Subtask <name> not supported."; and a
    processor without any of the three post-processings gives "Subtask null
    not supported.". *)
Theorem segmentation_refusals
    (image output : Type) (image_size : image -> nat * nat)
    (run : list image -> output)
    (feature_extractor :
       string -> option (ImageSegmentationPipeline.post_process_fn output))
    (id2label : nat -> option string) (img : image)
    (o : ImageSegmentationPipeline.call_options) :
  (forall l, List.length l <> 1%nat ->
     ImageSegmentationPipeline._call image_size run feature_extractor id2label
       (Js.Many l) o
     = Js.ThrowError ImageSegmentationPipeline.batch_error)
  /\ (ImageSegmentationPipeline.subtask o = Some "semantic"%string ->
      ImageSegmentationPipeline._call image_size run feature_extractor id2label
        (Js.Single img) o
      = Js.ThrowError ImageSegmentationPipeline.semantic_error)
  /\ (forall name,
        ImageSegmentationPipeline.subtask o = Some name ->
        name <> "panoptic"%string -> name <> "instance"%string ->
        name <> "semantic"%string ->
        ImageSegmentationPipeline._call image_size run feature_extractor
          id2label (Js.Single img) o
        = Js.ThrowError ("Subtask " ++ name ++ " not supported.")%string)
  /\ (ImageSegmentationPipeline.subtask o = None ->
      feature_extractor "post_process_panoptic_segmentation"%string = None ->
      feature_extractor "post_process_instance_segmentation"%string = None ->
      ImageSegmentationPipeline._call image_size run feature_extractor id2label
        (Js.Single img) o
      = match feature_extractor "post_process_semantic_segmentation"%string with
        | Some _ => Js.ThrowError ImageSegmentationPipeline.semantic_error
        | None => Js.ThrowError "Subtask null not supported."%string
        end).
Proof.
  split; [|split; [|split]].
  - intros l Hl. unfold ImageSegmentationPipeline._call. simpl.
    apply Nat.eqb_neq in Hl. now rewrite Hl.
  - intros Hs. unfold ImageSegmentationPipeline._call. simpl.
    rewrite Hs. reflexivity.
  - intros name Hs Hp Hi Hsem. unfold ImageSegmentationPipeline._call. simpl.
    rewrite Hs. unfold ImageSegmentationPipeline.select_fn.
    cbv beta iota zeta.
    unfold ImageSegmentationPipeline.is_panoptic_or_instance,
      ImageSegmentationPipeline.is_semantic.
    apply String.eqb_neq in Hp, Hi, Hsem. now rewrite Hp, Hi, Hsem.
  - intros Hs Hp Hi. unfold ImageSegmentationPipeline._call. simpl.
    rewrite Hs, select_fn_probes, Hp, Hi.
    now destruct (feature_extractor "post_process_semantic_segmentation"%string).
Qed.

Lemma segmentation_refusals_witness :
  ImageSegmentationPipeline._call (fun _ : unit => (1, 1)%nat)
    (fun _ => tt) (fun _ => None) (fun _ => None) (Js.Single tt)
    {| ImageSegmentationPipeline.threshold := 1 / 2;
       ImageSegmentationPipeline.mask_threshold := 1 / 2;
       ImageSegmentationPipeline.overlap_mask_area_threshold := 4 / 5;
       ImageSegmentationPipeline.label_ids_to_fuse := None;
       ImageSegmentationPipeline.target_sizes := None;
       ImageSegmentationPipeline.subtask := Some "depth"%string |}
  = Js.ThrowError "Subtask depth not supported."%string.
Proof.
  destruct (@segmentation_refusals unit unit (fun _ : unit => (1, 1)%nat)
              (fun _ => tt) (fun _ => None) (fun _ => None) tt
              {| ImageSegmentationPipeline.threshold := 1 / 2;
                 ImageSegmentationPipeline.mask_threshold := 1 / 2;
                 ImageSegmentationPipeline.overlap_mask_area_threshold := 4 / 5;
                 ImageSegmentationPipeline.label_ids_to_fuse := None;
                 ImageSegmentationPipeline.target_sizes := None;
                 ImageSegmentationPipeline.subtask := Some "depth"%string |})
    as (_ & _ & H & _).
  apply (H "depth"%string); [reflexivity | | | ]; discriminate.
Defined.

(** X18: object detection rejects an array that does not hold exactly one
    image; otherwise it returns the post-processed detections - the first
    one for a single image, all of them for a one-image array - each with
    one label per detected class, taken from [id2label], and the
    post-processing is given the image sizes unless [percentage] is set. *)
Theorem object_detection_result
    (image output : Type) (image_size : image -> nat * nat)
    (run : list image -> output)
    (post_process :
       output -> Q -> option (list (nat * nat))
       -> list ObjectDetectionPipeline.detection)
    (id2label : nat -> option string) (threshold : Q) (percentage : bool) :
  (forall l, List.length l <> 1%nat ->
     ObjectDetectionPipeline._call image_size run post_process id2label
       (Js.Many l) threshold percentage
     = Js.ThrowError ObjectDetectionPipeline.batch_error)
  /\ (forall images,
        (Js.isArray images = true -> List.length (Js.to_list images) = 1%nat) ->
        exists processed,
          ObjectDetectionPipeline._call image_size run post_process id2label
            images threshold percentage
          = Js.Return (if Js.isArray images then Js.JArr (map Js.JObj processed)
                       else Js.first (map Js.JObj processed))
          /\ map ObjectDetectionPipeline.detected processed
             = post_process (run (Js.to_list images)) threshold
                 (if percentage then None
                  else Some (map image_size (Js.to_list images)))
          /\ forall x, In x processed ->
               ObjectDetectionPipeline.labels x
               = map id2label
                   (ObjectDetectionPipeline.classes
                      (ObjectDetectionPipeline.detected x))).
Proof.
  split.
  - intros l Hl. unfold ObjectDetectionPipeline._call. simpl.
    apply Nat.eqb_neq in Hl. now rewrite Hl.
  - intros images Hlen. unfold ObjectDetectionPipeline._call.
    assert (G : Js.isArray images
                && negb (List.length (Js.to_list images) =? 1) = false).
    { destruct (Js.isArray images) eqn:E; [|reflexivity].
      rewrite (Hlen eq_refl). reflexivity. }
    rewrite G. eexists. split; [reflexivity|]. split.
    + rewrite map_map. simpl. apply map_id.
    + intros x Hx. apply in_map_iff in Hx. destruct Hx as (y & <- & _).
      reflexivity.
Qed.

Lemma object_detection_result_witness :
  ObjectDetectionPipeline._call (fun _ : unit => (1, 1)%nat) (fun _ => tt)
    (fun _ _ _ => []) (fun _ => None) (Js.Many []) (9 / 10) false
  = Js.ThrowError ObjectDetectionPipeline.batch_error.
Proof.
  destruct (@object_detection_result unit unit (fun _ : unit => (1, 1)%nat)
              (fun _ => tt) (fun _ _ _ => []) (fun _ => None) (9 / 10) false)
    as (H & _).
  apply (H []). discriminate.
Defined.

(** ** The factory: aliases, task variants, loading *)

(** X19: an alias is transparent: for every entry of the alias map, asking
    for the alias gives exactly what asking for its target gives (for 'vqa'
    both are the unsupported-pipeline error naming the target). *)
Theorem pipeline_alias_transparent
    (collaborator : Type)
    (from_pretrained :
       string -> string -> Factory.PretrainedOptions -> collaborator + string)
    (alias target : string) (model : option string)
    (o : Factory.PretrainedOptions) :
  In (alias, target) Factory.TASK_ALIASES ->
  Factory.pipeline from_pretrained alias model o
  = Factory.pipeline from_pretrained target model o.
Proof.
  intros H. simpl in H.
  destruct H as [H|[H|[H|[H|[]]]]]; inversion H; subst; reflexivity.
Qed.

Lemma pipeline_alias_transparent_witness :
  Factory.pipeline (fun _ _ _ => inl tt) "sentiment-analysis" None
    {| Factory.quantized := true; Factory.cache_dir := None;
       Factory.local_files_only := false; Factory.revision := "main" |}
  = Factory.pipeline (fun _ _ _ => inl tt) "text-classification" None
      {| Factory.quantized := true; Factory.cache_dir := None;
         Factory.local_files_only := false; Factory.revision := "main" |}.
Proof.
  apply (@pipeline_alias_transparent unit (fun _ _ _ => inl tt)
           "sentiment-analysis" "text-classification").
  left. reflexivity.
Defined.

(** X20: a registered task name extended by an underscore and any suffix
    (as in 'translation_en_to_fr') builds the pipeline of the bare name -
    same class, same model, same loaded collaborators, same failure - only
    the pipeline's task field keeps the full name. *)
Theorem pipeline_task_variant
    (collaborator : Type)
    (from_pretrained :
       string -> string -> Factory.PretrainedOptions -> collaborator + string)
    (key suffix : string) (info : Factory.descriptor) (model : option string)
    (o : Factory.PretrainedOptions) :
  In (key, info) Factory.SUPPORTED_TASKS ->
  Factory.pipeline from_pretrained (key ++ "_" ++ suffix) model o
  = match Factory.pipeline from_pretrained key model o with
    | Js.Return p =>
        Js.Return {| Factory.p_task := (key ++ "_" ++ suffix)%string;
                     Factory.p_class := Factory.p_class p;
                     Factory.p_model := Factory.p_model p;
                     Factory.p_items := Factory.p_items p |}
    | other => other
    end.
Proof.
  intros H. simpl in H.
  repeat (destruct H as [H|H];
          [inversion H; subst; clear H;
           unfold Factory.pipeline; cbn;
           destruct model as [m|]; cbn;
           [destruct (String.eqb m ""); cbn|];
           repeat match goal with
                  | |- context [from_pretrained ?a ?b ?c] =>
                      destruct (from_pretrained a b c); cbn
                  end; reflexivity
          |]).
  contradiction.
Qed.

Lemma pipeline_task_variant_witness :
  Factory.pipeline (fun _ _ _ => inl tt) ("translation" ++ "_" ++ "en_to_fr")
    None
    {| Factory.quantized := true; Factory.cache_dir := None;
       Factory.local_files_only := false; Factory.revision := "main" |}
  = Js.Return {| Factory.p_task := "translation_en_to_fr";
                 Factory.p_class := "TranslationPipeline";
                 Factory.p_model := "Xenova/t5-small";
                 Factory.p_items := [tt; tt] |}.
Proof.
  rewrite (@pipeline_task_variant unit (fun _ _ _ => inl tt) "translation"
             "en_to_fr"
             (Factory.text_task "TranslationPipeline" "AutoModelForSeq2SeqLM"
                "Xenova/t5-small")).
  - reflexivity.
  - simpl. tauto.
Defined.

Section LoadFacts.
Import Js Factory.
Variable collaborator : Type.
Variable from_pretrained :
  string -> string -> PretrainedOptions -> collaborator + string.
Variable model : string.
Variable o : PretrainedOptions.

Lemma load_all_ok (classes : list string) (items : list collaborator) :
  Forall2 (fun cls item => from_pretrained cls model o = inl item)
    classes items ->
  load_all from_pretrained classes model o = Return items.
Proof.
  induction 1 as [|cls item classes items Hc _ IH]; simpl; [reflexivity|].
  now rewrite Hc, IH.
Qed.

Lemma load_all_fail (classes : list string) :
  Exists (fun cls => exists e, from_pretrained cls model o = inr e) classes ->
  exists e, load_all from_pretrained classes model o = ThrowError e.
Proof.
  induction classes as [|cls rest IH]; intros H; [inversion H|]. simpl.
  destruct (from_pretrained cls model o) as [item|e] eqn:E.
  - inversion H as [? ? (e & He)|? ? Hrest]; subst; [congruence|].
    destruct (IH Hrest) as (e & He). exists e. now rewrite He.
  - now exists e.
Qed.
End LoadFacts.

Lemma registered_key_lookup (key : string) (info : Factory.descriptor) :
  In (key, info) Factory.SUPPORTED_TASKS ->
  existsb (String.eqb key) Js.Object_prototype = false
  /\ Js.own Factory.SUPPORTED_TASKS (Factory.first_segment (Spec.resolved key))
     = Some info
  /\ Spec.resolved key = key.
Proof.
  intros H. simpl in H.
  repeat (destruct H as [H|H];
          [inversion H; subst; clear H; repeat split; reflexivity|]).
  contradiction.
Qed.

(** X21: for a registered task the factory uses the given model, or the
    task's default model when the model is [null] or empty; it returns a
    pipeline exactly when the tokenizer (if the task has one), the model and
    the processor (if the task has one) all load, holding them in that
    order; and when one of them fails to load the call fails with a load
    error and no pipeline. *)
Theorem pipeline_loads_all_or_nothing
    (collaborator : Type)
    (from_pretrained :
       string -> string -> Factory.PretrainedOptions -> collaborator + string)
    (key : string) (info : Factory.descriptor) (model : option string)
    (o : Factory.PretrainedOptions) :
  In (key, info) Factory.SUPPORTED_TASKS ->
  let used :=
    if Factory.no_model model then Factory.default_model info
    else match model with Some m => m | None => ""%string end in
  let classes :=
    Factory.option_list (Factory.tokenizer info)
      ++ [Factory.model_class info]
      ++ Factory.option_list (Factory.processor info) in
  (forall items,
      Forall2 (fun cls item => from_pretrained cls used o = inl item)
        classes items ->
      Factory.pipeline from_pretrained key model o
      = Js.Return {| Factory.p_task := key;
                     Factory.p_class := Factory.pipeline_class info;
                     Factory.p_model := used;
                     Factory.p_items := items |})
  /\ (Exists (fun cls => exists e, from_pretrained cls used o = inr e) classes ->
      exists e, Factory.pipeline from_pretrained key model o = Js.ThrowError e).
Proof.
  intros H used classes.
  assert (Hsup :
            Factory.pipeline from_pretrained key model o
            = match Factory.load_all from_pretrained classes used o with
              | Js.Return items =>
                  Js.Return {| Factory.p_task := key;
                               Factory.p_class := Factory.pipeline_class info;
                               Factory.p_model := used;
                               Factory.p_items := items |}
              | Js.ThrowError e => Js.ThrowError e
              | Js.ThrowTypeError e => Js.ThrowTypeError e
              | Js.OutOfFuel => Js.OutOfFuel
              end).
  { destruct (registered_key_lookup H) as (H1 & H2 & H3).
    rewrite (pipeline_supported from_pretrained key model o H1 H2).
    now rewrite H3. }
  split.
  - intros items Hall. rewrite Hsup.
    now rewrite (load_all_ok from_pretrained used o Hall).
  - intros Hex. rewrite Hsup.
    destruct (load_all_fail from_pretrained used o Hex) as (e & He).
    exists e. now rewrite He.
Qed.

Lemma pipeline_loads_all_or_nothing_witness :
  exists e,
    Factory.pipeline
      (fun cls _ _ =>
         if String.eqb cls "AutoProcessor" then inr "404"%string else inl tt)
      "image-classification" (Some "my/model"%string)
      {| Factory.quantized := true; Factory.cache_dir := None;
         Factory.local_files_only := false; Factory.revision := "main" |}
    = Js.ThrowError e.
Proof.
  destruct (@pipeline_loads_all_or_nothing unit
              (fun cls _ _ =>
                 if String.eqb cls "AutoProcessor" then inr "404"%string
                 else inl tt)
              "image-classification"
              (Factory.multimodal_task false "ImageClassificationPipeline"
                 "AutoModelForImageClassification" "Xenova/vit-base-patch16-224")
              (Some "my/model"%string)
              {| Factory.quantized := true; Factory.cache_dir := None;
                 Factory.local_files_only := false;
                 Factory.revision := "main" |}) as (_ & H).
  - simpl. tauto.
  - apply H. simpl. apply Exists_cons_tl, Exists_cons_hd.
    now exists "404"%string.
Defined.

(** ** Zero-shot classification: label ids and templates *)
Lemma own_last {A} (pre post : list (string * A)) (k key : string) (v : A) :
  k = key -> Js.own post key = None ->
  Js.own (pre ++ (k, v) :: post) key = Some v.
Proof.
  intros -> Hpost. induction pre as [|[k' v'] pre IH]; simpl.
  - now rewrite Hpost, String.eqb_refl.
  - now rewrite IH.
Qed.

Lemma constructor_lookup (config pre post : list (string * Z)) (k name : string)
    (v : Z) :
  config = pre ++ (k, v) :: post ->
  ZeroShotClassificationPipeline.toLowerCase k = name ->
  (forall k' v', In (k', v') post ->
                 ZeroShotClassificationPipeline.toLowerCase k' <> name) ->
  Js.get (map (fun kv => (ZeroShotClassificationPipeline.toLowerCase (fst kv),
                          snd kv)) config) name = Js.Own v.
Proof.
  intros -> Hk Hpost. unfold Js.get.
  rewrite map_app. simpl.
  rewrite (@own_last _ _ _ _ _ v Hk (own_lowercase_missing post Hpost)).
  reflexivity.
Qed.

(** X22: the NLI label ids are looked up without regard to case, the last
    matching entry of [label2id] winning: when the last key that lower-cases
    to 'entailment' (resp. 'contradiction') maps to [v], the pipeline uses
    [v] and logs no warning about it. *)
Theorem zero_shot_label_ids_found (config pre post : list (string * Z))
    (k : string) (v : Z) :
  config = pre ++ (k, v) :: post ->
  ((ZeroShotClassificationPipeline.toLowerCase k = "entailment"%string ->
    (forall k' v', In (k', v') post ->
       ZeroShotClassificationPipeline.toLowerCase k' <> "entailment"%string) ->
    ZeroShotClassificationPipeline.entailment_id
      (fst (ZeroShotClassificationPipeline.constructor config)) = v
    /\ ~ In ZeroShotClassificationPipeline.warn_entailment
           (snd (ZeroShotClassificationPipeline.constructor config)))
   /\ (ZeroShotClassificationPipeline.toLowerCase k = "contradiction"%string ->
       (forall k' v', In (k', v') post ->
          ZeroShotClassificationPipeline.toLowerCase k' <> "contradiction"%string) ->
       ZeroShotClassificationPipeline.contradiction_id
         (fst (ZeroShotClassificationPipeline.constructor config)) = v
       /\ ~ In ZeroShotClassificationPipeline.warn_contradiction
              (snd (ZeroShotClassificationPipeline.constructor config)))).
Proof.
  intros Hcfg. split; intros Hk Hpost;
    unfold ZeroShotClassificationPipeline.constructor;
    rewrite (@constructor_lookup config pre post k _ v Hcfg Hk Hpost).
  - destruct (Js.get _ "contradiction"); simpl; split; try reflexivity;
      intros H; try contradiction;
      destruct H as [H|[]]; discriminate H.
  - destruct (Js.get _ "entailment"); simpl; split; try reflexivity;
      intros H; try contradiction;
      destruct H as [H|[]]; discriminate H.
Qed.

Lemma zero_shot_label_ids_found_witness :
  ZeroShotClassificationPipeline.entailment_id
    (fst (ZeroShotClassificationPipeline.constructor
            [("entailment", 5); ("CONTRADICTION", 0); ("Entailment", 2)]%Z%string))
  = 2%Z
  /\ ~ In ZeroShotClassificationPipeline.warn_entailment
         (snd (ZeroShotClassificationPipeline.constructor
                 [("entailment", 5); ("CONTRADICTION", 0);
                  ("Entailment", 2)]%Z%string)).
Proof.
  destruct (@zero_shot_label_ids_found
              [("entailment", 5); ("CONTRADICTION", 0); ("Entailment", 2)]%Z%string
              [("entailment", 5); ("CONTRADICTION", 0)]%Z%string []
              "Entailment"%string 2%Z eq_refl) as (H & _).
  apply H; [reflexivity|]. intros k' v' [].
Defined.

Lemma sort_const_key {A} (key : A -> Q) (q : Q) (l : list A) :
  (forall x, In x l -> key x = q) ->
  Js.sort (fun a b => key b - key a) l = l.
Proof.
  induction l as [|x xs IH]; simpl; intros H; [reflexivity|].
  rewrite IH by (intros y Hy; apply H; now right).
  destruct xs as [|y ys]; simpl; [reflexivity|].
  rewrite (H x (or_introl eq_refl)), (H y (or_intror (or_introl eq_refl))).
  assert (E : Qle_bool (q - q) 0 = true) by (apply Qle_bool_iff; lra).
  now rewrite E.
Qed.

Lemma labels_in_order {A} (labels : list A) (l : list Q) :
  List.length l = List.length labels ->
  map (fun x => nth_error labels (snd x)) (Js.with_index l) = map Some labels.
Proof.
  intros Hlen. unfold Js.with_index.
  pose proof (labels_of_indices labels [] l Hlen) as L. simpl in L.
  apply (f_equal (map snd)) in L. rewrite map_map in L. simpl in L.
  rewrite L. clear L. revert labels Hlen.
  induction l as [|q qs IH]; intros [|a labels] Hlen; simpl in *;
    try discriminate; [reflexivity|].
  f_equal. apply IH. lia.
Qed.

(** X23: with [multi_label] set and a hypothesis template that has no [{}]
    placeholder, every candidate label is scored on the same hypothesis -
    the template itself - so all scores are equal and the labels come back
    in the order they were given. *)
Theorem zero_shot_template_without_placeholder
    (softmax : list Q -> list Q) (logit : string -> string -> Z -> Q)
    (self : ZeroShotClassificationPipeline.t)
    (candidate_labels : list string) (template premise : string) :
  (forall x, ZeroShotClassificationPipeline.replace_braces template x = template) ->
  let p :=
    ZeroShotClassificationPipeline.classify softmax logit self true
      candidate_labels
      (map (ZeroShotClassificationPipeline.replace_braces template)
         candidate_labels) premise in
  let score :=
    nth 1 (softmax
             [logit premise template
                (ZeroShotClassificationPipeline.contradiction_id self);
              logit premise template
                (ZeroShotClassificationPipeline.entailment_id self)]) 0 in
  ZeroShotClassificationPipeline.labels p = map Some candidate_labels
  /\ ZeroShotClassificationPipeline.scores p
     = map (fun _ => score) candidate_labels.
Proof.
  intros Htpl p score.
  assert (Hs : ZeroShotClassificationPipeline.scores_of softmax logit self true
                 premise
                 (map (ZeroShotClassificationPipeline.replace_braces template)
                    candidate_labels)
               = map (fun _ => score) candidate_labels).
  { unfold ZeroShotClassificationPipeline.scores_of. rewrite map_map.
    apply map_ext. intros x. now rewrite Htpl. }
  subst p. unfold ZeroShotClassificationPipeline.classify.
  cbn [ZeroShotClassificationPipeline.labels
         ZeroShotClassificationPipeline.scores].
  rewrite Hs.
  rewrite (@sort_const_key _ (@fst Q nat) score).
  - split.
    + apply labels_in_order. apply length_map.
    + apply map_fst_with_index.
  - intros [q i] Hin. simpl. apply In_with_index in Hin.
    apply nth_error_In, in_map_iff in Hin. now destruct Hin as (_ & <- & _).
Qed.

Lemma zero_shot_template_without_placeholder_witness :
  ZeroShotClassificationPipeline.labels
    (ZeroShotClassificationPipeline.classify Spec.uniform (fun _ _ _ => 0)
       (fst (ZeroShotClassificationPipeline.constructor []))
       true ["sports"; "politics"]%string
       (map (ZeroShotClassificationPipeline.replace_braces "This is it.")
          ["sports"; "politics"]%string) "text"%string)
  = map Some ["sports"; "politics"]%string.
Proof.
  apply (@zero_shot_template_without_placeholder Spec.uniform (fun _ _ _ => 0)
           (fst (ZeroShotClassificationPipeline.constructor []))
           ["sports"; "politics"]%string "This is it."%string "text"%string).
  intros x. reflexivity.
Defined.

(** ** Pipelines that keep the input cardinality *)
Lemma batched_or_first {X A B} (input : Js.js_arg X) (f : B -> Js.jsval A)
    (rows : list B) :
  List.length rows = List.length (Js.to_list input) ->
  match input with
  | Js.Many xs =>
      exists l, (if Js.isArray input then Js.JArr (map f rows)
                 else Js.first (map f rows)) = Js.JArr l
                /\ List.length l = List.length xs
  | Js.Single _ =>
      exists r, rows = [r]
                /\ (if Js.isArray input then Js.JArr (map f rows)
                    else Js.first (map f rows)) = f r
  end.
Proof.
  intros Hlen. destruct input as [x|xs]; simpl in *.
  - destruct rows as [|r [|r' rs]]; try discriminate. now exists r.
  - exists (map f rows). split; [reflexivity | now rewrite length_map].
Qed.

(** X24: unlike text classification, the token-classification, NLI
    zero-shot, zero-shot-image and image-to-text pipelines keep the input
    cardinality (given one model row per input): an array gives an array of
    equal length, a single input gives its own result - the list of tokens,
    entries or captions, or for NLI zero-shot the prediction object. *)
Theorem cardinality_preserving_pipelines
    (image pixels sequence kwargs : Type)
    (softmax : list Q -> list Q) (max_index : list Q -> nat)
    (id2label : nat -> option string) (decode : list Z -> bool -> string)
    (super_call : list string -> list (list (Z * list Q)))
    (logit : string -> string -> Z -> Q)
    (self : ZeroShotClassificationPipeline.t)
    (run : list image -> list string -> list (list Q))
    (trim : string -> string) (process : list image -> list pixels)
    (generate : pixels -> kwargs -> list (list sequence))
    (batch_decode : list sequence -> list string)
    (texts : Js.js_arg string) (images : Js.js_arg image)
    (ignore_labels candidate_labels : list string) (template : string)
    (multi_label : bool) (kw : kwargs) :
  (List.length (super_call (Js.to_list texts)) = List.length (Js.to_list texts) ->
   Spec.cardinality_preserved 0 texts
     (TokenClassificationPipeline._call softmax max_index id2label decode
        super_call texts ignore_labels))
  /\ Spec.cardinality_preserved 1 texts
       (ZeroShotClassificationPipeline._call softmax logit self texts
          (Js.Many candidate_labels) template multi_label)
  /\ (List.length
        (run (Js.to_list images)
           (map (ZeroShotClassificationPipeline.replace_braces template)
              candidate_labels))
      = List.length (Js.to_list images) ->
      Spec.cardinality_preserved 0 images
        (ZeroShotImageClassificationPipeline._call softmax run images
           candidate_labels template))
  /\ (List.length (process (Js.to_list images)) = List.length (Js.to_list images) ->
      Spec.cardinality_preserved 0 images
        (ImageToTextPipeline._call trim process generate batch_decode images kw)).
Proof.
  split; [|split; [|split]].
  - intros Hlen. unfold TokenClassificationPipeline._call.
    pose proof (batched_or_first texts
                  (fun row => Js.JArr (map Js.JObj
                     (TokenClassificationPipeline.tokens_from softmax max_index
                        id2label decode ignore_labels 0 row))) _ Hlen) as H.
    destruct texts as [x|xs]; simpl in *.
    + destruct H as (r & _ & ->). eexists. reflexivity.
    + exact H.
  - unfold ZeroShotClassificationPipeline._call.
    destruct texts as [x|xs]; simpl.
    + eexists. reflexivity.
    + eexists. split; [reflexivity | now rewrite length_map].
  - intros Hlen. unfold ZeroShotImageClassificationPipeline._call.
    pose proof (batched_or_first images
                  (fun batch => Js.JArr (map Js.JObj
                     (ZeroShotImageClassificationPipeline.entries softmax
                        candidate_labels batch))) _ Hlen) as H.
    destruct images as [x|xs]; simpl in *.
    + destruct H as (r & _ & ->). eexists. reflexivity.
    + exact H.
  - intros Hlen. unfold ImageToTextPipeline._call.
    pose proof (batched_or_first images
                  (fun batch => Js.JArr (map Js.JObj
                     (ImageToTextPipeline.caption trim generate batch_decode
                        kw batch))) _ Hlen) as H.
    destruct images as [x|xs]; simpl in *.
    + destruct H as (r & _ & ->). eexists. reflexivity.
    + exact H.
Qed.

Lemma cardinality_preserving_pipelines_witness :
  Spec.cardinality_preserved 0 (Js.Many ["a"; "b"]%string)
    (TokenClassificationPipeline._call Spec.uniform (fun _ => 0%nat)
       (fun _ => None) (fun _ _ => "w"%string)
       (fun l => map (fun _ => [(7%Z, [0; 0])]) l)
       (Js.Many ["a"; "b"]%string) ["O"%string]).
Proof.
  destruct (@cardinality_preserving_pipelines unit unit unit unit
              Spec.uniform (fun _ => 0%nat) (fun _ => None)
              (fun _ _ => "w"%string)
              (fun l => map (fun _ => [(7%Z, [0; 0])]) l)
              (fun _ _ _ => 0)
              (fst (ZeroShotClassificationPipeline.constructor []))
              (fun _ _ => []) (fun s => s) (fun _ => []) (fun _ _ => [])
              (fun _ => []) (Js.Many ["a"; "b"]%string) (Js.Many [])
              ["O"%string] [] ""%string false tt) as (H & _).
  apply H. reflexivity.
Defined.

(** X25: zero-shot image classification does not reorder: for one image the
    [i]-th entry carries the [i]-th candidate label and the [i]-th softmax
    score of the image's logits, so the scores sum to what the softmax sums
    to. *)
Theorem zero_shot_image_entries_in_label_order
    (softmax : list Q -> list Q) (candidate_labels : list string)
    (batch : list Q) :
  List.length (softmax batch) = List.length candidate_labels ->
  map ZeroShotImageClassificationPipeline.label
    (ZeroShotImageClassificationPipeline.entries softmax candidate_labels batch)
  = map Some candidate_labels
  /\ map ZeroShotImageClassificationPipeline.score
       (ZeroShotImageClassificationPipeline.entries softmax candidate_labels
          batch)
     = softmax batch.
Proof.
  intros Hlen. unfold ZeroShotImageClassificationPipeline.entries.
  rewrite !map_map. simpl. split.
  - now apply labels_in_order.
  - apply map_fst_with_index.
Qed.

Lemma zero_shot_image_entries_in_label_order_witness :
  map ZeroShotImageClassificationPipeline.label
    (ZeroShotImageClassificationPipeline.entries Spec.uniform
       ["cat"; "dog"]%string [0; 0])
  = map Some ["cat"; "dog"]%string
  /\ map ZeroShotImageClassificationPipeline.score
       (ZeroShotImageClassificationPipeline.entries Spec.uniform
          ["cat"; "dog"]%string [0; 0])
     = Spec.uniform [0; 0].
Proof.
  apply (@zero_shot_image_entries_in_label_order Spec.uniform
           ["cat"; "dog"]%string [0; 0]).
  reflexivity.
Defined.

(** ** Speech recognition: the overlaps the chunks record *)



(** ** Speech recognition without chunking *)
Section UnchunkedFacts.
Import Js AutomaticSpeechRecognitionPipeline.
Variables audio_input sample features tokens transcript : Type.
Variable sampling_rate : Q.
Variable preprocess : audio_input -> list sample.
Variable processor : list sample -> features.
Variable generate : features -> kwargs -> tokens.
Variable decode_asr : list (generated_chunk features tokens) -> kwargs -> transcript.
Variable kw : kwargs.
Hypothesis Hoff : chunk_length_s kw <= 0.

Lemma item_chunks_unchunked (fuel : nat) (aud : list sample) (st : option Q) :
  item_chunks sampling_rate processor fuel aud (chunk_length_s kw) st
  = Return (st, [ {| stride := (length_of aud, 0, 0);
                     input_features := processor aud;
                     is_last := true |} ]).
Proof.
  unfold item_chunks. apply Qle_bool_iff in Hoff. now rewrite Hoff.
Qed.

Lemma items_loop_unchunked (fuel : nat) (audio : list audio_input) :
  forall (st : option Q) (acc : list (jsval transcript)),
    items_loop sampling_rate preprocess processor generate decode_asr fuel kw
      st audio acc
    = Return
        (acc ++ map (fun a =>
                       JObj (decode_asr
                               [generate_chunk sampling_rate generate kw
                                  {| stride := (length_of (preprocess a), 0, 0);
                                     input_features := processor (preprocess a);
                                     is_last := true |}] kw))
                  audio).
Proof.
  induction audio as [|a rest IH]; intros st acc; simpl.
  - now rewrite app_nil_r.
  - rewrite item_chunks_unchunked. simpl. rewrite IH.
    now rewrite <- app_assoc.
Qed.
End UnchunkedFacts.

(** X27: with [chunk_length_s <= 0] nothing is chunked and nothing is
    validated: whatever [stride_length_s] holds, and with any fuel, the call
    returns - one transcript per audio item for an array, the transcript
    itself for a single item - and each transcript is decoded from a single
    chunk, marked last, that holds the features of the whole signal and was
    pushed with stride [[length, 0, 0]]. *)
Theorem asr_unchunked_call
    (audio_input sample features tokens transcript : Type)
    (sampling_rate : Q) (preprocess : audio_input -> list sample)
    (processor : list sample -> features)
    (generate : features -> AutomaticSpeechRecognitionPipeline.kwargs -> tokens)
    (decode_asr :
       list (AutomaticSpeechRecognitionPipeline.generated_chunk features tokens)
       -> AutomaticSpeechRecognitionPipeline.kwargs -> transcript)
    (audio : Js.js_arg audio_input)
    (kw : AutomaticSpeechRecognitionPipeline.kwargs) (fuel : nat) :
  AutomaticSpeechRecognitionPipeline.chunk_length_s kw <= 0 ->
  let whole a :=
    {| AutomaticSpeechRecognitionPipeline.stride :=
         (AutomaticSpeechRecognitionPipeline.length_of (preprocess a), 0, 0);
       AutomaticSpeechRecognitionPipeline.input_features :=
         processor (preprocess a);
       AutomaticSpeechRecognitionPipeline.is_last := true |} in
  let transcribe a :=
    decode_asr
      [AutomaticSpeechRecognitionPipeline.generate_chunk sampling_rate
         generate kw (whole a)] kw in
  AutomaticSpeechRecognitionPipeline._call sampling_rate preprocess processor
    generate decode_asr fuel audio kw
  = Js.Return
      match audio with
      | Js.Single a => Js.JObj (transcribe a)
      | Js.Many l => Js.JArr (map (fun a => Js.JObj (transcribe a)) l)
      end.
Proof.
  intros Hoff whole transcribe.
  unfold AutomaticSpeechRecognitionPipeline._call.
  rewrite (@items_loop_unchunked audio_input sample features tokens transcript
             sampling_rate preprocess processor generate decode_asr kw Hoff).
  now destruct audio.
Qed.

Lemma asr_unchunked_call_witness :
  AutomaticSpeechRecognitionPipeline._call (tokens := list Z) 16000
    (fun a : list Q => a) (fun subarr : list Q => List.length subarr)
    (fun _ _ => []) (fun chunks _ => List.length chunks) 0
    (Js.Many [[0; 0; 0]; [0]])
    {| AutomaticSpeechRecognitionPipeline.return_timestamps := false;
       AutomaticSpeechRecognitionPipeline.chunk_length_s := 0;
       AutomaticSpeechRecognitionPipeline.stride_length_s := Some 20;
       AutomaticSpeechRecognitionPipeline.force_full_sequences := false |}
  = Js.Return (Js.JArr [Js.JObj 1%nat; Js.JObj 1%nat]).
Proof.
  apply (@asr_unchunked_call (list Q) Q nat (list Z) nat 16000
           (fun a : list Q => a) (fun subarr : list Q => List.length subarr)
           (fun _ _ => []) (fun chunks _ => List.length chunks)
           (Js.Many [[0; 0; 0]; [0]])
           {| AutomaticSpeechRecognitionPipeline.return_timestamps := false;
              AutomaticSpeechRecognitionPipeline.chunk_length_s := 0;
              AutomaticSpeechRecognitionPipeline.stride_length_s := Some 20;
              AutomaticSpeechRecognitionPipeline.force_full_sequences := false |}
           0).
  discriminate.
Defined.

(** ** Zero-shot classification: the hypothesis built for a label *)
Lemma append_cons_assoc (a : string) (c : ascii) (b : string) :
  ((a ++ String c EmptyString) ++ b = a ++ String c b)%string.
Proof. induction a as [|x a IH]; simpl; [reflexivity | now rewrite IH]. Qed.

Lemma replace_from_skip (before rest x : string) (c : ascii) :
  c <> "{"%char ->
  ZeroShotClassificationPipeline.replace_from before (String c rest) x
  = String c (ZeroShotClassificationPipeline.replace_from
                (before ++ String c EmptyString) rest x).
Proof.
  intros Hc.
  destruct c as [[] [] [] [] [] [] [] []]; try reflexivity.
  now contradiction Hc.
Qed.

Lemma replace_from_first (pre : string) :
  forall before post x : string,
    (forall n, String.get n pre <> Some "{"%char) ->
    ZeroShotClassificationPipeline.replace_from before
      (pre ++ "{}" ++ post) x
    = (pre ++ ZeroShotClassificationPipeline.GetSubstitution "{}"
                (before ++ pre) post x ++ post)%string.
Proof.
  induction pre as [|c pre IH]; intros before post x Hpre.
  - simpl. f_equal. f_equal. induction before as [|b bs IHb]; simpl;
      [reflexivity | now rewrite <- IHb].
  - assert (Hc : c <> "{"%char).
    { intros ->. now apply (Hpre 0%nat). }
    change ((String c pre ++ "{}" ++ post)%string)
      with (String c (pre ++ "{}" ++ post)%string).
    rewrite (replace_from_skip _ _ _ Hc). rewrite IH.
    + now rewrite append_cons_assoc.
    + intros n. apply (Hpre (S n)).
Qed.

Lemma GetSubstitution_plain (matched before after x : string) :
  (forall n, String.get n x <> Some "$"%char) ->
  ZeroShotClassificationPipeline.GetSubstitution matched before after x = x.
Proof.
  induction x as [|c x IH]; intros Hx; [reflexivity|].
  assert (Hc : Ascii.eqb c "$" = false).
  { apply Ascii.eqb_neq. intros ->. now apply (Hx 0%nat). }
  cbn [ZeroShotClassificationPipeline.GetSubstitution]. rewrite Hc.
  f_equal. apply IH. intros n. apply (Hx (S n)).
Qed.

(** X28: the hypothesis of a candidate label is
    [hypothesis_template.replace('{}', label)], and [replace] reads the
    label as a replacement pattern.  For a template whose first placeholder
    follows a text [pre] without an opening brace: a label without a dollar
    sign is inserted as it is, at the first placeholder only; the label
    [$&] puts the placeholder back, so the hypothesis is the template
    itself; and [$$] inserts a single dollar sign. *)
Theorem zero_shot_hypothesis_of_label (pre post label : string) :
  (forall n, String.get n pre <> Some "{"%char) ->
  ((forall n, String.get n label <> Some "$"%char) ->
   ZeroShotClassificationPipeline.replace_braces (pre ++ "{}" ++ post) label
   = (pre ++ label ++ post)%string)
  /\ ZeroShotClassificationPipeline.replace_braces (pre ++ "{}" ++ post) "$&"
     = (pre ++ "{}" ++ post)%string
  /\ ZeroShotClassificationPipeline.replace_braces (pre ++ "{}" ++ post) "$$"
     = (pre ++ "$" ++ post)%string.
Proof.
  intros Hpre. unfold ZeroShotClassificationPipeline.replace_braces.
  split; [|split].
  - intros Hlabel. rewrite (replace_from_first _ _ _ _ Hpre).
    now rewrite GetSubstitution_plain.
  - now rewrite (replace_from_first _ _ _ _ Hpre).
  - now rewrite (replace_from_first _ _ _ _ Hpre).
Qed.

Lemma zero_shot_hypothesis_of_label_witness :
  ZeroShotClassificationPipeline.replace_braces "This example is {}. ({})" "$&"
  = "This example is {}. ({})"%string
  /\ ZeroShotClassificationPipeline.replace_braces "This example is {}. ({})"
       "sports"
     = "This example is sports. ({})"%string.
Proof.
  destruct (@zero_shot_hypothesis_of_label "This example is "%string
              ". ({})"%string "sports"%string) as (H1 & H2 & _).
  - intros n. do 17 (destruct n as [|n]; [discriminate|]). discriminate.
  - split; [exact H2|]. apply H1.
    intros n. do 7 (destruct n as [|n]; [discriminate|]). discriminate.
Defined.
